(** * ngpool: the mining job core (job.go)

    A shallow embedding of the merge-mined [Job] of ngpool's stratum
    service: construction from block templates, the blockchain-merkle
    packer, flush evaluation, the ZCash stratum parameters and the
    share / block-solve check, followed by the properties of these
    functions.

    Conventions.  A Go [[]byte] is a [list Z] of values in [0, 256);
    [uint32] is a [Z] reduced modulo [2^32] after every operation; [int]
    and [int64] are 64-bit; [*big.Int] is [Z], a nil [*big.Int] is
    [None].  A Go map with string keys is a [gmap string _]; reading a
    missing key yields the zero value, which is written out with
    [default].  Functions that return [(T, error)] return a [result],
    and a call that may panic returns a [run]. *)

From Stdlib Require Import ZArith Lia List String Ascii.
From stdpp Require Import base option list gmap strings.

Local Open Scope Z_scope.

(** ** Byte strings *)

Abbreviation bytes := (list Z).

Module Bytes.

(** [uint32(x)]: conversion to a 32-bit unsigned word. *)
Definition uint32 (x : Z) : Z := x mod 2 ^ 32.

(** [binary.LittleEndian.PutUint32] into a fresh 4-byte slice. *)
Definition PutUint32 (v : Z) : bytes :=
  [ v mod 256; (v / 2 ^ 8) mod 256; (v / 2 ^ 16) mod 256; (v / 2 ^ 24) mod 256 ].

(** [n] little-endian bytes of [v] (used by [wire.WriteVarInt]). *)
Fixpoint le_split (n : nat) (v : Z) : bytes :=
  match n with
  | O => []
  | S n' => v mod 256 :: le_split n' (v / 256)
  end.

(** Big-endian bytes of a 32-bit word. *)
Definition be32 (v : Z) : bytes :=
  [ (v / 2 ^ 24) mod 256; (v / 2 ^ 16) mod 256; (v / 2 ^ 8) mod 256; v mod 256 ].

(** The unsigned integer whose big-endian bytes are [bs]
    ([big.Int.SetBytes]). *)
Definition be_combine (bs : bytes) : Z :=
  fold_left (fun acc b => acc * 256 + b) bs 0.

(** [common.ReverseBytes], on a value instead of in place. *)
Definition ReverseBytes (bs : bytes) : bytes := rev bs.

(** [wire.WriteVarInt]: Bitcoin's variable length integer. *)
Definition WriteVarInt (v : Z) : bytes :=
  if v <? 0xfd then [v]
  else if v <=? 0xffff then 0xfd :: le_split 2 v
  else if v <=? 0xffffffff then 0xfe :: le_split 4 v
  else 0xff :: le_split 8 v.

Definition hexdigit (d : Z) : ascii :=
  if d <? 10 then ascii_of_N (Z.to_N (48 + d))
  else ascii_of_N (Z.to_N (87 + d)).

(** [hex.EncodeToString]: two lower-case digits per byte. *)
Fixpoint EncodeToString (bs : bytes) : string :=
  match bs with
  | [] => EmptyString
  | b :: rest =>
      String (hexdigit (b / 16)) (String (hexdigit (b mod 16)) (EncodeToString rest))
  end.

Definition fromHexChar (c : ascii) : option Z :=
  let n := Z.of_N (N_of_ascii c) in
  if (48 <=? n) && (n <=? 57) then Some (n - 48)
  else if (97 <=? n) && (n <=? 102) then Some (n - 87)
  else if (65 <=? n) && (n <=? 70) then Some (n - 55)
  else None.

(** [hex.DecodeString]: [None] on an odd length or a character that is
    not a hexadecimal digit. *)
Fixpoint DecodeString (s : string) : option bytes :=
  match s with
  | EmptyString => Some []
  | String _ EmptyString => None
  | String c1 (String c2 rest) =>
      match fromHexChar c1, fromHexChar c2, DecodeString rest with
      | Some h, Some l, Some bs => Some (h * 16 + l :: bs)
      | _, _, _ => None
      end
  end.

End Bytes.

(** ** SHA-256 and the double hash

    [github.com/seehuhn/sha256d] wraps [crypto/sha256]; both are
    libraries, modelled here by FIPS 180-4 so that the digests of
    concrete inputs can be computed. *)

Module SHA256.

Definition w32 (x : Z) : Z := x mod 2 ^ 32.
Definition rotr (n x : Z) : Z := Z.lor (Z.shiftr x n) (w32 (Z.shiftl x (32 - n))).
Definition Ch (x y z : Z) : Z := Z.lxor (Z.land x y) (Z.land (w32 (Z.lnot x)) z).
Definition Maj (x y z : Z) : Z :=
  Z.lxor (Z.lxor (Z.land x y) (Z.land x z)) (Z.land y z).
Definition Sigma0 (x : Z) : Z := Z.lxor (Z.lxor (rotr 2 x) (rotr 13 x)) (rotr 22 x).
Definition Sigma1 (x : Z) : Z := Z.lxor (Z.lxor (rotr 6 x) (rotr 11 x)) (rotr 25 x).
Definition sigma0 (x : Z) : Z := Z.lxor (Z.lxor (rotr 7 x) (rotr 18 x)) (Z.shiftr x 3).
Definition sigma1 (x : Z) : Z := Z.lxor (Z.lxor (rotr 17 x) (rotr 19 x)) (Z.shiftr x 10).

(** The constants are fractional parts of roots of the first primes. *)
Definition isPrime (p : Z) : bool :=
  forallb (fun d => negb (p mod d =? 0)) (seqZ 2 (p - 2)).

Definition primes (n : nat) : list Z := take n (filter (fun p => isPrime p = true) (seqZ 2 400)).

(** The integer cube root of [n], one bit at a time from bit [b] down. *)
Fixpoint cbrt (b : nat) (r n : Z) : Z :=
  match b with
  | O => r
  | S b' =>
      let c := r + 2 ^ Z.of_nat b' in
      if c * c * c <=? n then cbrt b' c n else cbrt b' r n
  end.

(** The first 32 bits of the fractional parts of the cube roots of the
    first 64 primes. *)
Definition K : list Z :=
  Eval vm_compute in map (fun p => w32 (cbrt 40 0 (p * 2 ^ 96))) (primes 64).

(** The first 32 bits of the fractional parts of the square roots of the
    first 8 primes. *)
Definition H0 : list Z :=
  Eval vm_compute in map (fun p => w32 (Z.sqrt (p * 2 ^ 64))) (primes 8).

(** Padding: a one bit, zeros, and the bit length on 8 big-endian bytes. *)
Definition pad (msg : bytes) : bytes :=
  let len := Z.of_nat (length msg) in
  let zeros := Z.to_nat ((55 - len) mod 64) in
  msg ++ [0x80] ++ repeat 0 zeros
      ++ Bytes.be32 ((len * 8) / 2 ^ 32) ++ Bytes.be32 ((len * 8) mod 2 ^ 32).

Fixpoint words (n : nat) (bs : bytes) : list Z :=
  match n with
  | O => []
  | S n' => Bytes.be_combine (take 4 bs) :: words n' (drop 4 bs)
  end.

(** The message schedule, extended from a window of the last 16 words. *)
Fixpoint schedule (n : nat) (win : list Z) : list Z :=
  match n with
  | O => []
  | S n' =>
      let w := w32 (sigma1 (nth 14 win 0) + nth 9 win 0 + sigma0 (nth 1 win 0) + nth 0 win 0) in
      w :: schedule n' (tl win ++ [w])
  end.

Definition round (st : list Z) (kw : Z * Z) : list Z :=
  match st with
  | [a; b; c; d; e; f; g; h] =>
      let t1 := h + Sigma1 e + Ch e f g + kw.1 + kw.2 in
      let t2 := Sigma0 a + Maj a b c in
      [ w32 (t1 + t2); a; b; c; w32 (d + t1); e; f; g ]
  | _ => st
  end.

Definition compress (h : list Z) (block : bytes) : list Z :=
  let w16 := words 16 block in
  let w := w16 ++ schedule 48 w16 in
  let st := fold_left round (combine K w) h in
  zip_with (fun x y => w32 (x + y)) h st.

Fixpoint blocks (n : nat) (h : list Z) (bs : bytes) : list Z :=
  match n with
  | O => h
  | S n' => blocks n' (compress h (take 64 bs)) (drop 64 bs)
  end.

Definition sha256 (msg : bytes) : bytes :=
  let p := pad msg in
  concat (map Bytes.be32 (blocks (length p / 64)%nat H0 p)).

(** The digest [sha256d] returns: SHA-256 applied twice. *)
Definition sha256d (msg : bytes) : bytes := sha256 (sha256 msg).

End SHA256.

(** ** Results of fallible code *)

(** Go [error] values: [errors.New] / [errors.Errorf] and
    [errors.Wrap] / [errors.Wrapf]. *)
Inductive error : Type :=
| New (msg : string)
| Wrap (cause : error) (msg : string).

(** What a function with a result [(T, error)] returns. *)
Inductive result (A : Type) : Type :=
| Ok (a : A)
| Err (e : error).
Arguments Ok {A} a.
Arguments Err {A} e.

#[global] Instance result_ret : MRet result := fun A a => Ok a.
#[global] Instance result_bind : MBind result := fun A B f c =>
  match c with
  | Ok a => f a
  | Err e => Err e
  end.

(** [errors.Wrap(err, msg)] on the error path of a call. *)
Definition wrap {A} (msg : string) (c : result A) : result A :=
  match c with
  | Err e => Err (Wrap e msg)
  | Ok a => Ok a
  end.

(** How a call ends: it returns, or the runtime panics. *)
Inductive run (A : Type) : Type :=
| Done (a : A)
| Panic (msg : string).
Arguments Done {A} a.
Arguments Panic {A} msg.

(** ** Data model *)

(** Modelled from the spec: the declaration of [service.ChainConfig] is
    not among the sources; these are the fields job.go reads.  The
    multi-algo shift and width are unsigned machine integers and the
    codes of [MultiAlgoMap] are [uint32] (they are or-ed into the version
    word without a conversion).  [BlockSubsidyAddress] stands for the
    [String()] of the address. *)
Module ChainConfig.
Record t := mk {
  Code : string;
  FlushAux : bool;
  MultiAlgo : bool;
  MultiAlgoMap : gmap string Z;
  MultiAlgoBitWidth : Z;
  MultiAlgoBitShift : Z;
  BlockSubsidyAddress : string;
}.
End ChainConfig.

(** Modelled from the spec: [service.Algo], of which job.go uses the name
    and the proof-of-work hash function. *)
Module Algo.
Record t := mk {
  Name : string;
  PoWHash : bytes -> result bytes;
}.
End Algo.

(** Modelled from the spec: [BlockTemplate] is declared in a file that is
    not among the sources; these are the fields job.go reads
    ([Transactions] keeps the hex [Data] of each entry, [ChainID] is
    [Extras.ChainID]). *)
Module BlockTemplate.
Record t := mk {
  Version : Z;
  CurTime : Z;
  PreviousBlockhash : string;
  Bits : string;
  Height : Z;
  CoinbaseValue : Z;
  Transactions : list string;
  ChainID : Z;
}.
End BlockTemplate.

Record TemplateKey := mkTemplateKey {
  Currency : string;
  TemplateType : string;
}.

Module MainChainJob.
Record t := mk {
  currencyConfig : ChainConfig.t;
  subsidy : Z;
  height : Z;
  bits : bytes;
  time : bytes;
  version : bytes;
  prevBlockHash : bytes;
  coinbase1 : bytes;
  coinbase2 : bytes;
  merkleBranch : list bytes;
  target : Z;
  transactions : list bytes;
  cleanJobs : bool;
}.

Definition set_cleanJobs (b : bool) (j : t) : t :=
  mk (currencyConfig j) (subsidy j) (height j) (bits j) (time j) (version j)
     (prevBlockHash j) (coinbase1 j) (coinbase2 j) (merkleBranch j) (target j)
     (transactions j) b.

Definition set_coinbase (c1 c2 : bytes) (j : t) : t :=
  mk (currencyConfig j) (subsidy j) (height j) (bits j) (time j) (version j)
     (prevBlockHash j) c1 c2 (merkleBranch j) (target j)
     (transactions j) (cleanJobs j).
End MainChainJob.

Module AuxChainJob.
Record t := mk {
  currencyConfig : ChainConfig.t;
  subsidy : Z;
  height : Z;
  headerHash : bytes;
  blockHeader : bytes;
  chainID : Z;
  blockchainMerkleBranch : list bytes;
  blockchainMerkleMask : Z;
  transactions : list bytes;
  coinbase : bytes;
  coinbaseHash : bytes;
  target : Z;
}.

Definition set_blockchainMerkle (branch : list bytes) (mask : Z) (j : t) : t :=
  mk (currencyConfig j) (subsidy j) (height j) (headerHash j) (blockHeader j)
     (chainID j) branch mask (transactions j) (coinbase j) (coinbaseHash j)
     (target j).
End AuxChainJob.

(** [Job] embeds a [MainChainJob]; the promoted fields are reached
    through [main]. *)
Record Job := mkJob {
  main : MainChainJob.t;
  heights : gmap string Z;
  auxChains : list AuxChainJob.t;
  algo : Algo.t;
}.

Module BlockSolve.
Record t := mk {
  data : bytes;
  coinbaseHash : bytes;
  subsidyAddress : string;
  powalgo : string;
  subsidy : Z;
  height : Z;
  powhash : Z;
  target : Z;
}.
End BlockSolve.

Module SolutionSolve.
Record t := mk {
  nonce2 : bytes;
  nTime : bytes;
  nonce1 : bytes;
  solution : bytes;
}.
End SolutionSolve.

Module ExtranonceSolve.
Record t := mk {
  nonce : bytes;
  nTime : bytes;
  extraNonce2 : bytes;
  extraNonce1 : bytes;
}.
End ExtranonceSolve.

(** The dynamic types an [interface{}] argument or result of [SetFlush]
    takes. *)
Inductive iface : Type :=
| INil
| IInt64 (h : Z)
| IHeights (m : gmap string Z)
| IOther.

(** The dynamic types of the [solveData] argument of [CheckSolves]. *)
Inductive solveData : Type :=
| SDExtranonce (s : ExtranonceSolve.t)
| SDSolution (s : SolutionSolve.t)
| SDOther.

(** An element of the [[]interface{}] of stratum parameters. *)
Inductive param : Type :=
| PString (s : string)
| PBool (b : bool).

(** ** Collaborators

    Functions and tables of the repository and of its libraries that
    job.go calls and that are not part of it: JSON decoding, the currency
    and algorithm registries, the template methods of template.go and the
    merkle helpers.  [sha256dAlgo] is the registry entry
    [service.AlgoConfig["sha256d"]].  [merkleRoot] and [auxMerkleBranch]
    receive the slot table as a slice whose empty slots are [None]. *)
Class Externals := {
  Unmarshal : bytes -> result BlockTemplate.t;
  CurrencyConfig : gmap string ChainConfig.t;
  sha256dAlgo : Algo.t;
  getTarget : BlockTemplate.t -> result Z;
  tmplMerkleBranch : BlockTemplate.t -> list bytes;
  tmplMerkleRoot : BlockTemplate.t -> bytes -> bytes;
  createCoinbase : BlockTemplate.t -> ChainConfig.t -> bytes -> result bytes;
  createCoinbaseSplit :
    BlockTemplate.t -> ChainConfig.t -> bytes -> result (bytes * bytes);
  merkleRoot : list (option bytes) -> bytes;
  auxMerkleBranch : list (option bytes) -> bytes -> list bytes * Z;
}.

(** The [hash.Hash] that [sha256d.New()] returns, as the bytes written
    since the last reset: [Sum] digests them and leaves them in place. *)
Module Hasher.
Definition t := bytes.
Definition new : t := [].
Definition write (h : t) (p : bytes) : t := h ++ p.
Definition sum (h : t) : bytes := SHA256.sha256d h.
Definition reset (h : t) : t := [].
End Hasher.

Import Bytes.

Section Code.
Context `{Externals}.

(** ** Construction of the chain jobs *)

(** [^uint32(x)]: complement of a 32-bit word. *)
Definition not32 (x : Z) : Z := Z.lxor x 0xffffffff.

Definition setAlgoVersion (version : Z) (config : ChainConfig.t) (algo : Algo.t) : Z :=
  if ChainConfig.MultiAlgo config then
    let algoCode := default 0 (ChainConfig.MultiAlgoMap config !! Algo.Name algo) in
    (* Clear all algo bits *)
    let version :=
      Z.land version
        (not32 (uint32 (Z.shiftl (Z.lxor 2 (ChainConfig.MultiAlgoBitWidth config) - 1)
                                 (ChainConfig.MultiAlgoBitShift config)))) in
    (* Inject algo bits for desired algo *)
    Z.lor version (uint32 (Z.shiftl algoCode (ChainConfig.MultiAlgoBitShift config)))
  else version.

(** [hex.DecodeString] followed by [errors.Wrap(err, msg)]. *)
Definition decodeHex (s msg : string) : result bytes :=
  match DecodeString s with
  | Some bs => Ok bs
  | None => Err (Wrap (New "encoding/hex: invalid input") msg)
  end.

(** The loop decoding [tmpl.Transactions]; it returns at the first entry
    that is not hexadecimal. *)
Fixpoint decodeTransactions (txs : list string) : result (list bytes) :=
  match txs with
  | [] => Ok []
  | tx :: rest =>
      decoded ← decodeHex tx "Invalid data from txn";
      transactions ← decodeTransactions rest;
      Ok (decoded :: transactions)
  end.

Definition NewMainChainJob (tmpl : BlockTemplate.t) (config : ChainConfig.t)
    (algo : Algo.t) : result MainChainJob.t :=
  target ← wrap "Error generating target" (getTarget tmpl);
  let encodedTime := PutUint32 (uint32 (BlockTemplate.CurTime tmpl)) in
  let version := uint32 (BlockTemplate.Version tmpl) in
  let version := setAlgoVersion version config algo in
  let encodedVersion := PutUint32 version in
  encodedPrevBlockHash ←
    decodeHex (BlockTemplate.PreviousBlockhash tmpl) "Invalid PreviousBlockhash";
  let encodedPrevBlockHash := ReverseBytes encodedPrevBlockHash in
  encodedBits ← decodeHex (BlockTemplate.Bits tmpl) "Invalid bits";
  let encodedBits := ReverseBytes encodedBits in
  transactions ← decodeTransactions (BlockTemplate.Transactions tmpl);
  Ok {| MainChainJob.height := BlockTemplate.Height tmpl;
        MainChainJob.subsidy := BlockTemplate.CoinbaseValue tmpl;
        MainChainJob.currencyConfig := config;
        MainChainJob.transactions := transactions;
        MainChainJob.bits := encodedBits;
        MainChainJob.time := encodedTime;
        MainChainJob.version := encodedVersion;
        MainChainJob.prevBlockHash := encodedPrevBlockHash;
        MainChainJob.target := target;
        MainChainJob.merkleBranch := tmplMerkleBranch tmpl;
        MainChainJob.cleanJobs := true;
        MainChainJob.coinbase1 := [];
        MainChainJob.coinbase2 := [] |}.

(** [chainhash.NewHash]: the slice must hold exactly 32 bytes. *)
Definition NewHash (bs : bytes) : result bytes :=
  if (length bs =? 32)%nat then Ok bs
  else Err (New "invalid hash length").

(** [blockchain.HashToBig]: the hash bytes read as a little-endian
    integer (the bytes are reversed, then read big-endian). *)
Definition HashToBig (hash : bytes) : Z := be_combine (rev hash).

Definition NewAuxChainJob (template : BlockTemplate.t) (config : ChainConfig.t)
    (algo : Algo.t) : result AuxChainJob.t :=
  target ← wrap "Error generating target" (getTarget template);
  let version := uint32 (BlockTemplate.Version template) in
  (* Set flag for an AuxPoW block *)
  let version := Z.lor version (Z.shiftl 1 8) in
  let version :=
    Z.lor version (uint32 (Z.shiftl (uint32 (BlockTemplate.ChainID template)) 16)) in
  let version := setAlgoVersion version config algo in
  let encodedVersion := PutUint32 version in
  let blkHeader := encodedVersion in
  encodedPrevBlockHash ←
    decodeHex (BlockTemplate.PreviousBlockhash template) "Invalid PreviousBlockhash";
  let encodedPrevBlockHash := ReverseBytes encodedPrevBlockHash in
  let blkHeader := blkHeader ++ encodedPrevBlockHash in
  coinbase ← createCoinbase template config [];
  let hasher := Hasher.new in
  let hasher := Hasher.write hasher coinbase in
  let coinbaseHash := Hasher.sum hasher in
  let merkleRoot := tmplMerkleRoot template coinbaseHash in
  let blkHeader := blkHeader ++ merkleRoot in
  let encodedTime := PutUint32 (uint32 (BlockTemplate.CurTime template)) in
  let blkHeader := blkHeader ++ encodedTime in
  encodedBits ← decodeHex (BlockTemplate.Bits template) "Invalid bits";
  let encodedBits := ReverseBytes encodedBits in
  let blkHeader := blkHeader ++ encodedBits in
  let blkHeader := blkHeader ++ [0; 0; 0; 0] in
  let hasher := Hasher.reset hasher in
  let hasher := Hasher.write hasher blkHeader in
  hashObj ← NewHash (Hasher.sum hasher);
  transactions ← decodeTransactions (BlockTemplate.Transactions template);
  if BlockTemplate.ChainID template =? 0 then Err (New "Null chainid")
  else
    Ok {| AuxChainJob.height := BlockTemplate.Height template;
          AuxChainJob.subsidy := BlockTemplate.CoinbaseValue template;
          AuxChainJob.currencyConfig := config;
          AuxChainJob.target := target;
          AuxChainJob.coinbase := coinbase;
          AuxChainJob.coinbaseHash := coinbaseHash;
          AuxChainJob.transactions := transactions;
          AuxChainJob.chainID := BlockTemplate.ChainID template;
          AuxChainJob.headerHash := hashObj;
          AuxChainJob.blockHeader := blkHeader;
          AuxChainJob.blockchainMerkleBranch := [];
          AuxChainJob.blockchainMerkleMask := 0 |}.

(** ** The template loop of [NewJobFromTemplates]

    [range templates] visits the entries of the map in an order the
    runtime picks; the loop is modelled on the entries in the order they
    are visited.  [bMain] is [Some] exactly when [mainJobSet] is true and
    carries [job.MainChainJob] together with [mainJobTemplate]. *)
Record builder := mkBuilder {
  bMain : option (MainChainJob.t * BlockTemplate.t);
  bHeights : gmap string Z;
  bAuxChains : list AuxChainJob.t;
}.

Definition templateStep (algo : Algo.t) (job : builder)
    (entry : TemplateKey * bytes) : result builder :=
  let '(tmplKey, tmplRaw) := entry in
  tmpl ← wrap "Unable to deserialize template" (Unmarshal tmplRaw);
  match CurrencyConfig !! Currency tmplKey with
  | None => Err (New ("No currency config for " +:+ Currency tmplKey))
  | Some chainConfig =>
      if String.eqb (TemplateType tmplKey) "getblocktemplate_aux" then
        auxChainJob ← NewAuxChainJob tmpl chainConfig algo;
        Ok {| bMain := bMain job;
              bHeights := <[ChainConfig.Code chainConfig := AuxChainJob.height auxChainJob]>
                            (bHeights job);
              bAuxChains := bAuxChains job ++ [auxChainJob] |}
      else if String.eqb (TemplateType tmplKey) "getblocktemplate" then
        if bool_decide (is_Some (bMain job)) then
          Err (New "You can only have one base currency template")
        else
          mainChainJob ← NewMainChainJob tmpl chainConfig algo;
          Ok {| bMain := Some (mainChainJob, tmpl);
                bHeights := <[ChainConfig.Code chainConfig := MainChainJob.height mainChainJob]>
                              (bHeights job);
                bAuxChains := bAuxChains job |}
      else Err (New ("Unrecognized TemplateType " +:+ TemplateType tmplKey))
  end.

Fixpoint templateLoop (algo : Algo.t) (job : builder)
    (templates : list (TemplateKey * bytes)) : result builder :=
  match templates with
  | [] => Ok job
  | entry :: rest =>
      job' ← templateStep algo job entry;
      templateLoop algo job' rest
  end.

(** ** The blockchain-merkle packer

    [merkleBase] is a slice of [merkleSize] entries, [nil] where a slot is
    free.  The packing loop only reads and writes single slots, so the
    slice is kept as the finite map of its occupied slots ([merkleBase !!
    i = None] for a [nil] entry) together with [merkleSize]; [toSlice]
    gives the slice itself.  [headerHash.CloneBytes()] is never [nil]. *)

(** Conversion of an overflowing [int] product to the 64-bit range. *)
Definition int64 (x : Z) : Z := (x + 2 ^ 63) mod 2 ^ 64 - 2 ^ 63.

Definition slotOf (merkleNonce chainID : Z) : Z :=
  let slot := merkleNonce in
  let slot := uint32 (slot * 1103515245 + 12345) in
  let slot := uint32 (slot + uint32 chainID) in
  let slot := uint32 (slot * 1103515245 + 12345) in
  slot.

(** What one pass over [job.auxChains] ends in: every chain placed, a slot
    found occupied ([continue MerkleLoop]), or the remainder by a zero
    [uint32(merkleSize)]. *)
Inductive pass : Type :=
| Filled (merkleBase : gmap Z bytes)
| Collision
| DivideByZero.

Fixpoint fillSlots (merkleNonce merkleSize : Z) (auxs : list AuxChainJob.t)
    (merkleBase : gmap Z bytes) : pass :=
  match auxs with
  | [] => Filled merkleBase
  | mj :: rest =>
      let slot := slotOf merkleNonce (AuxChainJob.chainID mj) in
      if uint32 merkleSize =? 0 then DivideByZero
      else
        let slotNum := slot mod uint32 merkleSize in
        match merkleBase !! slotNum with
        | Some _ => Collision
        | None =>
            fillSlots merkleNonce merkleSize rest
              (<[slotNum := AuxChainJob.headerHash mj]> merkleBase)
        end
  end.

(** The [MerkleLoop]; [None] when [fuel] rounds were not enough. *)
Fixpoint merkleLoop (fuel : nat) (merkleNonce merkleSize : Z)
    (auxs : list AuxChainJob.t) : option (run (Z * gmap Z bytes)) :=
  match fuel with
  | O => None
  | S fuel' =>
      if merkleSize <? 0 then Some (Panic "makeslice: len out of range")
      else
        match fillSlots merkleNonce merkleSize auxs ∅ with
        | Filled merkleBase => Some (Done (merkleSize, merkleBase))
        | Collision => merkleLoop fuel' merkleNonce (int64 (merkleSize * 2)) auxs
        | DivideByZero => Some (Panic "integer divide by zero")
        end
  end.

Definition toSlice (merkleSize : Z) (merkleBase : gmap Z bytes) : list (option bytes) :=
  map (fun i => merkleBase !! i) (seqZ 0 merkleSize).

(** The loop that stores each aux chain's branch and mask. *)
Definition setBranches (merkleBase : list (option bytes))
    (auxs : list AuxChainJob.t) : list AuxChainJob.t :=
  map (fun mj =>
         let '(branch, mask) := auxMerkleBranch merkleBase (AuxChainJob.headerHash mj) in
         AuxChainJob.set_blockchainMerkle branch mask mj) auxs.

(** The bytes written to [mmCoinbase]. *)
Definition mmCoinbase (auxs : list AuxChainJob.t) (merkleSize merkleNonce : Z)
    (merkleBase : list (option bytes)) : bytes :=
  if (0 <? length auxs)%nat then
    [0xfa; 0xbe; 109; 109]
    ++ (if (1 <? length auxs)%nat then ReverseBytes (merkleRoot merkleBase)
        else match auxs with
             | mj :: _ => ReverseBytes (AuxChainJob.headerHash mj)
             | [] => []
             end)
    ++ PutUint32 (uint32 merkleSize)
    ++ PutUint32 (uint32 merkleNonce)
  else [].

Definition emptyBuilder : builder :=
  {| bMain := None; bHeights := ∅; bAuxChains := [] |}.

(** [NewJobFromTemplates], on the template entries in the order the
    [range] visits them.  The result is [None] only when [fuel] rounds of
    the packing loop were not enough; 33 rounds always are. *)
Definition NewJobFromTemplates (fuel : nat) (templates : list (TemplateKey * bytes))
    (algo : Algo.t) : option (run (result Job)) :=
  match templateLoop algo emptyBuilder templates with
  | Err e => Some (Done (Err e))
  | Ok job =>
      match bMain job with
      | None => Some (Done (Err (New "Must have a main chain template")))
      | Some (mainChainJob, mainJobTemplate) =>
          let merkleNonce := 0 in
          match merkleLoop fuel merkleNonce 1 (bAuxChains job) with
          | None => None
          | Some (Panic msg) => Some (Panic msg)
          | Some (Done (merkleSize, merkleBase)) =>
              let merkleBase := toSlice merkleSize merkleBase in
              let auxs := setBranches merkleBase (bAuxChains job) in
              let mm := mmCoinbase auxs merkleSize merkleNonce merkleBase in
              Some (Done (
                '(coinbase1, coinbase2) ←
                  wrap "Unable to create coinbase"
                    (createCoinbaseSplit mainJobTemplate
                       (MainChainJob.currencyConfig mainChainJob) mm);
                Ok {| main := MainChainJob.set_coinbase coinbase1 coinbase2 mainChainJob;
                      heights := bHeights job;
                      auxChains := auxs;
                      algo := algo |}))
          end
      end
  end.

(** ** Flush evaluation *)

Definition set_cleanJobs (b : bool) (j : Job) : Job :=
  {| main := MainChainJob.set_cleanJobs b (main j);
     heights := heights j; auxChains := auxChains j; algo := algo j |}.

(** The loop over [j.auxChains]: does some aux chain with [FlushAux] lie
    above its previous height? *)
Fixpoint auxAdvanced (prev : gmap string Z) (auxs : list AuxChainJob.t) : bool :=
  match auxs with
  | [] => false
  | aux :: rest =>
      if ChainConfig.FlushAux (AuxChainJob.currencyConfig aux)
         && (default 0 (prev !! ChainConfig.Code (AuxChainJob.currencyConfig aux))
             <? AuxChainJob.height aux)
      then true
      else auxAdvanced prev rest
  end.

(** [SetFlush] returns the job (its [cleanJobs] may have been set), the
    drop flag and the value to pass to the next call. *)
Definition SetFlush (j : Job) (lastJobSetFlush : iface) : Job * bool * iface :=
  match lastJobSetFlush with
  | IHeights prev =>
      let code := ChainConfig.Code (MainChainJob.currencyConfig (main j)) in
      if default 0 (prev !! code) <? MainChainJob.height (main j) then
        (set_cleanJobs true j, false, IInt64 (MainChainJob.height (main j)))
      else if MainChainJob.height (main j) <? default 0 (prev !! code) then
        (j, true, INil)
      else if auxAdvanced prev (auxChains j) then
        (set_cleanJobs true j, false, IHeights (heights j))
      else (j, false, IHeights (heights j))
  | _ => (j, false, IHeights (heights j))
  end.

(** ** Stratum parameters and headers *)

(** The walk down the merkle branch, on the hasher as the caller left
    it. *)
Fixpoint walkBranch (hasher : Hasher.t) (rootHash : bytes) (branches : list bytes)
    : Hasher.t * bytes :=
  match branches with
  | [] => (hasher, rootHash)
  | branch :: rest =>
      let hasher := Hasher.write hasher rootHash in
      let hasher := Hasher.write hasher branch in
      let rootHash := Hasher.sum hasher in
      let hasher := Hasher.reset hasher in
      walkBranch hasher rootHash rest
  end.

Definition zeros (n : nat) : bytes := repeat 0 n.

Definition GetZCashStratumParams (j : Job) : result (list param) :=
  let coinbase := MainChainJob.coinbase1 (main j) in
  let coinbase := coinbase ++ zeros 8 in
  let coinbase := coinbase ++ MainChainJob.coinbase2 (main j) in
  let hasher := Hasher.new in
  let hasher := Hasher.write hasher coinbase in
  let coinbaseHash := Hasher.sum hasher in
  let rootHash := coinbaseHash in
  let '(hasher, rootHash) :=
    walkBranch hasher rootHash (MainChainJob.merkleBranch (main j)) in
  Ok [ PString (EncodeToString (MainChainJob.version (main j)));
       PString (EncodeToString (MainChainJob.prevBlockHash (main j)));
       PString (EncodeToString rootHash);
       PString "0000000000000000000000000000000000000000000000000000000000000000";
       PString (EncodeToString (MainChainJob.time (main j)));
       PString (EncodeToString (MainChainJob.bits (main j)));
       PBool (MainChainJob.cleanJobs (main j)) ].

Definition GetBlockHeader (j : MainChainJob.t) (nonce coinbaseHash : bytes) : bytes :=
  let hasher := Hasher.new in
  let buf := MainChainJob.version j in
  let buf := buf ++ MainChainJob.prevBlockHash j in
  let rootHash := coinbaseHash in
  let '(hasher, rootHash) := walkBranch hasher rootHash (MainChainJob.merkleBranch j) in
  let buf := buf ++ rootHash in
  let buf := buf ++ MainChainJob.time j in
  let buf := buf ++ MainChainJob.bits j in
  let buf := buf ++ nonce in
  buf.

Definition GetBlock (j : MainChainJob.t) (header coinbase : bytes) : bytes :=
  header
  ++ WriteVarInt (Z.of_nat (length (MainChainJob.transactions j)) + 1)
  ++ coinbase
  ++ concat (MainChainJob.transactions j).

Definition AuxGetBlock (j : AuxChainJob.t) (coinbase parentHash : bytes)
    (coinbaseBranch : list bytes) (parentHeader : bytes) : bytes :=
  AuxChainJob.blockHeader j
  ++ coinbase
  ++ parentHash
  ++ WriteVarInt (Z.of_nat (length coinbaseBranch))
  ++ concat coinbaseBranch
  ++ [0; 0; 0; 0]
  ++ WriteVarInt (Z.of_nat (length (AuxChainJob.blockchainMerkleBranch j)))
  ++ concat (AuxChainJob.blockchainMerkleBranch j)
  ++ PutUint32 (AuxChainJob.blockchainMerkleMask j)
  ++ parentHeader
  ++ WriteVarInt (Z.of_nat (length (AuxChainJob.transactions j)) + 1)
  ++ AuxChainJob.coinbase j
  ++ concat (AuxChainJob.transactions j).

(** ** Solve verification

    A Go [string] built from byte slices is kept as its bytes. *)

Definition SolutionSolve_GetKey (m : SolutionSolve.t) : bytes :=
  SolutionSolve.nonce2 m ++ SolutionSolve.solution m ++ SolutionSolve.nTime m.

Definition ExtranonceSolve_GetKey (m : ExtranonceSolve.t) : bytes :=
  ExtranonceSolve.extraNonce2 m ++ ExtranonceSolve.extraNonce1 m
  ++ ExtranonceSolve.nTime m ++ ExtranonceSolve.nonce m.

(** The loop over [j.auxChains] that closes both check functions. *)
Fixpoint auxSolves (j : Job) (coinbase headerHsh header : bytes) (bigHsh : Z)
    (auxs : list AuxChainJob.t) (ret : gmap string BlockSolve.t)
    (currencies : list string) : gmap string BlockSolve.t * list string :=
  match auxs with
  | [] => (ret, currencies)
  | mj :: rest =>
      let code := ChainConfig.Code (AuxChainJob.currencyConfig mj) in
      let currencies := currencies ++ [code] in
      let ret :=
        if bigHsh <=? AuxChainJob.target mj then
          <[code :=
              {| BlockSolve.data :=
                   AuxGetBlock mj coinbase headerHsh (MainChainJob.merkleBranch (main j)) header;
                 BlockSolve.subsidy := AuxChainJob.subsidy mj;
                 BlockSolve.height := AuxChainJob.height mj;
                 BlockSolve.coinbaseHash := AuxChainJob.coinbaseHash mj;
                 BlockSolve.subsidyAddress :=
                   ChainConfig.BlockSubsidyAddress (AuxChainJob.currencyConfig mj);
                 BlockSolve.powalgo := "";
                 BlockSolve.powhash := bigHsh;
                 BlockSolve.target := AuxChainJob.target mj |}]> ret
        else ret in
      auxSolves j coinbase headerHsh header bigHsh rest ret currencies
  end.

(** Both check functions end with the same text, from the comparison
    against the share target on. *)
Definition compareTargets (j : Job) (coinbase coinbaseHash header headerHsh : bytes)
    (bigHsh : Z) (shareTarget : option Z)
    : gmap string BlockSolve.t * bool * list string :=
  let validShare :=
    match shareTarget with
    | Some t => t <=? bigHsh
    | None => false
    end in
  let code := ChainConfig.Code (MainChainJob.currencyConfig (main j)) in
  let currencies := [code] in
  let ret : gmap string BlockSolve.t :=
    if bigHsh <=? MainChainJob.target (main j) then
      <[code :=
          {| BlockSolve.data := GetBlock (main j) header coinbase;
             BlockSolve.coinbaseHash := coinbaseHash;
             BlockSolve.subsidyAddress :=
               ChainConfig.BlockSubsidyAddress (MainChainJob.currencyConfig (main j));
             BlockSolve.powalgo := Algo.Name (algo j);
             BlockSolve.subsidy := MainChainJob.subsidy (main j);
             BlockSolve.height := MainChainJob.height (main j);
             BlockSolve.powhash := bigHsh;
             BlockSolve.target := MainChainJob.target (main j) |}]> ∅
    else ∅ in
  let '(ret, currencies) :=
    auxSolves j coinbase headerHsh header bigHsh (auxChains j) ret currencies in
  (ret, validShare, currencies).

Definition checkSolSolve (j : Job) (solveData : SolutionSolve.t) (shareTarget : option Z)
    : result (gmap string BlockSolve.t * bool * list string) :=
  let coinbase := MainChainJob.coinbase1 (main j) in
  let coinbase := coinbase ++ zeros 8 in
  let coinbase := coinbase ++ MainChainJob.coinbase2 (main j) in
  let hasher := Hasher.new in
  let hasher := Hasher.write hasher coinbase in
  let coinbaseHash := Hasher.sum hasher in
  let hasher := Hasher.reset hasher in
  let buf := MainChainJob.version (main j) in
  let buf := buf ++ MainChainJob.prevBlockHash (main j) in
  let rootHash := coinbaseHash in
  let '(hasher, rootHash) :=
    walkBranch hasher rootHash (MainChainJob.merkleBranch (main j)) in
  let buf := buf ++ rootHash in
  let buf := buf ++ zeros 32 in
  let buf := buf ++ SolutionSolve.nTime solveData in
  let buf := buf ++ MainChainJob.bits (main j) in
  let buf := buf ++ SolutionSolve.nonce1 solveData in
  let buf := buf ++ SolutionSolve.nonce2 solveData in
  let buf := buf ++ SolutionSolve.solution solveData in
  let header := buf in
  headerHsh ← Algo.PoWHash sha256dAlgo header;
  hashObj ← NewHash headerHsh;
  let bigHsh := HashToBig hashObj in
  Ok (compareTargets j coinbase coinbaseHash header headerHsh bigHsh shareTarget).

Definition checkExtranonceSolve (j : Job) (solveData : ExtranonceSolve.t)
    (shareTarget : option Z) : result (gmap string BlockSolve.t * bool * list string) :=
  let coinbase := MainChainJob.coinbase1 (main j) in
  let coinbase := coinbase ++ ExtranonceSolve.extraNonce1 solveData in
  let coinbase := coinbase ++ ExtranonceSolve.extraNonce2 solveData in
  let coinbase := coinbase ++ MainChainJob.coinbase2 (main j) in
  let hasher := Hasher.new in
  let hasher := Hasher.write hasher coinbase in
  let coinbaseHash := Hasher.sum hasher in
  let header := GetBlockHeader (main j) (ExtranonceSolve.nonce solveData) coinbaseHash in
  headerHsh ← Algo.PoWHash (algo j) header;
  hashObj ← NewHash headerHsh;
  let bigHsh := HashToBig hashObj in
  Ok (compareTargets j coinbase coinbaseHash header headerHsh bigHsh shareTarget).

Definition CheckSolves (j : Job) (solveData : solveData) (shareTarget : option Z)
    : result (gmap string BlockSolve.t * bool * list string) :=
  match solveData with
  | SDExtranonce v => checkExtranonceSolve j v shareTarget
  | SDSolution v => checkSolSolve j v shareTarget
  | SDOther => Err (New "Unrecognized solve data")
  end.

End Code.

(** * The other stratum emitters *)

Section Emitters.
Context `{Externals}.

(** An element of the parameters of [GetStratumParams]: a string, the
    list of branch strings, or the flag. *)
Inductive notifyParam : Type :=
| NString (s : string)
| NStrings (l : list string)
| NBool (b : bool).

Definition GetStratumParams (j : Job) : result (list notifyParam) :=
  let mb := map EncodeToString (MainChainJob.merkleBranch (main j)) in
  Ok [ NString (EncodeToString (MainChainJob.prevBlockHash (main j)));
       NString (EncodeToString (MainChainJob.coinbase1 (main j)));
       NString (EncodeToString (MainChainJob.coinbase2 (main j)));
       NStrings mb;
       NString (EncodeToString (MainChainJob.version (main j)));
       NString (EncodeToString (MainChainJob.bits (main j)));
       NString (EncodeToString (MainChainJob.time (main j)));
       NBool (MainChainJob.cleanJobs (main j)) ].

(** [header[:n]] for a slice that holds at least [n] bytes.  On a shorter
    slice Go checks the bound against the capacity of the buffer, which
    the byte string does not carry: that case is outside the model. *)
Definition slicePrefix (n : nat) (bs : bytes) : option bytes :=
  if (n <=? length bs)%nat then Some (take n bs) else None.

(** [GetStratum2Params]; the map has the one key "blob".  [None] when the
    header is shorter than 76 bytes. *)
Definition GetStratum2Params (j : Job) (extranonce1 : bytes)
    : option (result (gmap string string)) :=
  let coinbase := MainChainJob.coinbase1 (main j) in
  let coinbase := coinbase ++ extranonce1 in
  let coinbase := coinbase ++ [0; 0; 0; 0] in
  let coinbase := coinbase ++ MainChainJob.coinbase2 (main j) in
  let hasher := Hasher.new in
  let hasher := Hasher.write hasher coinbase in
  let coinbaseHash := Hasher.sum hasher in
  let header := GetBlockHeader (main j) [0; 0; 0; 0] coinbaseHash in
  match slicePrefix 76 header with
  | Some blob => Some (Ok {[ "blob" := EncodeToString blob ]})
  | None => None
  end.

End Emitters.

(** * The service registry (service.go)

    The pieces of the etcd-backed service that compute: the key paths of
    a service, the service id read back from a node key, and the
    bookkeeping of the watcher loop, one round at a time.  The etcd
    calls, JSON decoding, logging and sleeping are left with the caller:
    a round receives the notification they returned. *)

Module Service.

(** The fields of [Service] that [SetServiceID] touches. *)
Record t := mk {
  serviceID : string;
  namespace : string;
  configKeyPath : string;
  statusKeyPath : string;
}.

Definition SetServiceID (s : t) (id : string) : t :=
  {| serviceID := id;
     namespace := namespace s;
     configKeyPath := "/config/" +:+ namespace s +:+ "/" +:+ id;
     statusKeyPath := "/status/" +:+ namespace s +:+ "/" +:+ id |}.

(** [strings.LastIndexByte]: the index of the last [c] in [s], -1 when
    there is none.  [i] is the index of the head of [s], [last] the last
    match before it. *)
Fixpoint lastIndexFrom (s : string) (c : ascii) (i last : Z) : Z :=
  match s with
  | EmptyString => last
  | String a rest => lastIndexFrom rest c (i + 1) (if Ascii.eqb a c then i else last)
  end.

Definition LastIndexByte (s : string) (c : ascii) : Z := lastIndexFrom s c 0 (-1).

(** [s[n:]] for [0 <= n <= len(s)]. *)
Fixpoint sliceFrom (n : nat) (s : string) : string :=
  match n, s with
  | O, _ => s
  | S n', String _ rest => sliceFrom n' rest
  | S _, EmptyString => EmptyString
  end.

(** The service id of a node key, as [parseNode] and the [ls] command of
    ngctl cut it. *)
Definition serviceIDOfKey (key : string) : string :=
  let lbi := LastIndexByte key "/" + 1 in
  sliceFrom (Z.to_nat lbi) key.

Section Watcher.
(** The status type, and the status [json.Unmarshal] leaves in a fresh
    [ServiceStatus] for a node value (its error is dropped). *)
Variable ServiceStatus : Type.
Variable decodeStatus : string -> ServiceStatus.

Definition parseNode (key value : string) : string * ServiceStatus :=
  (serviceIDOfKey key, decodeStatus value).

Record ServiceStatusUpdate := mkUpdate {
  ServiceType : string;
  ServiceID : string;
  Status : option ServiceStatus;
  Action : string;
}.

(** The table [services] maps a service id to a status pointer that is
    never nil; a read of a missing id gives the nil pointer, [None]. *)

(** One round of the watcher goroutine on a notification [(resAction,
    key, value)]: the new table and the update sent, if any. *)
Definition watchStep (watchNamespace : string)
    (services : gmap string ServiceStatus)
    (res : string * string * string)
    : gmap string ServiceStatus * option ServiceStatusUpdate :=
  let '(resAction, key, value) := res in
  let '(serviceID, parsed) := parseNode key value in
  let exists_ := bool_decide (is_Some (services !! serviceID)) in
  let '(services, serviceStatus, action) :=
    if String.eqb resAction "expire" then
      if exists_ then
        let services := delete serviceID services in
        (services, services !! serviceID, "removed")
      else (services, Some parsed, "")
    else if String.eqb resAction "set" || String.eqb resAction "update" then
      (<[serviceID := parsed]> services, Some parsed,
       if exists_ then "updated" else "added")
    else (services, Some parsed, "") in
  if String.eqb action "" then (services, None)
  else (services, Some (mkUpdate watchNamespace serviceID serviceStatus action)).

(** The rounds of the goroutine on a list of notifications. *)
Fixpoint watchRun (watchNamespace : string)
    (services : gmap string ServiceStatus)
    (events : list (string * string * string))
    : gmap string ServiceStatus * list ServiceStatusUpdate :=
  match events with
  | [] => (services, [])
  | res :: rest =>
      let '(services, update) := watchStep watchNamespace services res in
      let '(services', updates) := watchRun watchNamespace services rest in
      (services', match update with Some u => u :: updates | None => updates end)
  end.

End Watcher.

Arguments mkUpdate {ServiceStatus}.
Arguments ServiceType {ServiceStatus}.
Arguments ServiceID {ServiceStatus}.
Arguments Status {ServiceStatus}.
Arguments Action {ServiceStatus}.
Arguments watchStep {ServiceStatus}.
Arguments watchRun {ServiceStatus}.
Arguments parseNode {ServiceStatus}.

End Service.

(** * Vocabulary of the properties *)

Section Vocabulary.
Context `{Externals}.

(** The previous height recorded for a chain code; a missing entry reads
    as 0. *)
Definition prevHeight (prev : gmap string Z) (code : string) : Z :=
  default 0 (prev !! code).

Definition mainCode (j : Job) : string :=
  ChainConfig.Code (MainChainJob.currencyConfig (main j)).

Definition auxCode (aux : AuxChainJob.t) : string :=
  ChainConfig.Code (AuxChainJob.currencyConfig aux).

(** The job's [heights] map records the height of each of its chains. *)
Definition heightsRecorded (j : Job) : Prop :=
  heights j !! mainCode j = Some (MainChainJob.height (main j))
  /\ Forall (fun aux => heights j !! auxCode aux = Some (AuxChainJob.height aux))
            (auxChains j).

(** Two submissions have fields of the same widths. *)
Definition sameWidthsE (a b : ExtranonceSolve.t) : Prop :=
  length (ExtranonceSolve.nonce a) = length (ExtranonceSolve.nonce b)
  /\ length (ExtranonceSolve.nTime a) = length (ExtranonceSolve.nTime b)
  /\ length (ExtranonceSolve.extraNonce1 a) = length (ExtranonceSolve.extraNonce1 b)
  /\ length (ExtranonceSolve.extraNonce2 a) = length (ExtranonceSolve.extraNonce2 b).

Definition sameWidthsS (a b : SolutionSolve.t) : Prop :=
  length (SolutionSolve.nonce1 a) = length (SolutionSolve.nonce1 b)
  /\ length (SolutionSolve.nonce2 a) = length (SolutionSolve.nonce2 b)
  /\ length (SolutionSolve.nTime a) = length (SolutionSolve.nTime b)
  /\ length (SolutionSolve.solution a) = length (SolutionSolve.solution b).

(** The root as the data model describes it: the coinbase hash is hashed
    against each branch element, left to right. *)
Definition merkleRootFrom (coinbaseHash : bytes) (branch : list bytes) : bytes :=
  fold_left (fun r b => SHA256.sha256d (r ++ b)) branch coinbaseHash.

(** The coinbase with the 8-byte zero placeholder. *)
Definition zcashCoinbase (j : Job) : bytes :=
  MainChainJob.coinbase1 (main j) ++ zeros 8 ++ MainChainJob.coinbase2 (main j).

(** The third element of the parameters. *)
Definition zcashRootParam (j : Job) : option param :=
  match GetZCashStratumParams j with
  | Ok params => params !! 2%nat
  | Err _ => None
  end.

(** Bits [[shift, shift+width)] of a word. *)
Definition bitsAt (v shift width : Z) : Z := Z.shiftr v shift mod 2 ^ width.

(** The rewrite as the construction steps describe it: the mask of the
    algo bits is [(1 << width) - 1], shifted into place. *)
Definition setAlgoVersion_described (version : Z) (config : ChainConfig.t)
    (algo : Algo.t) : Z :=
  if ChainConfig.MultiAlgo config then
    let algoCode := default 0 (ChainConfig.MultiAlgoMap config !! Algo.Name algo) in
    let version :=
      Z.land version
        (not32 (uint32 (Z.shiftl (Z.shiftl 1 (ChainConfig.MultiAlgoBitWidth config) - 1)
                                 (ChainConfig.MultiAlgoBitShift config)))) in
    Z.lor version (uint32 (Z.shiftl algoCode (ChainConfig.MultiAlgoBitShift config)))
  else version.

(** The slot value of a chain id as the packer is specified, with the
    nonce 0, in one reduction modulo [2^32]. *)
Definition slotFormula (chainID : Z) : Z :=
  ((((0 * 1103515245 + 12345) + chainID) * 1103515245 + 12345)) mod 2 ^ 32.

(** The slot of an aux chain in a table of [merkleSize] entries. *)
Definition slotIndex (merkleSize : Z) (mj : AuxChainJob.t) : Z :=
  slotFormula (AuxChainJob.chainID mj) mod merkleSize.

(** The table with every aux chain's header hash at its slot. *)
Definition placed (merkleSize : Z) (auxs : list AuxChainJob.t)
    (merkleBase : gmap Z bytes) : gmap Z bytes :=
  foldl (fun base mj => <[slotIndex merkleSize mj := AuxChainJob.headerHash mj]> base)
        merkleBase auxs.

(** The aux chains fit a table: their slots are pairwise distinct and
    free. *)
Definition fits (merkleSize : Z) (auxs : list AuxChainJob.t)
    (merkleBase : gmap Z bytes) : Prop :=
  NoDup (slotIndex merkleSize <$> auxs)
  /\ Forall (fun mj => merkleBase !! slotIndex merkleSize mj = None) auxs.

(** The slots are pairwise distinct in a table of [2^k] entries. *)
Definition distinctAt (k : nat) (auxs : list AuxChainJob.t) : Prop :=
  NoDup (slotIndex (2 ^ Z.of_nat k) <$> auxs).

(** What the packer reads of an aux chain. *)
Definition packKey (mj : AuxChainJob.t) : Z * bytes :=
  (AuxChainJob.chainID mj, AuxChainJob.headerHash mj).

#[global] Instance fits_dec merkleSize auxs merkleBase :
  Decision (fits merkleSize auxs merkleBase).
Proof. unfold fits. apply _. Defined.

#[global] Instance distinctAt_dec k auxs : Decision (distinctAt k auxs).
Proof. unfold distinctAt. apply _. Defined.

(** The chain ids are pairwise distinct modulo [2^k]. *)
Definition idsDistinct (k : nat) (auxs : list AuxChainJob.t) : Prop :=
  NoDup ((fun mj => AuxChainJob.chainID mj mod 2 ^ Z.of_nat k) <$> auxs).

(** The chains of a job with their network targets, the main chain
    first. *)
Definition chainTargets (j : Job) : list (string * Z) :=
  (mainCode j, MainChainJob.target (main j))
  :: ((fun mj => (auxCode mj, AuxChainJob.target mj)) <$> auxChains j).

(** The header a submission is checked on. *)
Definition solveHeader (j : Job) (sd : solveData) : option bytes :=
  match sd with
  | SDExtranonce v =>
      let coinbase :=
        MainChainJob.coinbase1 (main j) ++ ExtranonceSolve.extraNonce1 v
        ++ ExtranonceSolve.extraNonce2 v ++ MainChainJob.coinbase2 (main j) in
      Some (GetBlockHeader (main j) (ExtranonceSolve.nonce v) (SHA256.sha256d coinbase))
  | SDSolution v =>
      Some (MainChainJob.version (main j) ++ MainChainJob.prevBlockHash (main j)
            ++ merkleRootFrom (SHA256.sha256d (zcashCoinbase j))
                              (MainChainJob.merkleBranch (main j))
            ++ zeros 32 ++ SolutionSolve.nTime v ++ MainChainJob.bits (main j)
            ++ SolutionSolve.nonce1 v ++ SolutionSolve.nonce2 v
            ++ SolutionSolve.solution v)
  | SDOther => None
  end.

(** The algorithm whose hash is compared: the job's, or sha256d for a
    [SolutionSolve]. *)
Definition solveAlgo (j : Job) (sd : solveData) : Algo.t :=
  match sd with
  | SDExtranonce _ => algo j
  | _ => sha256dAlgo
  end.

(** The PoW value of a submission: the hash of its header, as an
    integer. *)
Definition powInt (j : Job) (sd : solveData) : result Z :=
  match solveHeader j sd with
  | None => Err (New "Unrecognized solve data")
  | Some header =>
      headerHsh ← Algo.PoWHash (solveAlgo j sd) header;
      hashObj ← NewHash headerHsh;
      Ok (HashToBig hashObj)
  end.

Definition isMain (entry : TemplateKey * bytes) : Prop :=
  TemplateType entry.1 = "getblocktemplate".

Definition isAux (entry : TemplateKey * bytes) : Prop :=
  TemplateType entry.1 = "getblocktemplate_aux".

#[global] Instance isMain_dec entry : Decision (isMain entry).
Proof. unfold isMain. apply _. Defined.

(** The number of "getblocktemplate" entries. *)
Definition mainCount (templates : list (TemplateKey * bytes)) : nat :=
  length (filter isMain templates).

(** An entry the template loop stops at, whatever came before it. *)
Definition rejected (entry : TemplateKey * bytes) : Prop :=
  (~ isMain entry /\ ~ isAux entry)
  \/ CurrencyConfig !! Currency entry.1 = None
  \/ (isAux entry /\ exists tmpl,
        Unmarshal entry.2 = Ok tmpl /\ BlockTemplate.ChainID tmpl = 0).

(** The chain codes gathered so far, the main chain first. *)
Definition builderCodes (job : builder) : list string :=
  match bMain job with
  | Some (mainChainJob, _) => [ChainConfig.Code (MainChainJob.currencyConfig mainChainJob)]
  | None => []
  end ++ (auxCode <$> bAuxChains job).

(** [job.heights] records the height of every chain gathered so far. *)
Definition builderRecorded (job : builder) : Prop :=
  (forall mainChainJob tmpl,
      bMain job = Some (mainChainJob, tmpl) ->
      bHeights job !! ChainConfig.Code (MainChainJob.currencyConfig mainChainJob)
      = Some (MainChainJob.height mainChainJob))
  /\ Forall (fun aux => bHeights job !! auxCode aux = Some (AuxChainJob.height aux))
            (bAuxChains job).

End Vocabulary.

(** * Vocabulary of the further properties *)

Section Vocabulary2.
Context `{Externals}.

(** A byte string of byte values. *)
Definition wfBytes (bs : bytes) : Prop := Forall (fun b => 0 <= b < 256) bs.

(** The hex fields of a template decode. *)
Definition templateDecodes (tmpl : BlockTemplate.t) : Prop :=
  is_Some (DecodeString (BlockTemplate.PreviousBlockhash tmpl))
  /\ is_Some (DecodeString (BlockTemplate.Bits tmpl))
  /\ Forall (fun tx => is_Some (DecodeString tx)) (BlockTemplate.Transactions tmpl).

(** The 32-bit word whose little-endian bytes are [bs]. *)
Definition le32 (bs : bytes) : Z := be_combine (rev bs).

(** The version word [NewAuxChainJob] computes before the multi-algo
    rewrite. *)
Definition auxVersion (tmpl : BlockTemplate.t) : Z :=
  Z.lor (Z.lor (uint32 (BlockTemplate.Version tmpl)) (Z.shiftl 1 8))
        (uint32 (Z.shiftl (uint32 (BlockTemplate.ChainID tmpl)) 16)).

(** The header fields of a main chain job have the widths of a block
    header. *)
Definition headerWidths (j : MainChainJob.t) : Prop :=
  length (MainChainJob.version j) = 4%nat
  /\ length (MainChainJob.prevBlockHash j) = 32%nat
  /\ length (MainChainJob.time j) = 4%nat
  /\ length (MainChainJob.bits j) = 4%nat.

(** The strings among the parameters of [GetStratumParams], decoded. *)
Definition decodeNotify (p : notifyParam) : option (list bytes) :=
  match p with
  | NString s => bs ← DecodeString s; Some [bs]
  | NStrings l => mapM DecodeString l
  | NBool _ => None
  end.

(** The coinbase a submission is checked on. *)
Definition solveCoinbase (j : Job) (sd : solveData) : bytes :=
  match sd with
  | SDExtranonce v =>
      MainChainJob.coinbase1 (main j) ++ ExtranonceSolve.extraNonce1 v
      ++ ExtranonceSolve.extraNonce2 v ++ MainChainJob.coinbase2 (main j)
  | _ => zcashCoinbase j
  end.

(** All chain codes of a job, the main chain first. *)
Definition chainCodes (j : Job) : list string :=
  mainCode j :: (auxCode <$> auxChains j).

(** The chain code under which a template entry is recorded in
    [job.heights]: the code of the configuration of its currency. *)
Definition templateCode (entry : TemplateKey * bytes) : option string :=
  ChainConfig.Code <$> (CurrencyConfig !! Currency entry.1).

(** Two states of the template loop that differ only in the order of the
    aux chains; [withHeights] says whether [job.heights] is compared. *)
Definition sameChains (withHeights : Prop) (job job' : builder) : Prop :=
  bMain job = bMain job'
  /\ bAuxChains job ≡ₚ bAuxChains job'
  /\ (withHeights -> bHeights job = bHeights job').

End Vocabulary2.

(** [c] occurs in [s]. *)
Fixpoint hasByte (c : ascii) (s : string) : bool :=
  match s with
  | EmptyString => false
  | String a rest => Ascii.eqb a c || hasByte c rest
  end.

(** A listener's copy of the watcher's table, brought up to date with one
    update: "added" stores the status of an id the copy lacks, "updated"
    replaces the status of an id it has, "removed" deletes an id it has
    and comes with a nil status.  [None] when the update does not fit the
    copy. *)
Definition replay {ServiceStatus : Type}
    (copy : option (gmap string ServiceStatus))
    (u : Service.ServiceStatusUpdate ServiceStatus)
    : option (gmap string ServiceStatus) :=
  services ← copy;
  let present := bool_decide (is_Some (services !! Service.ServiceID u)) in
  match Service.Status u with
  | Some status =>
      if (String.eqb (Service.Action u) "added" && negb present)
         || (String.eqb (Service.Action u) "updated" && present)
      then Some (<[Service.ServiceID u := status]> services)
      else None
  | None =>
      if String.eqb (Service.Action u) "removed" && present
      then Some (delete (Service.ServiceID u) services)
      else None
  end.

(** * Example jobs *)

(** The job of the flush examples: main chain BTC at height 100, one aux
    chain NMC at height 5 that asks for a flush. *)
Definition cfgBTC : ChainConfig.t :=
  ChainConfig.mk "BTC" false false ∅ 0 0 "1BitcoinSubsidyAddress".
Definition cfgNMC : ChainConfig.t :=
  ChainConfig.mk "NMC" true false ∅ 0 0 "NNamecoinSubsidyAddress".
Definition mainBTC : MainChainJob.t :=
  MainChainJob.mk cfgBTC 5000000000 100 [0xff; 0xff; 0; 0x1d] [0x29; 0xab; 0x5f; 0x49]
    [1; 0; 0; 0] (repeat 0 32) [1; 2; 3] [4; 5; 6] [] (2 ^ 224) [] false.
Definition auxNMC : AuxChainJob.t :=
  AuxChainJob.mk cfgNMC 50 5 (repeat 7 32) (repeat 1 80) 1 [] 0 [] [9] (repeat 2 32)
    (2 ^ 230).
Definition algoSha : Algo.t := Algo.mk "sha256d" (fun header => Ok (SHA256.sha256d header)).
Definition jobBTC : Job :=
  mkJob mainBTC {[ "BTC" := 100; "NMC" := 5 ]} [auxNMC] algoSha.

(** A job with one transaction beside the coinbase. *)
Definition jobZEC : Job :=
  mkJob (MainChainJob.mk cfgBTC 1250000000 200 [0xff; 0xff; 0; 0x1d]
           [0x29; 0xab; 0x5f; 0x49] [4; 0; 0; 0] (repeat 0 32) [1; 2; 3] [4; 5; 6]
           [repeat 0xab 32] (2 ^ 224) [] true)
        {[ "BTC" := 200 ]} [] algoSha.

Definition cfgWidth4 : ChainConfig.t :=
  ChainConfig.mk "DGB" false true {[ "sha256d" := 1; "scrypt" := 2 ]} 4 8 "DSubsidyAddress".
Definition cfgWidth2 : ChainConfig.t :=
  ChainConfig.mk "XMY" false true {[ "sha256d" := 1; "scrypt" := 2 ]} 2 8 "MSubsidyAddress".

Definition auxChain (cfg : ChainConfig.t) (chainID height target : Z) (headerHash : bytes)
    : AuxChainJob.t :=
  AuxChainJob.mk cfg 50 height headerHash (repeat 1 80) chainID [] 0 [] [9] (repeat 2 32)
    target.
Definition cfgDOGE : ChainConfig.t :=
  ChainConfig.mk "DOGE" false false ∅ 0 0 "DDogecoinSubsidyAddress".

(** Collaborators for the examples.  A raw template is three bytes,
    [version; height; chain id]; the coinbase builders put the blob after
    a fixed prefix; the merkle helpers are stand-ins. *)
Definition demoUnmarshal (raw : bytes) : result BlockTemplate.t :=
  match raw with
  | [version; height; chainID] =>
      Ok (BlockTemplate.mk version 1231006505
            "000000000019d6689c085ae165831e934ff763ae46a2a6c172b3f1b60a8ce26f"
            "1d00ffff" height 5000000000 ["01000000"] chainID)
  | _ => Err (New "unexpected end of JSON input")
  end.

Definition exampleExternals : Externals :=
  {| Unmarshal := demoUnmarshal;
     CurrencyConfig := {[ "BTC" := cfgBTC; "NMC" := cfgNMC; "DOGE" := cfgDOGE ]};
     sha256dAlgo := algoSha;
     getTarget := fun _ => Ok (0xffff * 2 ^ 208);
     tmplMerkleBranch := fun _ => [];
     tmplMerkleRoot := fun _ coinbaseHash => coinbaseHash;
     createCoinbase := fun _ _ blob => Ok ([1; 0; 0; 0] ++ blob ++ [0xff; 0xff]);
     createCoinbaseSplit := fun _ _ blob => Ok ([1; 0; 0; 0] ++ blob, [0xff; 0xff]);
     merkleRoot := fun base => SHA256.sha256d (concat (default (repeat 0 32) <$> base));
     auxMerkleBranch := fun _ _ => ([], 0) |}.

(** Scenario 2 of the specification: aux chains with ids 1 and 42. *)
Definition auxID1 : AuxChainJob.t := auxChain cfgNMC 1 5 (2 ^ 230) (repeat 0x11 32).
Definition auxID42 : AuxChainJob.t := auxChain cfgDOGE 42 7 (2 ^ 231) (repeat 0x42 32).

(** A job whose aux chain accepts every hash and whose main chain accepts
    none. *)
Definition mainBTC0 : MainChainJob.t :=
  MainChainJob.mk cfgBTC 5000000000 100 [0xff; 0xff; 0; 0x1d] [0x29; 0xab; 0x5f; 0x49]
    [1; 0; 0; 0] (repeat 0 32) [1; 2; 3] [4; 5; 6] [] 0 [] true.
Definition jobAuxOnly : Job :=
  mkJob mainBTC0 {[ "BTC" := 100; "NMC" := 5 ]}
        [auxChain cfgNMC 1 5 (2 ^ 256) (repeat 0x11 32)] algoSha.
Definition solveE : solveData :=
  SDExtranonce (ExtranonceSolve.mk [0; 0; 0; 42] [0x29; 0xab; 0x5f; 0x49]
                  [0; 0; 0; 7] [0xaa; 0; 0; 1]).

(** The templates of scenario 2: a main chain and aux chains with the
    ids 1 and 42. *)
Definition templatesMerged : list (TemplateKey * bytes) :=
  [ (mkTemplateKey "BTC" "getblocktemplate", [1; 100; 0]);
    (mkTemplateKey "NMC" "getblocktemplate_aux", [1; 5; 1]);
    (mkTemplateKey "DOGE" "getblocktemplate_aux", [1; 7; 42]) ].

(** The aux template of the examples, as [demoUnmarshal] reads it from
    [[1; 5; 1]]. *)
Definition tmplNMC : BlockTemplate.t :=
  BlockTemplate.mk 1 1231006505
    "000000000019d6689c085ae165831e934ff763ae46a2a6c172b3f1b60a8ce26f"
    "1d00ffff" 5 5000000000 ["01000000"] 1.

(** * Properties *)

(** ** Flush evaluation *)

Lemma auxAdvanced_true prev auxs :
  auxAdvanced prev auxs = true <->
  Exists (fun aux => ChainConfig.FlushAux (AuxChainJob.currencyConfig aux) = true
                     /\ prevHeight prev (auxCode aux) < AuxChainJob.height aux) auxs.
Proof.
  induction auxs as [|aux rest IH]; simpl.
  - split; [discriminate | intros Hex; inversion Hex].
  - rewrite Exists_cons, <- IH. unfold prevHeight, auxCode.
    destruct (ChainConfig.FlushAux (AuxChainJob.currencyConfig aux)); simpl.
    + destruct (Z.ltb_spec
                  (default 0 (prev !! ChainConfig.Code (AuxChainJob.currencyConfig aux)))
                  (AuxChainJob.height aux)).
      * split; auto.
      * split; [auto | intros [[_ Hlt] | Hrest]; [lia | exact Hrest]].
    + split; [auto | intros [[Hf _] | Hrest]; [discriminate | exact Hrest]].
Qed.

Lemma auxAdvanced_own_heights (hs : gmap string Z) auxs :
  Forall (fun aux => hs !! auxCode aux = Some (AuxChainJob.height aux)) auxs ->
  auxAdvanced hs auxs = false.
Proof.
  induction 1 as [|aux rest Haux _ IH]; simpl; [reflexivity|].
  unfold auxCode in Haux. rewrite Haux. simpl.
  rewrite Z.ltb_irrefl, andb_false_r. exact IH.
Qed.

(** C3, as stated, fails: the aux chain went backward (height 5 against a
    previous 10) and the job is not dropped. *)
Lemma SetFlush_aux_backward_not_dropped :
  let prev : gmap string Z := {[ "BTC" := 100; "NMC" := 10 ]} in
  AuxChainJob.height auxNMC < prevHeight prev (auxCode auxNMC)
  /\ SetFlush jobBTC (IHeights prev) = (jobBTC, false, IHeights (heights jobBTC)).
Proof. split; [vm_compute; reflexivity | reflexivity]. Qed.

(** When the main height advanced, the second result is the height
    itself, not the heights map; passed to the next call it matches no
    case of the type switch, and that call returns the heights map. *)
Lemma SetFlush_main_advanced_returns_height :
  SetFlush jobBTC (IHeights {[ "BTC" := 99; "NMC" := 5 ]})
  = (set_cleanJobs true jobBTC, false, IInt64 100)
  /\ SetFlush jobBTC (IInt64 100) = (jobBTC, false, IHeights (heights jobBTC)).
Proof. split; reflexivity. Qed.

(** C3 (amended): only the main chain decides a drop.  If the main
    chain's height is below its previous entry, [SetFlush] returns [drop =
    true]; if it equals the entry, [SetFlush] returns [drop = false] with
    the job's heights map and sets [cleanJobs] exactly when an aux chain
    with [FlushAux] lies above its previous entry; if it is above the
    entry, [SetFlush] returns [drop = false] and sets [cleanJobs]. *)
Theorem SetFlush_by_main_height (j : Job) (prev : gmap string Z) :
  let h := MainChainJob.height (main j) in
  let p := prevHeight prev (mainCode j) in
  (h < p -> SetFlush j (IHeights prev) = (j, true, INil))
  /\ (h = p ->
      SetFlush j (IHeights prev)
      = (if auxAdvanced prev (auxChains j) then set_cleanJobs true j else j,
         false, IHeights (heights j))
      /\ (auxAdvanced prev (auxChains j) = true <->
          Exists (fun aux => ChainConfig.FlushAux (AuxChainJob.currencyConfig aux) = true
                             /\ prevHeight prev (auxCode aux) < AuxChainJob.height aux)
                 (auxChains j)))
  /\ (p < h ->
      (SetFlush j (IHeights prev)).1.1 = set_cleanJobs true j
      /\ (SetFlush j (IHeights prev)).1.2 = false).
Proof.
  intros h p. subst h p. unfold SetFlush, prevHeight, mainCode.
  set (p := default 0 (prev !! _)). set (h := MainChainJob.height (main j)).
  repeat split.
  - intros Hlt. destruct (Z.ltb_spec p h); [lia|].
    destruct (Z.ltb_spec h p); [reflexivity | lia].
  - destruct (Z.ltb_spec p h); [lia|]. destruct (Z.ltb_spec h p); [lia|].
    destruct (auxAdvanced prev (auxChains j)); reflexivity.
  - apply auxAdvanced_true.
  - apply auxAdvanced_true.
  - destruct (Z.ltb_spec p h); [reflexivity | lia].
  - destruct (Z.ltb_spec p h); [reflexivity | lia].
Qed.

(** C9: [SetFlush] with the job's own heights map returns [drop = false]
    and that same map, and leaves the job, [cleanJobs] included, as it
    was. *)
Theorem SetFlush_own_heights (j : Job) :
  heightsRecorded j ->
  SetFlush j (IHeights (heights j)) = (j, false, IHeights (heights j)).
Proof.
  intros [Hmain Haux]. unfold SetFlush. unfold mainCode in Hmain.
  rewrite Hmain. simpl. rewrite Z.ltb_irrefl.
  rewrite (auxAdvanced_own_heights _ _ Haux). reflexivity.
Qed.

Lemma SetFlush_own_heights_witness :
  heightsRecorded jobBTC
  /\ SetFlush jobBTC (IHeights (heights jobBTC))
     = (jobBTC, false, IHeights (heights jobBTC)).
Proof.
  assert (Hrec : heightsRecorded jobBTC).
  { split; [reflexivity | repeat constructor]. }
  split; [exact Hrec | exact (SetFlush_own_heights jobBTC Hrec)].
Defined.

Lemma SetFlush_by_main_height_witness :
  SetFlush jobBTC (IHeights {[ "BTC" := 101 ]}) = (jobBTC, true, INil)
  /\ SetFlush jobBTC (IHeights {[ "BTC" := 100; "NMC" := 4 ]})
     = (set_cleanJobs true jobBTC, false, IHeights (heights jobBTC))
  /\ (SetFlush jobBTC (IHeights {[ "BTC" := 99 ]})).1.2 = false.
Proof.
  split; [|split].
  - apply (proj1 (SetFlush_by_main_height jobBTC {[ "BTC" := 101 ]})).
    vm_compute. reflexivity.
  - refine (proj1 (proj1 (proj2
      (SetFlush_by_main_height jobBTC {[ "BTC" := 100; "NMC" := 4 ]})) _)).
    vm_compute. reflexivity.
  - refine (proj2 (proj2 (proj2 (SetFlush_by_main_height jobBTC {[ "BTC" := 99 ]})) _)).
    vm_compute. reflexivity.
Defined.

(** ** Duplicate-share keys *)

(** At fixed widths the key of an [ExtranonceSolve] determines all four
    fields. *)
Lemma ExtranonceSolve_GetKey_inj (a b : ExtranonceSolve.t) :
  sameWidthsE a b ->
  ExtranonceSolve_GetKey a = ExtranonceSolve_GetKey b ->
  a = b.
Proof.
  destruct a as [n t e2 e1], b as [n' t' e2' e1'].
  unfold sameWidthsE, ExtranonceSolve_GetKey. simpl.
  intros (Hn & Ht & He1 & He2) Hkey.
  apply app_inj_1 in Hkey as [-> Hkey]; [|exact He2].
  apply app_inj_1 in Hkey as [-> Hkey]; [|exact He1].
  apply app_inj_1 in Hkey as [-> ->]; [|exact Ht].
  reflexivity.
Qed.

(** At fixed widths the key of a [SolutionSolve] determines [nonce2],
    [solution] and [nTime]. *)
Lemma SolutionSolve_GetKey_inj (a b : SolutionSolve.t) :
  sameWidthsS a b ->
  SolutionSolve_GetKey a = SolutionSolve_GetKey b ->
  SolutionSolve.nonce2 a = SolutionSolve.nonce2 b
  /\ SolutionSolve.solution a = SolutionSolve.solution b
  /\ SolutionSolve.nTime a = SolutionSolve.nTime b.
Proof.
  unfold sameWidthsS, SolutionSolve_GetKey.
  intros (_ & Hn2 & _ & Hs) Hkey.
  apply app_inj_1 in Hkey as [Hn Hkey]; [|exact Hn2].
  apply app_inj_1 in Hkey as [Hsol Ht]; [|exact Hs].
  auto.
Qed.

(** C8, on the code: the key of a [SolutionSolve] does not contain
    [nonce1].  Two submissions of the same widths that differ in [nonce1]
    only have the same key. *)
Theorem SolutionSolve_GetKey_ignores_nonce1 :
  (forall nonce2 nTime nonce1 nonce1' solution,
      SolutionSolve_GetKey (SolutionSolve.mk nonce2 nTime nonce1 solution)
      = SolutionSolve_GetKey (SolutionSolve.mk nonce2 nTime nonce1' solution))
  /\ let a := SolutionSolve.mk [0; 0; 0; 1] [0x29; 0xab; 0x5f; 0x49] [0xaa; 0; 0; 1] [7; 7] in
     let b := SolutionSolve.mk [0; 0; 0; 1] [0x29; 0xab; 0x5f; 0x49] [0xaa; 0; 0; 2] [7; 7] in
     a <> b /\ sameWidthsS a b
     /\ SolutionSolve_GetKey a = SolutionSolve_GetKey b.
Proof.
  split; [reflexivity|].
  split; [discriminate|]. split; [repeat split | reflexivity].
Qed.

(** ** The merkle root of the ZCash stratum parameters *)

(** On an empty hasher the walk computes the root. *)
Lemma walkBranch_fresh rootHash branches :
  walkBranch Hasher.new rootHash branches = (Hasher.new, merkleRootFrom rootHash branches).
Proof.
  revert rootHash. induction branches as [|b bs IH]; intros r; simpl; [reflexivity|].
  unfold Hasher.reset, Hasher.write, Hasher.sum. simpl.
  rewrite <- IH. reflexivity.
Qed.

(** On a hasher that still holds [written], the first step digests
    [written] as well. *)
Lemma walkBranch_stale written rootHash b bs :
  walkBranch written rootHash (b :: bs)
  = (Hasher.new, merkleRootFrom (SHA256.sha256d (written ++ rootHash ++ b)) bs).
Proof.
  simpl. unfold Hasher.reset, Hasher.write, Hasher.sum.
  rewrite <- walkBranch_fresh, <- app_assoc. reflexivity.
Qed.

(** [GetBlockHeader] starts from a new hasher and carries the root of the
    data model. *)
Lemma GetBlockHeader_root (j : MainChainJob.t) nonce coinbaseHash :
  GetBlockHeader j nonce coinbaseHash
  = MainChainJob.version j ++ MainChainJob.prevBlockHash j
    ++ merkleRootFrom coinbaseHash (MainChainJob.merkleBranch j)
    ++ MainChainJob.time j ++ MainChainJob.bits j ++ nonce.
Proof.
  unfold GetBlockHeader. rewrite walkBranch_fresh. simpl.
  rewrite <- !app_assoc. reflexivity.
Qed.

(** With an empty merkle branch the third parameter is the hex of the
    coinbase hash. *)
Lemma GetZCashStratumParams_no_branch (j : Job) :
  MainChainJob.merkleBranch (main j) = [] ->
  zcashRootParam j
  = Some (PString (EncodeToString
            (merkleRootFrom (SHA256.sha256d (zcashCoinbase j))
                            (MainChainJob.merkleBranch (main j))))).
Proof.
  intros Hb. unfold zcashRootParam, GetZCashStratumParams, zcashCoinbase.
  rewrite Hb. simpl. unfold Hasher.sum, Hasher.write, Hasher.new. simpl.
  rewrite <- app_assoc. reflexivity.
Qed.

(** C4, on the code: the hasher is not reset after the coinbase hash, so
    with a non-empty merkle branch the first step digests the coinbase
    bytes again, [r1 = sha256d(coinbase ++ r0 ++ b0)], and the parameter
    is not the hex of the merkle root. *)
Theorem GetZCashStratumParams_root_on_stale_hasher :
  (forall j b bs,
      MainChainJob.merkleBranch (main j) = b :: bs ->
      let r0 := SHA256.sha256d (zcashCoinbase j) in
      zcashRootParam j
      = Some (PString (EncodeToString
                (merkleRootFrom (SHA256.sha256d (zcashCoinbase j ++ r0 ++ b)) bs))))
  /\ zcashRootParam jobZEC
     = Some (PString "eb112e8636609696cf78e5330df93492c627e09460d87131176b49f1ba795bf6")
  /\ EncodeToString
       (merkleRootFrom (SHA256.sha256d (zcashCoinbase jobZEC))
                       (MainChainJob.merkleBranch (main jobZEC)))
     = "e26dbe6d81bbec131e69a401e91daf0c2b145cdf43c79f00de94b54dab41d4eb".
Proof.
  split; [|split].
  - intros j b bs Hb r0. subst r0.
    unfold zcashRootParam, GetZCashStratumParams.
    rewrite Hb, walkBranch_stale. simpl.
    unfold zcashCoinbase, Hasher.sum, Hasher.write, Hasher.new. simpl.
    rewrite <- !app_assoc. reflexivity.
  - vm_compute. reflexivity.
  - vm_compute. reflexivity.
Qed.

(** ** The multi-algo version bits *)

(** C2, on the code: [2 ^ width] is an exclusive or in Go, so the mask is
    [((2 xor width) - 1) << shift] and not the [width] algo bits.  With
    width 4 and shift 8 only bits 8 and 10 are cleared and the algo bits
    of the result are 11, not the code 1; with width 2 the mask is all
    ones from bit 8 up and the bits above the algo bits are lost. *)
Theorem setAlgoVersion_mask_is_xor :
  setAlgoVersion 0x20000e00 cfgWidth4 algoSha = 0x20000b00
  /\ bitsAt (setAlgoVersion 0x20000e00 cfgWidth4 algoSha) 8 4 = 11
  /\ default 0 (ChainConfig.MultiAlgoMap cfgWidth4 !! Algo.Name algoSha) = 1
  /\ setAlgoVersion 0x20000002 cfgWidth2 algoSha = 0x00000102
  /\ Z.testbit 0x20000002 29 = true
  /\ Z.testbit (setAlgoVersion 0x20000002 cfgWidth2 algoSha) 29 = false
  /\ setAlgoVersion_described 0x20000e00 cfgWidth4 algoSha = 0x20000100
  /\ setAlgoVersion_described 0x20000002 cfgWidth2 algoSha = 0x20000102.
Proof. repeat split; vm_compute; reflexivity. Qed.

Lemma testbit_uint32 x i : 0 <= i -> Z.testbit (uint32 x) i = (i <? 32) && Z.testbit x i.
Proof. intros Hi. unfold uint32. apply Z.testbit_mod_pow2. lia. Qed.

Lemma testbit_not32 x i : 0 <= i -> Z.testbit (not32 x) i = xorb (Z.testbit x i) (i <? 32).
Proof.
  intros Hi. unfold not32. change 0xffffffff with (Z.ones 32).
  rewrite Z.lxor_spec, Z.testbit_ones_nonneg by lia. reflexivity.
Qed.

Lemma testbit_small x n i : 0 <= x < 2 ^ n -> 0 <= n <= i -> Z.testbit x i = false.
Proof.
  intros Hx Hi. rewrite <- (Z.mod_small x (2 ^ n)) by lia.
  apply Z.mod_pow2_bits_high. lia.
Qed.

(** The rewrite with the mask [(1 << width) - 1] does what C2 states. *)
Lemma setAlgoVersion_described_bits (version : Z) (config : ChainConfig.t) (algo : Algo.t) :
  let shift := ChainConfig.MultiAlgoBitShift config in
  let width := ChainConfig.MultiAlgoBitWidth config in
  let code := default 0 (ChainConfig.MultiAlgoMap config !! Algo.Name algo) in
  ChainConfig.MultiAlgo config = true ->
  0 <= shift -> 0 <= width -> shift + width <= 32 ->
  0 <= version < 2 ^ 32 -> 0 <= code < 2 ^ width ->
  bitsAt (setAlgoVersion_described version config algo) shift width = code
  /\ forall i, 0 <= i -> ~ (shift <= i < shift + width) ->
       Z.testbit (setAlgoVersion_described version config algo) i = Z.testbit version i.
Proof.
  intros shift width code Hmulti Hs Hw Hsw Hv Hc.
  unfold setAlgoVersion_described. rewrite Hmulti.
  fold shift width code. rewrite Z.sub_1_r. fold (Z.ones width).
  assert (Hbit : forall i, 0 <= i ->
    Z.testbit (Z.lor (Z.land version (not32 (uint32 (Z.shiftl (Z.ones width) shift))))
                     (uint32 (Z.shiftl code shift))) i
    = if bool_decide (shift <= i < shift + width) then Z.testbit code (i - shift)
      else Z.testbit version i).
  { intros i Hi.
    rewrite Z.lor_spec, Z.land_spec, testbit_not32, !testbit_uint32 by lia.
    rewrite !Z.shiftl_spec by lia.
    case_bool_decide as Hin.
    - rewrite Z.testbit_ones_nonneg by lia.
      destruct (Z.ltb_spec i 32); [|lia].
      destruct (Z.ltb_spec (i - shift) width); [|lia].
      simpl. rewrite andb_false_r. reflexivity.
    - destruct (Z.ltb_spec i 32).
      + destruct (decide (i < shift)).
        * rewrite !(Z.testbit_neg_r _ (i - shift)) by lia. simpl.
          rewrite andb_true_r, orb_false_r. reflexivity.
        * rewrite Z.testbit_ones_nonneg by lia.
          destruct (Z.ltb_spec (i - shift) width); [lia|].
          rewrite (testbit_small code width) by lia. simpl.
          rewrite andb_true_r, orb_false_r. reflexivity.
      + simpl. rewrite (testbit_small version 32) by lia. reflexivity. }
  split.
  - unfold bitsAt. apply Z.bits_inj'. intros n Hn.
    rewrite Z.testbit_mod_pow2 by lia.
    destruct (Z.ltb_spec n width).
    + rewrite Z.shiftr_spec, Hbit by lia. rewrite bool_decide_eq_true_2 by lia.
      simpl. f_equal. lia.
    + simpl. symmetry. apply (testbit_small code width); lia.
  - intros i Hi Hout. rewrite Hbit by lia. rewrite bool_decide_eq_false_2 by exact Hout.
    reflexivity.
Qed.

(** ** The blockchain-merkle packer *)

Lemma slotOf_formula chainID : slotOf 0 chainID = slotFormula chainID.
Proof.
  unfold slotOf, slotFormula, uint32.
  rewrite <- Z.add_mod by lia.
  rewrite (Z.add_mod (_ * 1103515245) 12345) by lia.
  rewrite Z.mul_mod_idemp_l by lia.
  rewrite <- Z.add_mod by lia. reflexivity.
Qed.

Lemma fillSlots_fits merkleSize auxs merkleBase :
  uint32 merkleSize <> 0 ->
  fits (uint32 merkleSize) auxs merkleBase ->
  fillSlots 0 merkleSize auxs merkleBase
  = Filled (placed (uint32 merkleSize) auxs merkleBase).
Proof.
  intros Hm. revert merkleBase.
  induction auxs as [|mj rest IH]; intros base [Hnd Hfree]; simpl; [reflexivity|].
  apply Z.eqb_neq in Hm as Hm'. rewrite Hm'.
  rewrite slotOf_formula. fold (slotIndex (uint32 merkleSize) mj).
  inversion Hnd as [|? ? Hnotin Hnd']; subst.
  inversion Hfree as [|? ? Hhead Hfree']; subst.
  rewrite Hhead. apply IH. split; [exact Hnd'|].
  apply Forall_forall. intros mj' Hin.
  rewrite lookup_insert_ne.
  - rewrite Forall_forall in Hfree'. apply Hfree'. exact Hin.
  - intros Heq. apply Hnotin. rewrite Heq. apply list_elem_of_fmap_2. exact Hin.
Qed.

Lemma fillSlots_not_fits merkleSize auxs merkleBase :
  uint32 merkleSize <> 0 ->
  ~ fits (uint32 merkleSize) auxs merkleBase ->
  fillSlots 0 merkleSize auxs merkleBase = Collision.
Proof.
  intros Hm. revert merkleBase.
  induction auxs as [|mj rest IH]; intros base Hnot; simpl.
  - exfalso. apply Hnot. split; constructor.
  - apply Z.eqb_neq in Hm as Hm'. rewrite Hm'.
    rewrite slotOf_formula. fold (slotIndex (uint32 merkleSize) mj).
    destruct (base !! slotIndex (uint32 merkleSize) mj) eqn:Hhead; [reflexivity|].
    apply IH. intros [Hnd Hfree]. apply Hnot. split.
    + rewrite fmap_cons. constructor; [|exact Hnd].
      intros Hin. apply list_elem_of_fmap in Hin as (mj' & Heq & Hin).
      rewrite Forall_forall in Hfree. specialize (Hfree mj' Hin).
      rewrite <- Heq, lookup_insert_eq in Hfree. discriminate.
    + constructor; [exact Hhead|].
      apply Forall_forall. intros mj' Hin.
      rewrite Forall_forall in Hfree. specialize (Hfree mj' Hin).
      destruct (decide (slotIndex (uint32 merkleSize) mj = slotIndex (uint32 merkleSize) mj'))
        as [Heq|Hne].
      * rewrite Heq, lookup_insert_eq in Hfree. discriminate.
      * rewrite lookup_insert_ne in Hfree by exact Hne. exact Hfree.
Qed.

Lemma fillSlots_zero merkleSize auxs merkleBase :
  uint32 merkleSize = 0 -> auxs <> [] ->
  fillSlots 0 merkleSize auxs merkleBase = DivideByZero.
Proof.
  intros Hm Hne. destruct auxs as [|mj rest]; [congruence|].
  simpl. rewrite Hm. reflexivity.
Qed.

Lemma fits_empty (k : nat) auxs : fits (2 ^ Z.of_nat k) auxs ∅ <-> distinctAt k auxs.
Proof.
  unfold fits, distinctAt. split; [intros [Hnd _]; exact Hnd|].
  intros Hnd. split; [exact Hnd|]. apply Forall_forall. intros mj _.
  apply lookup_empty.
Qed.

Lemma pow2_bounds (k : nat) : (k <= 31)%nat -> 0 < 2 ^ Z.of_nat k <= 2 ^ 31.
Proof.
  intros Hk. split; [apply Z.pow_pos_nonneg; lia|].
  apply Z.pow_le_mono_r; lia.
Qed.

Lemma uint32_pow2 (k : nat) : (k <= 31)%nat -> uint32 (2 ^ Z.of_nat k) = 2 ^ Z.of_nat k.
Proof.
  intros Hk. unfold uint32. pose proof (pow2_bounds k Hk).
  apply Z.mod_small. lia.
Qed.

Lemma int64_double_pow2 (k : nat) :
  (k <= 31)%nat -> int64 (2 ^ Z.of_nat k * 2) = 2 ^ Z.of_nat (S k).
Proof.
  intros Hk. pose proof (pow2_bounds k Hk).
  rewrite Nat2Z.inj_succ, Z.pow_succ_r by lia.
  unfold int64. rewrite Z.mod_small by lia. lia.
Qed.

(** A round whose table the aux chains fit ends the loop. *)
Lemma merkleLoop_hit (k fuel : nat) auxs :
  (k <= 31)%nat -> distinctAt k auxs ->
  merkleLoop (S fuel) 0 (2 ^ Z.of_nat k) auxs
  = Some (Done (2 ^ Z.of_nat k, placed (2 ^ Z.of_nat k) auxs ∅)).
Proof.
  intros Hk Hd. pose proof (pow2_bounds k Hk). simpl.
  destruct (Z.ltb_spec (2 ^ Z.of_nat k) 0); [lia|].
  rewrite fillSlots_fits; rewrite uint32_pow2 by exact Hk; try lia.
  - reflexivity.
  - apply fits_empty. exact Hd.
Qed.

(** A round with a collision goes on with the table doubled. *)
Lemma merkleLoop_miss (k fuel : nat) auxs :
  (k <= 31)%nat -> ~ distinctAt k auxs ->
  merkleLoop (S fuel) 0 (2 ^ Z.of_nat k) auxs
  = merkleLoop fuel 0 (2 ^ Z.of_nat (S k)) auxs.
Proof.
  intros Hk Hd. pose proof (pow2_bounds k Hk). simpl.
  destruct (Z.ltb_spec (2 ^ Z.of_nat k) 0); [lia|].
  rewrite fillSlots_not_fits.
  - rewrite int64_double_pow2 by exact Hk. reflexivity.
  - rewrite uint32_pow2 by exact Hk. lia.
  - rewrite uint32_pow2 by exact Hk. rewrite fits_empty. exact Hd.
Qed.

Lemma merkleLoop_skip (d k fuel : nat) auxs :
  (k + d <= 32)%nat ->
  (forall i, (k <= i < k + d)%nat -> ~ distinctAt i auxs) ->
  merkleLoop (d + fuel) 0 (2 ^ Z.of_nat k) auxs
  = merkleLoop fuel 0 (2 ^ Z.of_nat (k + d)) auxs.
Proof.
  revert k. induction d as [|d IH]; intros k Hk Hnone.
  - rewrite Nat.add_0_r. reflexivity.
  - change (S d + fuel)%nat with (S (d + fuel)).
    rewrite merkleLoop_miss by (try apply Hnone; lia).
    rewrite IH; [f_equal; f_equal; lia | lia |].
    intros i Hi. apply Hnone. lia.
Qed.

(** With the table at [2^32] entries, [uint32(merkleSize)] is 0. *)
Lemma merkleLoop_end (fuel : nat) auxs :
  auxs <> [] ->
  merkleLoop (S fuel) 0 (2 ^ Z.of_nat 32) auxs = Some (Panic "integer divide by zero").
Proof.
  intros Hne. simpl merkleLoop.
  destruct (Z.ltb_spec (2 ^ Z.of_nat 32) 0) as [Hlt|_]; [vm_compute in Hlt; discriminate|].
  rewrite fillSlots_zero; [reflexivity | reflexivity | exact Hne].
Qed.

Lemma NoDup_fmap_impl {A B C : Type} (f : A -> B) (g : A -> C) (l : list A) :
  (forall x y, g x = g y -> f x = f y) ->
  NoDup (f <$> l) -> NoDup (g <$> l).
Proof.
  intros Hfg. induction l as [|a l IH]; intros Hnd; [constructor|].
  rewrite fmap_cons in Hnd. apply NoDup_cons in Hnd as [Hnotin Hnd].
  rewrite fmap_cons. apply NoDup_cons. split; [|apply IH; exact Hnd].
  intros Hin. apply Hnotin.
  apply list_elem_of_fmap in Hin as (b & Heq & Hin).
  rewrite (Hfg a b Heq). apply list_elem_of_fmap_2. exact Hin.
Qed.

Lemma mod_pow2_mod (x : Z) (k k' : nat) :
  (k <= k')%nat -> (x mod 2 ^ Z.of_nat k') mod 2 ^ Z.of_nat k = x mod 2 ^ Z.of_nat k.
Proof.
  intros Hk. apply Z.mod_mod_divide.
  exists (2 ^ (Z.of_nat k' - Z.of_nat k)).
  rewrite <- Z.pow_add_r by lia. f_equal. lia.
Qed.

(** Slots that are distinct in a table stay distinct in a larger one. *)
Lemma distinctAt_mono (k k' : nat) auxs :
  (k <= k')%nat -> distinctAt k auxs -> distinctAt k' auxs.
Proof.
  intros Hk. unfold distinctAt. apply NoDup_fmap_impl.
  intros x y Heq. unfold slotIndex in *.
  rewrite <- (mod_pow2_mod _ k k' Hk), Heq, mod_pow2_mod by exact Hk. reflexivity.
Qed.

Lemma least_nat (P : nat -> Prop) `{!forall n, Decision (P n)} (n : nat) :
  (exists k, (k <= n)%nat /\ P k /\ forall i, (i < k)%nat -> ~ P i)
  \/ (forall i, (i <= n)%nat -> ~ P i).
Proof.
  induction n as [|n [IH|IH]].
  - destruct (decide (P O)) as [H0|H0].
    + left. exists O. split; [lia|]. split; [exact H0|]. intros i Hi. lia.
    + right. intros i Hi. replace i with O by lia. exact H0.
  - left. destruct IH as (k & Hk & HP & Hmin). exists k. split; [lia|]. auto.
  - destruct (decide (P (S n))) as [HS|HS].
    + left. exists (S n). split; [lia|]. split; [exact HS|].
      intros i Hi. apply IH. lia.
    + right. intros i Hi. destruct (decide (i = S n)) as [->|Hne]; [exact HS|].
      apply IH. lia.
Qed.

(** The round that ends the loop when some table of at most [2^31]
    entries takes the aux chains: the smallest such table. *)
Lemma merkleLoop_fit (extra : nat) auxs :
  distinctAt 31 auxs ->
  exists k, (k <= 31)%nat
    /\ distinctAt k auxs
    /\ (forall i, (i < k)%nat -> ~ distinctAt i auxs)
    /\ forall fuel, (k < fuel)%nat ->
         merkleLoop fuel 0 1 auxs
         = Some (Done (2 ^ Z.of_nat k, placed (2 ^ Z.of_nat k) auxs ∅)).
Proof.
  intros H31.
  destruct (least_nat (fun k => distinctAt k auxs) 31) as [(k & Hk & Hd & Hmin)|Hnone].
  - exists k. split; [exact Hk|]. split; [exact Hd|]. split; [exact Hmin|].
    intros fuel Hfuel.
    replace fuel with (k + S (fuel - S k))%nat by lia.
    change 1 with (2 ^ Z.of_nat 0).
    rewrite merkleLoop_skip; [|lia|intros i Hi; apply Hmin; lia].
    apply merkleLoop_hit; [lia | exact Hd].
  - exfalso. apply (Hnone 31%nat); [lia | exact H31].
Qed.

(** When no table of at most [2^31] entries takes the aux chains, round
    33 divides by zero. *)
Lemma merkleLoop_no_fit auxs :
  ~ distinctAt 31 auxs ->
  (forall fuel, (fuel <= 32)%nat -> merkleLoop fuel 0 1 auxs = None)
  /\ (forall fuel, (32 < fuel)%nat ->
        merkleLoop fuel 0 1 auxs = Some (Panic "integer divide by zero")).
Proof.
  intros H31.
  assert (Hnone : forall i, (i <= 31)%nat -> ~ distinctAt i auxs).
  { intros i Hi Hd. apply H31. apply (distinctAt_mono i 31); [lia | exact Hd]. }
  assert (Hne : auxs <> []).
  { intros ->. apply H31. constructor. }
  split; intros fuel Hfuel.
  - replace fuel with (fuel + 0)%nat by lia.
    change 1 with (2 ^ Z.of_nat 0).
    rewrite merkleLoop_skip; [reflexivity | lia |].
    intros i Hi. apply Hnone. lia.
  - replace fuel with (32 + S (fuel - 33))%nat by lia.
    change 1 with (2 ^ Z.of_nat 0).
    rewrite merkleLoop_skip; [|lia|intros i Hi; apply Hnone; lia].
    apply merkleLoop_end. exact Hne.
Qed.

Lemma placed_cons merkleSize mj rest merkleBase :
  placed merkleSize (mj :: rest) merkleBase
  = placed merkleSize rest
      (<[slotIndex merkleSize mj := AuxChainJob.headerHash mj]> merkleBase).
Proof. reflexivity. Qed.

Lemma placed_lookup_other merkleSize auxs merkleBase i :
  i ∉ slotIndex merkleSize <$> auxs ->
  placed merkleSize auxs merkleBase !! i = merkleBase !! i.
Proof.
  revert merkleBase. induction auxs as [|mj rest IH]; intros base Hi; [reflexivity|].
  rewrite fmap_cons in Hi. apply not_elem_of_cons in Hi as [Hne Hi].
  rewrite placed_cons.
  rewrite IH by exact Hi. apply lookup_insert_ne. congruence.
Qed.

Lemma placed_lookup merkleSize auxs merkleBase mj :
  NoDup (slotIndex merkleSize <$> auxs) -> mj ∈ auxs ->
  placed merkleSize auxs merkleBase !! slotIndex merkleSize mj
  = Some (AuxChainJob.headerHash mj).
Proof.
  revert merkleBase. induction auxs as [|mj' rest IH]; intros base Hnd Hin.
  - inversion Hin.
  - rewrite fmap_cons in Hnd. apply NoDup_cons in Hnd as [Hnotin Hnd].
    rewrite placed_cons.
    destruct (decide (slotIndex merkleSize mj = slotIndex merkleSize mj')) as [Heq|Hne].
    + rewrite Heq, placed_lookup_other by exact Hnotin.
      rewrite lookup_insert_eq.
      apply elem_of_cons in Hin as [->|Hin]; [reflexivity|].
      exfalso. apply Hnotin. rewrite <- Heq. apply list_elem_of_fmap_2. exact Hin.
    + apply elem_of_cons in Hin as [->|Hin]; [congruence|].
      apply IH; assumption.
Qed.

Lemma placed_occupied merkleSize auxs merkleBase i h :
  placed merkleSize auxs merkleBase !! i = Some h ->
  merkleBase !! i = Some h \/ exists mj, mj ∈ auxs /\ i = slotIndex merkleSize mj.
Proof.
  revert merkleBase. induction auxs as [|mj rest IH]; intros base Hl; [left; exact Hl|].
  rewrite placed_cons in Hl.
  apply IH in Hl as [Hl|(mj' & Hin & ->)].
  - destruct (decide (slotIndex merkleSize mj = i)) as [<-|Hne].
    + right. exists mj. split; [apply elem_of_cons; left; reflexivity | reflexivity].
    + rewrite lookup_insert_ne in Hl by exact Hne. left. exact Hl.
  - right. exists mj'. split; [apply elem_of_cons; right; exact Hin | reflexivity].
Qed.

(** The packer reads the chain ids and header hashes only. *)
Lemma fillSlots_keys merkleNonce merkleSize auxs auxs' merkleBase :
  packKey <$> auxs' = packKey <$> auxs ->
  fillSlots merkleNonce merkleSize auxs' merkleBase
  = fillSlots merkleNonce merkleSize auxs merkleBase.
Proof.
  revert auxs' merkleBase.
  induction auxs as [|mj rest IH]; intros [|mj' rest'] base Hkeys;
    try discriminate; [reflexivity|].
  rewrite !fmap_cons in Hkeys. injection Hkeys as Hid Hhash Hrest.
  simpl. rewrite Hid, Hhash.
  destruct (uint32 merkleSize =? 0); [reflexivity|].
  destruct (base !! _); [reflexivity|]. apply IH. exact Hrest.
Qed.

Lemma merkleLoop_keys fuel merkleNonce merkleSize auxs auxs' :
  packKey <$> auxs' = packKey <$> auxs ->
  merkleLoop fuel merkleNonce merkleSize auxs'
  = merkleLoop fuel merkleNonce merkleSize auxs.
Proof.
  intros Hkeys. revert merkleSize.
  induction fuel as [|fuel IH]; intros merkleSize; [reflexivity|].
  simpl. rewrite (fillSlots_keys _ _ auxs auxs') by exact Hkeys.
  destruct (merkleSize <? 0); [reflexivity|].
  destruct (fillSlots _ _ _ _); [reflexivity | apply IH | reflexivity].
Qed.

(** What a completed packing loop returns. *)
Lemma merkleLoop_done fuel auxs merkleSize merkleBase :
  merkleLoop fuel 0 1 auxs = Some (Done (merkleSize, merkleBase)) ->
  exists k, (k <= 31)%nat
    /\ merkleSize = 2 ^ Z.of_nat k
    /\ merkleBase = placed merkleSize auxs ∅
    /\ distinctAt k auxs
    /\ forall i, (i < k)%nat -> ~ distinctAt i auxs.
Proof.
  intros Hrun. destruct (decide (distinctAt 31 auxs)) as [H31|H31].
  - destruct (merkleLoop_fit 0 auxs H31) as (k & Hk & Hd & Hmin & Hfuel).
    destruct (decide (k < fuel)%nat) as [Hlt|Hge].
    + rewrite Hfuel in Hrun by exact Hlt. injection Hrun as <- <-.
      exists k. auto.
    + exfalso. replace fuel with (fuel + 0)%nat in Hrun by lia.
      change 1 with (2 ^ Z.of_nat 0) in Hrun.
      rewrite merkleLoop_skip in Hrun; [discriminate | lia |].
      intros i Hi. apply Hmin. lia.
  - exfalso. destruct (merkleLoop_no_fit auxs H31) as [Hlow Hhigh].
    destruct (decide (fuel <= 32)%nat).
    + rewrite Hlow in Hrun by assumption. discriminate.
    + rewrite Hhigh in Hrun by lia. discriminate.
Qed.

Lemma slotFormula_mod (c : Z) (k : nat) :
  (k <= 32)%nat ->
  slotFormula c mod 2 ^ Z.of_nat k
  = ((12345 + c) * 1103515245 + 12345) mod 2 ^ Z.of_nat k.
Proof.
  intros Hk. unfold slotFormula. change (2 ^ 32) with (2 ^ Z.of_nat 32).
  rewrite mod_pow2_mod by exact Hk. f_equal.
Qed.

(** The slot value modulo [m] depends on the chain id modulo [m] only. *)
Lemma lcg_mod (c m : Z) :
  m <> 0 ->
  ((12345 + c) * 1103515245 + 12345) mod m
  = ((12345 + c mod m) * 1103515245 + 12345) mod m.
Proof.
  intros Hm. rewrite (Z.div_mod c m Hm) at 1.
  replace ((12345 + (m * (c / m) + c mod m)) * 1103515245 + 12345)
    with (((12345 + c mod m) * 1103515245 + 12345) + (c / m * 1103515245) * m) by ring.
  apply Z_mod_plus_full.
Qed.

(** The multiplier is odd: 4005161829 is its inverse modulo [2^32], and
    the chain id modulo [2^k] is recovered from the slot value. *)
Lemma lcg_inv (c : Z) (k : nat) :
  (k <= 32)%nat ->
  c mod 2 ^ Z.of_nat k
  = ((((12345 + c) * 1103515245 + 12345) mod 2 ^ Z.of_nat k - 12345) * 4005161829 - 12345)
    mod 2 ^ Z.of_nat k.
Proof.
  intros Hk. set (m := 2 ^ Z.of_nat k).
  assert (Hm : 0 < m) by (apply Z.pow_pos_nonneg; lia).
  assert (Hq : 2 ^ (32 - Z.of_nat k) * m = 4294967296).
  { unfold m. rewrite <- Z.pow_add_r by lia.
    replace (32 - Z.of_nat k + Z.of_nat k) with 32 by lia. reflexivity. }
  set (q := 2 ^ (32 - Z.of_nat k)) in Hq.
  rewrite (Z.mod_eq ((12345 + c) * 1103515245 + 12345) m) by lia.
  set (D := ((12345 + c) * 1103515245 + 12345) / m).
  replace (((12345 + c) * 1103515245 + 12345 - m * D - 12345) * 4005161829 - 12345)
    with (c + ((12345 + c) * 1029054899 * q - D * 4005161829) * m).
  - symmetry. apply Z_mod_plus_full.
  - replace (c + ((12345 + c) * 1029054899 * q - D * 4005161829) * m)
      with (c + (12345 + c) * 1029054899 * (q * m) - D * 4005161829 * m) by ring.
    rewrite Hq. ring.
Qed.

Lemma slot_congruent (c1 c2 : Z) (k : nat) :
  (k <= 32)%nat ->
  slotFormula c1 mod 2 ^ Z.of_nat k = slotFormula c2 mod 2 ^ Z.of_nat k
  <-> c1 mod 2 ^ Z.of_nat k = c2 mod 2 ^ Z.of_nat k.
Proof.
  intros Hk. rewrite !slotFormula_mod by exact Hk.
  assert (Hm : 2 ^ Z.of_nat k <> 0) by (apply Z.pow_nonzero; lia).
  split; intros Heq.
  - rewrite (lcg_inv c1 k Hk), (lcg_inv c2 k Hk), Heq. reflexivity.
  - rewrite (lcg_mod c1), (lcg_mod c2), Heq by exact Hm. reflexivity.
Qed.

(** A table of [2^k] entries takes the aux chains exactly when their
    chain ids are pairwise distinct modulo [2^k]. *)
Lemma distinctAt_ids (k : nat) auxs :
  (k <= 32)%nat -> distinctAt k auxs <-> idsDistinct k auxs.
Proof.
  intros Hk. unfold distinctAt, idsDistinct, slotIndex.
  split; apply NoDup_fmap_impl; intros x y Heq; apply (slot_congruent _ _ k Hk); exact Heq.
Qed.

(** C5: when the packing loop completes, [merkleSize] is the first power
    of two, from 1 up, in whose table the slots [slotFormula(chain_id) mod
    merkleSize] are pairwise distinct, the table holds each aux chain's
    header hash at that slot and nothing else, and aux chains with the
    same chain ids and header hashes in the same order give the same size
    and table, and the same branches and masks. *)
Theorem packer_slot_assignment `{Externals} (fuel : nat) (auxs : list AuxChainJob.t)
    (merkleSize : Z) (merkleBase : gmap Z bytes) :
  merkleLoop fuel 0 1 auxs = Some (Done (merkleSize, merkleBase)) ->
  (exists k, (k <= 31)%nat /\ merkleSize = 2 ^ Z.of_nat k
             /\ forall i, (i < k)%nat ->
                  ~ NoDup (slotIndex (2 ^ Z.of_nat i) <$> auxs))
  /\ (forall mj,
        slotOf 0 (AuxChainJob.chainID mj) mod uint32 merkleSize = slotIndex merkleSize mj)
  /\ NoDup (slotIndex merkleSize <$> auxs)
  /\ (forall mj, mj ∈ auxs ->
        merkleBase !! slotIndex merkleSize mj = Some (AuxChainJob.headerHash mj))
  /\ (forall i h, merkleBase !! i = Some h ->
        exists mj, mj ∈ auxs /\ i = slotIndex merkleSize mj)
  /\ (forall auxs', packKey <$> auxs' = packKey <$> auxs ->
        merkleLoop fuel 0 1 auxs' = Some (Done (merkleSize, merkleBase))
        /\ (fun mj => (AuxChainJob.blockchainMerkleBranch mj,
                       AuxChainJob.blockchainMerkleMask mj))
             <$> setBranches (toSlice merkleSize merkleBase) auxs'
           = (fun mj => (AuxChainJob.blockchainMerkleBranch mj,
                         AuxChainJob.blockchainMerkleMask mj))
               <$> setBranches (toSlice merkleSize merkleBase) auxs).
Proof.
  intros Hrun.
  destruct (merkleLoop_done _ _ _ _ Hrun) as (k & Hk & Hsize & Hbase & Hd & Hmin).
  unfold distinctAt in Hd, Hmin. rewrite <- Hsize in Hd.
  split; [exists k; auto|].
  split.
  { intros mj. rewrite slotOf_formula, Hsize, uint32_pow2 by exact Hk. reflexivity. }
  split; [exact Hd|].
  split; [intros mj Hin; rewrite Hbase; apply placed_lookup; assumption|].
  split.
  { intros i h Hl. rewrite Hbase in Hl.
    apply placed_occupied in Hl as [Hl|Hl]; [|exact Hl].
    rewrite lookup_empty in Hl. discriminate. }
  intros auxs' Hkeys. split.
  - rewrite (merkleLoop_keys _ _ _ auxs auxs') by exact Hkeys. exact Hrun.
  - clear -Hkeys. revert auxs' Hkeys.
    induction auxs as [|mj rest IH]; intros [|mj' rest'] Hkeys;
      try discriminate; [reflexivity|].
    rewrite !fmap_cons in Hkeys. injection Hkeys as Hid Hhash Hrest.
    simpl. rewrite Hhash.
    destruct (auxMerkleBranch _ _) as [branch mask]. simpl.
    f_equal. apply IH. exact Hrest.
Qed.

Lemma packer_slot_assignment_witness :
  merkleLoop 33 0 1 [auxID1; auxID42]
  = Some (Done (2, {[ 1 := repeat 0x11 32; 0 := repeat 0x42 32 ]}))
  /\ NoDup (slotIndex 2 <$> [auxID1; auxID42]).
Proof.
  assert (Hrun : merkleLoop 33 0 1 [auxID1; auxID42]
                 = Some (Done (2, {[ 1 := repeat 0x11 32; 0 := repeat 0x42 32 ]}))).
  { vm_compute. reflexivity. }
  split; [exact Hrun|].
  exact (proj1 (proj2 (proj2
    (packer_slot_assignment (H := exampleExternals) 33 [auxID1; auxID42] 2 _ Hrun)))).
Defined.

(** C10, as stated, fails twice.  The chain ids 1 and [1 + 2^31] are
    distinct modulo [2^32], yet their slots collide in every table of up
    to [2^31] entries and the loop never returns a table; and with a
    repeated chain id the loop does not run forever: in round 33
    [uint32(merkleSize)] is 0 and the remainder panics. *)
Lemma merkleLoop_panics_not_diverges :
  let far := [auxID1; auxChain cfgDOGE (1 + 2 ^ 31) 7 (2 ^ 231) (repeat 0x42 32)] in
  let same := [auxID1; auxChain cfgDOGE 1 7 (2 ^ 231) (repeat 0x42 32)] in
  NoDup ((fun mj => AuxChainJob.chainID mj mod 2 ^ 32) <$> far)
  /\ (forall fuel r, merkleLoop fuel 0 1 far <> Some (Done r))
  /\ merkleLoop 33 0 1 far = Some (Panic "integer divide by zero")
  /\ ~ NoDup ((fun mj => AuxChainJob.chainID mj mod 2 ^ 32) <$> same)
  /\ merkleLoop 33 0 1 same = Some (Panic "integer divide by zero").
Proof.
  intros far same.
  assert (Hfar : ~ distinctAt 31 far).
  { rewrite distinctAt_ids by lia. unfold idsDistinct. vm_compute.
    intros Hnd. inversion Hnd as [|? ? Hnotin _]; subst.
    apply Hnotin. constructor. }
  split; [|split; [|split; [|split]]].
  - vm_compute. repeat constructor; intros Hin; inversion Hin as [|? ? ? Hin']; subst.
    inversion Hin'.
  - intros fuel r Hrun. destruct r as [size base].
    apply merkleLoop_done in Hrun as (k & Hk & _ & _ & Hd & _).
    apply Hfar. apply (distinctAt_mono k 31); [lia | exact Hd].
  - apply (proj2 (merkleLoop_no_fit far Hfar)). lia.
  - vm_compute. intros Hnd. inversion Hnd as [|? ? Hnotin _]; subst.
    apply Hnotin. constructor.
  - vm_compute. reflexivity.
Qed.

(** C10 (amended): 33 rounds always end the packing loop.  If the chain
    ids are pairwise distinct modulo [2^31], it returns the table of the
    least [2^k], [k <= 31], modulo which they are distinct; otherwise, in
    particular when two aux chains have the same chain id, no round
    succeeds and round 33, at [merkleSize = 2^32], panics on the division
    by [uint32(merkleSize) = 0]. *)
Theorem merkleLoop_fuel (auxs : list AuxChainJob.t) :
  (idsDistinct 31 auxs ->
     exists k, (k <= 31)%nat
       /\ idsDistinct k auxs
       /\ (forall i, (i < k)%nat -> ~ idsDistinct i auxs)
       /\ forall fuel, (33 <= fuel)%nat ->
            merkleLoop fuel 0 1 auxs
            = Some (Done (2 ^ Z.of_nat k, placed (2 ^ Z.of_nat k) auxs ∅)))
  /\ (~ idsDistinct 31 auxs ->
        forall fuel, (33 <= fuel)%nat ->
          merkleLoop fuel 0 1 auxs = Some (Panic "integer divide by zero")).
Proof.
  split.
  - intros Hids. apply distinctAt_ids in Hids; [|lia].
    destruct (merkleLoop_fit 0 auxs Hids) as (k & Hk & Hd & Hmin & Hfuel).
    exists k. split; [exact Hk|].
    split; [apply distinctAt_ids; [lia | exact Hd]|].
    split.
    + intros i Hi Hid. apply (Hmin i Hi). apply distinctAt_ids; [lia | exact Hid].
    + intros fuel Hge. apply Hfuel. lia.
  - intros Hids fuel Hge.
    assert (Hd : ~ distinctAt 31 auxs).
    { intros Hd. apply Hids. apply distinctAt_ids; [lia | exact Hd]. }
    apply (proj2 (merkleLoop_no_fit auxs Hd)). lia.
Qed.

Lemma merkleLoop_fuel_witness :
  idsDistinct 31 [auxID1; auxID42]
  /\ (exists k, (k <= 31)%nat
        /\ merkleLoop 33 0 1 [auxID1; auxID42]
           = Some (Done (2 ^ Z.of_nat k, placed (2 ^ Z.of_nat k) [auxID1; auxID42] ∅)))
  /\ ~ idsDistinct 31 [auxID1; auxID1]
  /\ merkleLoop 33 0 1 [auxID1; auxID1] = Some (Panic "integer divide by zero").
Proof.
  assert (Hok : idsDistinct 31 [auxID1; auxID42]).
  { unfold idsDistinct. vm_compute.
    repeat constructor; intros Hin; inversion Hin as [|? ? ? Hin']; subst.
    inversion Hin'. }
  assert (Hdup : ~ idsDistinct 31 [auxID1; auxID1]).
  { unfold idsDistinct. vm_compute. intros Hnd.
    inversion Hnd as [|? ? Hnotin _]; subst. apply Hnotin. constructor. }
  split; [exact Hok|]. split.
  - destruct (proj1 (merkleLoop_fuel [auxID1; auxID42]) Hok) as (k & Hk & _ & _ & Hrun).
    exists k. split; [exact Hk|]. apply Hrun. lia.
  - split; [exact Hdup|].
    apply (proj2 (merkleLoop_fuel [auxID1; auxID1]) Hdup). lia.
Defined.

(** ** Solve verification *)

Section Solves.
Context `{Externals}.

Lemma auxSolves_lookup (j : Job) coinbase headerHsh header (bigHsh : Z) auxs
    (ret : gmap string BlockSolve.t) currencies code :
  is_Some ((auxSolves j coinbase headerHsh header bigHsh auxs ret currencies).1 !! code)
  <-> is_Some (ret !! code)
      \/ exists mj, mj ∈ auxs /\ auxCode mj = code /\ bigHsh <= AuxChainJob.target mj.
Proof.
  revert ret currencies. induction auxs as [|mj rest IH]; intros ret currencies; simpl.
  - split; [auto | intros [Hs | (mj & Hin & _)]; [exact Hs | inversion Hin]].
  - rewrite IH. fold (auxCode mj).
    destruct (Z.leb_spec bigHsh (AuxChainJob.target mj)) as [Hle|Hgt].
    + rewrite lookup_insert_is_Some. split.
      * intros [[Heq | [_ Hs]] | (mj' & Hin & Hc & Ht)].
        -- right. exists mj. split; [apply elem_of_cons; left; reflexivity | auto].
        -- left. exact Hs.
        -- right. exists mj'. split; [apply elem_of_cons; right; exact Hin | auto].
      * intros [Hs | (mj' & Hin & Hc & Ht)].
        -- destruct (decide (auxCode mj = code)); [left; left; assumption|].
           left. right. auto.
        -- apply elem_of_cons in Hin as [->|Hin].
           ++ left. left. exact Hc.
           ++ right. exists mj'. auto.
    + split.
      * intros [Hs | (mj' & Hin & Hc & Ht)]; [left; exact Hs|].
        right. exists mj'. split; [apply elem_of_cons; right; exact Hin | auto].
      * intros [Hs | (mj' & Hin & Hc & Ht)]; [left; exact Hs|].
        apply elem_of_cons in Hin as [->|Hin]; [lia|].
        right. exists mj'. auto.
Qed.

Lemma auxSolves_powhash (j : Job) coinbase headerHsh header (bigHsh : Z) auxs
    (ret : gmap string BlockSolve.t) currencies :
  (forall code solve, ret !! code = Some solve -> BlockSolve.powhash solve = bigHsh) ->
  forall code solve,
    (auxSolves j coinbase headerHsh header bigHsh auxs ret currencies).1 !! code = Some solve ->
    BlockSolve.powhash solve = bigHsh.
Proof.
  revert ret currencies. induction auxs as [|mj rest IH]; intros ret currencies Hret;
    simpl; [exact Hret|].
  apply IH. destruct (bigHsh <=? AuxChainJob.target mj); [|exact Hret].
  intros code solve Hl. apply lookup_insert_Some in Hl as [[_ <-] | [_ Hl]].
  - reflexivity.
  - exact (Hret _ _ Hl).
Qed.

(** The chains a submission touches: every chain of the job, in order. *)
Lemma auxSolves_currencies (j : Job) coinbase headerHsh header (bigHsh : Z) auxs
    (ret : gmap string BlockSolve.t) currencies :
  (auxSolves j coinbase headerHsh header bigHsh auxs ret currencies).2
  = currencies ++ (auxCode <$> auxs).
Proof.
  revert ret currencies. induction auxs as [|mj rest IH]; intros ret currencies; simpl.
  - rewrite app_nil_r. reflexivity.
  - rewrite IH, <- app_assoc. reflexivity.
Qed.

(** The comparisons both check functions make on the PoW value. *)
Lemma compareTargets_spec (j : Job) coinbase coinbaseHash header headerHsh (bigHsh : Z)
    (shareTarget : option Z) ret validShare currencies :
  compareTargets j coinbase coinbaseHash header headerHsh bigHsh shareTarget
  = (ret, validShare, currencies) ->
  (validShare = true <-> exists t, shareTarget = Some t /\ t <= bigHsh)
  /\ (forall code, is_Some (ret !! code) <->
        exists c, c ∈ chainTargets j /\ c.1 = code /\ bigHsh <= c.2)
  /\ (forall code solve, ret !! code = Some solve -> BlockSolve.powhash solve = bigHsh)
  /\ currencies = (chainTargets j).*1.
Proof.
  unfold compareTargets.
  destruct (auxSolves _ _ _ _ _ _ _ _) as [ret' cur'] eqn:Haux.
  intros Heq. injection Heq as <- <- <-.
  split; [|split; [|split]].
  - destruct shareTarget as [t|].
    + destruct (Z.leb_spec t bigHsh); split; try discriminate; eauto.
      intros (t' & Ht & Hle). injection Ht as <-. lia.
    + split; [discriminate | intros (t & Ht & _); discriminate].
  - intros code. pose proof (f_equal fst Haux) as Hret. simpl in Hret. rewrite <- Hret.
    rewrite auxSolves_lookup. unfold chainTargets. fold (mainCode j).
    split.
    + intros [Hs | (mj & Hin & Hc & Ht)].
      * destruct (Z.leb_spec bigHsh (MainChainJob.target (main j))) as [Hle|Hgt].
        -- apply lookup_insert_is_Some in Hs as [<- | [_ Hs]].
           ++ eexists. split; [apply elem_of_cons; left; reflexivity | auto].
           ++ rewrite lookup_empty in Hs. destruct Hs; discriminate.
        -- rewrite lookup_empty in Hs. destruct Hs; discriminate.
      * exists (auxCode mj, AuxChainJob.target mj).
        split; [|auto]. apply elem_of_cons. right.
        apply (list_elem_of_fmap_2 (fun mj => (auxCode mj, AuxChainJob.target mj))).
        exact Hin.
    + intros (c & Hin & Hc & Ht). apply elem_of_cons in Hin as [-> | Hin].
      * left. simpl in *. destruct (Z.leb_spec bigHsh (MainChainJob.target (main j))); [|lia].
        rewrite <- Hc. rewrite lookup_insert_eq. eauto.
      * right. apply list_elem_of_fmap in Hin as (mj & -> & Hin).
        exists mj. auto.
  - pose proof (f_equal fst Haux) as Hret. simpl in Hret. rewrite <- Hret.
    apply auxSolves_powhash. intros code solve Hl.
    destruct (bigHsh <=? MainChainJob.target (main j)).
    + apply lookup_insert_Some in Hl as [[_ <-] | [_ Hl]]; [reflexivity|].
      rewrite lookup_empty in Hl. discriminate.
    + rewrite lookup_empty in Hl. discriminate.
  - pose proof (f_equal snd Haux) as Hcur. simpl in Hcur. rewrite <- Hcur.
    rewrite auxSolves_currencies. unfold chainTargets. fold (mainCode j).
    rewrite fmap_cons, <- list_fmap_compose. reflexivity.
Qed.

(** Both check functions compare [powInt]. *)
Lemma CheckSolves_powInt (j : Job) (sd : solveData) (shareTarget : option Z) r :
  CheckSolves j sd shareTarget = Ok r ->
  exists bigHsh coinbase coinbaseHash header headerHsh,
    powInt j sd = Ok bigHsh
    /\ r = compareTargets j coinbase coinbaseHash header headerHsh bigHsh shareTarget.
Proof.
  destruct sd as [v|v|]; simpl; [| |discriminate].
  - unfold checkExtranonceSolve, powInt. simpl.
    unfold Hasher.sum, Hasher.write, Hasher.new. simpl.
    rewrite <- !app_assoc.
    destruct (Algo.PoWHash (algo j) _) as [headerHsh|e]; simpl; [|discriminate].
    destruct (NewHash headerHsh) as [hashObj|e]; simpl; [|discriminate].
    intros Heq. injection Heq as <-. eauto 10.
  - unfold checkSolSolve, powInt. simpl.
    unfold Hasher.reset. rewrite walkBranch_fresh.
    unfold Hasher.sum, Hasher.write, Hasher.new, zcashCoinbase. simpl.
    rewrite <- !app_assoc.
    destruct (Algo.PoWHash sha256dAlgo _) as [headerHsh|e]; simpl; [|discriminate].
    destruct (NewHash headerHsh) as [hashObj|e]; simpl; [|discriminate].
    intros Heq. injection Heq as <-. eauto 10.
Qed.

End Solves.

(** C1: when [CheckSolves] returns without error, with [pow_int] the PoW
    value of the submission, [valid_share] is true exactly when the share
    target is not nil and [pow_int >= share_target], and a [BlockSolve]
    is returned for a chain code exactly when a chain of the job, main or
    aux, has that code and [pow_int <= target]; each carries [pow_int]. *)
Theorem CheckSolves_targets `{Externals} (j : Job) (sd : solveData)
    (shareTarget : option Z) (ret : gmap string BlockSolve.t) (validShare : bool)
    (currencies : list string) :
  CheckSolves j sd shareTarget = Ok (ret, validShare, currencies) ->
  exists pow_int,
    powInt j sd = Ok pow_int
    /\ (validShare = true <-> exists t, shareTarget = Some t /\ pow_int >= t)
    /\ (forall code, is_Some (ret !! code) <->
          exists c, c ∈ chainTargets j /\ c.1 = code /\ pow_int <= c.2)
    /\ (forall code solve, ret !! code = Some solve -> BlockSolve.powhash solve = pow_int).
Proof.
  intros Hcheck.
  apply CheckSolves_powInt in Hcheck
    as (bigHsh & coinbase & coinbaseHash & header & headerHsh & Hpow & Hr).
  symmetry in Hr. apply compareTargets_spec in Hr as (Hshare & Hsolved & Hhash & _).
  exists bigHsh. split; [exact Hpow|]. split; [|split; assumption].
  rewrite Hshare. split; intros (t & Ht & Hle); exists t; (split; [exact Ht | lia]).
Qed.

Lemma CheckSolves_targets_witness :
  exists ret currencies pow_int,
    CheckSolves (H := exampleExternals) jobAuxOnly solveE (Some 1)
    = Ok (ret, true, currencies)
    /\ powInt (H := exampleExternals) jobAuxOnly solveE = Ok pow_int
    /\ is_Some (ret !! "NMC") /\ ret !! "BTC" = None.
Proof.
  destruct (CheckSolves (H := exampleExternals) jobAuxOnly solveE (Some 1))
    as [[[ret validShare] currencies]|e] eqn:E; [|vm_compute in E; discriminate E].
  destruct (CheckSolves_targets (H := exampleExternals) _ _ _ _ _ _ E)
    as (pow_int & Hpow & Hshare & Hsolved & _).
  exists ret, currencies, pow_int.
  assert (Hrange : 1 <= pow_int <= 2 ^ 256 /\ 0 < pow_int).
  { vm_compute in Hpow. injection Hpow as <-. split; [split|]; vm_compute; congruence. }
  assert (Hvalid : validShare = true).
  { apply Hshare. exists 1. split; [reflexivity | lia]. }
  rewrite Hvalid. split; [reflexivity|]. split; [exact Hpow|]. split.
  - apply Hsolved. exists ("NMC", 2 ^ 256). split; [|split; [reflexivity | simpl; lia]].
    vm_compute. apply elem_of_cons. right. apply elem_of_cons. left. reflexivity.
  - destruct (ret !! "BTC") eqn:Hbtc; [|reflexivity]. exfalso.
    destruct (proj1 (Hsolved "BTC") (ex_intro _ _ Hbtc)) as (c & Hin & Hc & Ht).
    vm_compute in Hin.
    apply elem_of_cons in Hin as [->|Hin]; [simpl in Ht; lia|].
    apply elem_of_cons in Hin as [->|Hin]; [discriminate Hc | inversion Hin].
Defined.

(** ** Job construction *)

Section Construction.
Context `{Externals}.

Lemma bind_Ok {A B : Type} (c : result A) (f : A -> result B) (b : B) :
  c ≫= f = Ok b -> exists a, c = Ok a /\ f a = Ok b.
Proof. destruct c as [a|e]; [eauto | discriminate]. Qed.

Lemma NewAuxChainJob_chainID tmpl config algo auxChainJob :
  NewAuxChainJob tmpl config algo = Ok auxChainJob ->
  BlockTemplate.ChainID tmpl <> 0
  /\ AuxChainJob.chainID auxChainJob = BlockTemplate.ChainID tmpl
  /\ AuxChainJob.height auxChainJob = BlockTemplate.Height tmpl
  /\ AuxChainJob.currencyConfig auxChainJob = config.
Proof.
  unfold NewAuxChainJob. intros Hnew. cbv zeta in Hnew.
  repeat (apply bind_Ok in Hnew as (? & _ & Hnew)).
  destruct (Z.eqb_spec (BlockTemplate.ChainID tmpl) 0); [discriminate|].
  injection Hnew as <-. auto.
Qed.

Lemma NewMainChainJob_fields tmpl config algo mainChainJob :
  NewMainChainJob tmpl config algo = Ok mainChainJob ->
  MainChainJob.height mainChainJob = BlockTemplate.Height tmpl
  /\ MainChainJob.currencyConfig mainChainJob = config.
Proof.
  unfold NewMainChainJob. intros Hnew. cbv zeta in Hnew.
  repeat (apply bind_Ok in Hnew as (? & _ & Hnew)).
  injection Hnew as <-. auto.
Qed.

(** One round of the template loop that goes through. *)
Lemma templateStep_Ok algo job entry job' :
  templateStep algo job entry = Ok job' ->
  ~ rejected entry
  /\ (isMain entry -> bMain job = None /\ is_Some (bMain job'))
  /\ (~ isMain entry -> bMain job' = bMain job).
Proof.
  destruct entry as [tmplKey tmplRaw]. unfold templateStep, rejected, isMain, isAux. simpl.
  destruct (Unmarshal tmplRaw) as [tmpl|e] eqn:Hu; simpl; [|discriminate].
  destruct (CurrencyConfig !! Currency tmplKey) as [chainConfig|] eqn:Hc; [|discriminate].
  destruct (String.eqb_spec (TemplateType tmplKey) "getblocktemplate_aux") as [Haux|Haux].
  - destruct (NewAuxChainJob tmpl chainConfig algo) as [auxChainJob|e] eqn:Hnew;
      simpl; [|discriminate].
    apply NewAuxChainJob_chainID in Hnew as (Hid & _).
    intros Heq. injection Heq as <-. simpl. rewrite Haux.
    split; [|split; [discriminate | reflexivity]].
    intros [[_ Hna] | [Hnone | (_ & tmpl' & Htmpl & Hzero)]];
      [apply Hna; reflexivity | discriminate |].
    injection Htmpl as <-. contradiction.
  - destruct (String.eqb_spec (TemplateType tmplKey) "getblocktemplate") as [Hmain|Hmain];
      [|discriminate].
    case_bool_decide as Hset; [discriminate|].
    destruct (NewMainChainJob tmpl chainConfig algo) as [mainChainJob|e]; simpl; [|discriminate].
    intros Heq. injection Heq as <-. simpl.
    split; [|split].
    + intros [[Hnm _] | [Hnone | (Ha & _)]]; [contradiction | discriminate | contradiction].
    + intros _. split; [|eauto]. destruct (bMain job); [|reflexivity].
      exfalso. apply Hset. eauto.
    + intros Hnm. contradiction.
Qed.

(** A template loop that goes through met no rejected entry and at most
    one "getblocktemplate" entry, and [mainJobSet] tells whether it met
    one. *)
Lemma templateLoop_Ok algo job templates job' :
  templateLoop algo job templates = Ok job' ->
  Forall (fun entry => ~ rejected entry) templates
  /\ (is_Some (bMain job) -> mainCount templates = 0%nat /\ is_Some (bMain job'))
  /\ (bMain job = None ->
      (mainCount templates <= 1)%nat
      /\ (is_Some (bMain job') <-> mainCount templates = 1%nat)).
Proof.
  revert job. induction templates as [|entry rest IH]; intros job; simpl.
  - intros Heq. injection Heq as <-. split; [constructor|].
    split; [auto|]. intros Hnone. split; [auto|]. rewrite Hnone.
    split; [intros [x Hx]; discriminate | discriminate].
  - destruct (templateStep algo job entry) as [job1|e] eqn:Hstep; simpl; [|discriminate].
    intros Hloop. apply templateStep_Ok in Hstep as (Hrej & Hmain & Hother).
    apply IH in Hloop as (Hall & Hset & Hunset).
    split; [constructor; assumption|].
    unfold mainCount in *. rewrite filter_cons.
    destruct (decide (isMain entry)) as [Hm|Hm].
    + destruct (Hmain Hm) as [Hnone Hsome]. destruct (Hset Hsome) as [Hzero Hsome'].
      split.
      * intros [x Hx]. rewrite Hnone in Hx. discriminate.
      * intros _. simpl. rewrite Hzero. split; [lia|]. split; auto.
    + rewrite (Hother Hm) in Hset, Hunset. split; assumption.
Qed.

End Construction.

(** C7: [NewJobFromTemplates] returns an error, and no job, when the
    templates hold no "getblocktemplate" entry, more than one, an entry
    of another type than the two known, an entry whose currency is not
    registered, or an aux entry whose template has chain id 0. *)
Theorem NewJobFromTemplates_rejects `{Externals} (fuel : nat)
    (templates : list (TemplateKey * bytes)) (algo : Algo.t) :
  mainCount templates = 0%nat
  \/ (1 < mainCount templates)%nat
  \/ Exists rejected templates ->
  exists e, NewJobFromTemplates fuel templates algo = Some (Done (Err e)).
Proof.
  intros Hbad. unfold NewJobFromTemplates.
  destruct (templateLoop algo emptyBuilder templates) as [job|e] eqn:Hloop; [|eauto].
  apply templateLoop_Ok in Hloop as (Hall & _ & Hunset).
  destruct (Hunset eq_refl) as [Hle Hiff].
  destruct Hbad as [Hzero | [Hmany | Hrej]].
  - destruct (bMain job) as [[mainChainJob mainJobTemplate]|] eqn:Hmain; [|eauto].
    exfalso. assert (Hone : mainCount templates = 1%nat) by (apply Hiff; eauto). lia.
  - lia.
  - exfalso. apply Exists_exists in Hrej as (entry & Hin & Hrej).
    rewrite Forall_forall in Hall. exact (Hall entry Hin Hrej).
Qed.

Lemma NewJobFromTemplates_rejects_witness :
  NewJobFromTemplates (H := exampleExternals) 33 [] algoSha
  = Some (Done (Err (New "Must have a main chain template")))
  /\ (exists e,
        NewJobFromTemplates (H := exampleExternals) 33
          (templatesMerged ++ [(mkTemplateKey "NMC" "getblocktemplate", [1; 5; 0])]) algoSha
        = Some (Done (Err e)))
  /\ (exists e,
        NewJobFromTemplates (H := exampleExternals) 33
          (templatesMerged ++ [(mkTemplateKey "DOGE" "getblocktemplate_aux", [1; 9; 0])])
          algoSha
        = Some (Done (Err e))).
Proof.
  split; [|split].
  - destruct (NewJobFromTemplates_rejects (H := exampleExternals) 33 [] algoSha) as [e He].
    + left. reflexivity.
    + vm_compute in He. injection He as <-. reflexivity.
  - apply NewJobFromTemplates_rejects. right. left. vm_compute. lia.
  - apply NewJobFromTemplates_rejects. right. right.
    apply Exists_app. right. constructor. right. right.
    split; [reflexivity|]. eexists. split; reflexivity.
Defined.

(** C6: the blob handed to the coinbase builder is empty without aux
    chains; otherwise it is the marker FA BE 6D 6D, the reversed header
    hash of the aux chain when there is one, or the reversed merkle root
    of the packed slot table when there are more, the table size on four
    little-endian bytes, and the nonce 0 on four bytes. *)
Theorem NewJobFromTemplates_blob `{Externals} (fuel : nat)
    (templates : list (TemplateKey * bytes)) (algo : Algo.t) (job : Job) :
  NewJobFromTemplates fuel templates algo = Some (Done (Ok job)) ->
  exists built mainChainJob mainJobTemplate merkleSize merkleBase blob,
    templateLoop algo emptyBuilder templates = Ok built
    /\ bMain built = Some (mainChainJob, mainJobTemplate)
    /\ merkleLoop fuel 0 1 (bAuxChains built) = Some (Done (merkleSize, merkleBase))
    /\ packKey <$> auxChains job = packKey <$> bAuxChains built
    /\ createCoinbaseSplit mainJobTemplate (MainChainJob.currencyConfig (main job)) blob
       = Ok (MainChainJob.coinbase1 (main job), MainChainJob.coinbase2 (main job))
    /\ blob = match auxChains job with
              | [] => []
              | [mj] =>
                  [0xfa; 0xbe; 0x6d; 0x6d] ++ rev (AuxChainJob.headerHash mj)
                  ++ PutUint32 merkleSize ++ PutUint32 0
              | _ =>
                  [0xfa; 0xbe; 0x6d; 0x6d]
                  ++ rev (merkleRoot (toSlice merkleSize merkleBase))
                  ++ PutUint32 merkleSize ++ PutUint32 0
              end.
Proof.
  unfold NewJobFromTemplates.
  destruct (templateLoop algo emptyBuilder templates) as [built|e] eqn:Hloop; [|discriminate].
  destruct (bMain built) as [[mainChainJob mainJobTemplate]|] eqn:Hmain; [|discriminate].
  destruct (merkleLoop fuel 0 1 (bAuxChains built)) as [[[merkleSize merkleBase]|msg]|]
    eqn:Hpack; [|discriminate|discriminate].
  set (base := toSlice merkleSize merkleBase).
  set (blob := mmCoinbase (setBranches base (bAuxChains built)) merkleSize 0 base).
  destruct (createCoinbaseSplit mainJobTemplate _ blob) as [[coinbase1 coinbase2]|e]
    eqn:Hsplit; simpl; [|discriminate].
  intros Heq. injection Heq as <-. simpl.
  exists built, mainChainJob, mainJobTemplate, merkleSize, merkleBase, blob.
  split; [reflexivity|]. split; [exact Hmain|]. split; [exact Hpack|].
  assert (Hkeys : packKey <$> setBranches base (bAuxChains built)
                  = packKey <$> bAuxChains built).
  { unfold setBranches. generalize (bAuxChains built). intros auxs.
    induction auxs as [|mj rest IH]; [reflexivity|].
    simpl. destruct (auxMerkleBranch base _). simpl.
    f_equal. apply IH. }
  split; [exact Hkeys|]. split; [exact Hsplit|].
  destruct (merkleLoop_done _ _ _ _ Hpack) as (k & Hk & Hsize & _).
  assert (Hu : uint32 merkleSize = merkleSize).
  { rewrite Hsize. apply uint32_pow2. exact Hk. }
  unfold blob, mmCoinbase. rewrite Hu.
  destruct (setBranches base (bAuxChains built)) as [|mj [|mj' rest]]; reflexivity.
Qed.

Lemma NewJobFromTemplates_blob_witness :
  exists job merkleSize root,
    NewJobFromTemplates (H := exampleExternals) 33 templatesMerged algoSha
    = Some (Done (Ok job))
    /\ MainChainJob.coinbase1 (main job)
       = [1; 0; 0; 0] ++ [0xfa; 0xbe; 0x6d; 0x6d] ++ rev root
         ++ PutUint32 merkleSize ++ [0; 0; 0; 0].
Proof.
  assert (Hlen : match NewJobFromTemplates (H := exampleExternals) 33 templatesMerged algoSha
                 with
                 | Some (Done (Ok job)) => length (auxChains job)
                 | _ => O
                 end = 2%nat).
  { vm_compute. reflexivity. }
  destruct (NewJobFromTemplates (H := exampleExternals) 33 templatesMerged algoSha)
    as [[[job|e]|msg]|] eqn:E; try discriminate Hlen.
  destruct (NewJobFromTemplates_blob (H := exampleExternals) _ _ _ _ E)
    as (built & mainChainJob & mainJobTemplate & merkleSize & merkleBase & blob
        & _ & _ & _ & _ & Hsplit & Hblob).
  exists job, merkleSize, (@merkleRoot exampleExternals (toSlice merkleSize merkleBase)).
  split; [reflexivity|].
  injection Hsplit as Hc1 _.
  destruct (auxChains job) as [|mj [|mj' rest]]; try discriminate Hlen.
  rewrite <- Hc1, Hblob. reflexivity.
Defined.

(** ** The heights map of a constructed job *)

Section Heights.
Context `{Externals}.

(** A round of the template loop adds one chain and records its height
    under its code. *)
Lemma templateStep_heights algo job entry job' :
  templateStep algo job entry = Ok job' ->
  exists code,
    builderCodes job' ≡ₚ code :: builderCodes job
    /\ (code ∉ builderCodes job -> builderRecorded job -> builderRecorded job').
Proof.
  destruct entry as [tmplKey tmplRaw]. unfold templateStep.
  destruct (Unmarshal tmplRaw) as [tmpl|e]; simpl; [|discriminate].
  destruct (CurrencyConfig !! Currency tmplKey) as [chainConfig|]; [|discriminate].
  destruct (String.eqb (TemplateType tmplKey) "getblocktemplate_aux").
  - destruct (NewAuxChainJob tmpl chainConfig algo) as [auxChainJob|e] eqn:Hnew;
      simpl; [|discriminate].
    apply NewAuxChainJob_chainID in Hnew as (_ & _ & _ & Hcfg).
    intros Heq. injection Heq as <-. exists (ChainConfig.Code chainConfig).
    unfold builderCodes, builderRecorded. simpl.
    assert (Hcode : auxCode auxChainJob = ChainConfig.Code chainConfig).
    { unfold auxCode. rewrite Hcfg. reflexivity. }
    split.
    + rewrite fmap_app. simpl. rewrite Hcode, app_assoc.
      rewrite <- Permutation_cons_append. reflexivity.
    + intros Hfresh [Hmain Haux]. split.
      * intros mainChainJob tmpl' Hm. rewrite lookup_insert_ne; [eauto|].
        intros Heq. apply Hfresh. rewrite Hm, <- Heq. apply elem_of_cons. left. reflexivity.
      * apply Forall_app. split.
        -- apply Forall_forall. intros aux Hin. rewrite lookup_insert_ne.
           ++ rewrite Forall_forall in Haux. apply Haux. exact Hin.
           ++ intros Heq. apply Hfresh. apply elem_of_app. right.
              rewrite Heq. apply list_elem_of_fmap_2. exact Hin.
        -- constructor; [|constructor]. rewrite Hcode. apply lookup_insert_eq.
  - destruct (String.eqb (TemplateType tmplKey) "getblocktemplate"); [|discriminate].
    case_bool_decide as Hset; [discriminate|].
    destruct (NewMainChainJob tmpl chainConfig algo) as [mainChainJob|e] eqn:Hnew;
      simpl; [|discriminate].
    apply NewMainChainJob_fields in Hnew as (_ & Hcfg).
    intros Heq. injection Heq as <-. exists (ChainConfig.Code chainConfig).
    assert (Hnone : bMain job = None).
    { destruct (bMain job); [exfalso; apply Hset; eauto | reflexivity]. }
    unfold builderCodes, builderRecorded. simpl. rewrite Hnone, Hcfg. simpl.
    split; [reflexivity|].
    intros Hfresh [_ Haux]. split.
    + intros m tmpl' Hm. injection Hm as <- <-. rewrite Hcfg. apply lookup_insert_eq.
    + apply Forall_forall. intros aux Hin. rewrite lookup_insert_ne.
      * rewrite Forall_forall in Haux. apply Haux. exact Hin.
      * intros Heq. apply Hfresh. rewrite Heq. apply list_elem_of_fmap_2. exact Hin.
Qed.

Lemma templateLoop_codes algo job templates job' :
  templateLoop algo job templates = Ok job' ->
  exists more, builderCodes job' ≡ₚ builderCodes job ++ more.
Proof.
  revert job. induction templates as [|entry rest IH]; intros job; simpl.
  - intros Heq. injection Heq as <-. exists []. rewrite app_nil_r. reflexivity.
  - destruct (templateStep algo job entry) as [job1|e] eqn:Hstep; simpl; [|discriminate].
    intros Hloop. apply templateStep_heights in Hstep as (code & Hperm & _).
    apply IH in Hloop as (more & Hmore). exists (code :: more).
    rewrite Hmore, Hperm. simpl. apply Permutation_middle.
Qed.

Lemma templateLoop_recorded algo job templates job' :
  templateLoop algo job templates = Ok job' ->
  NoDup (builderCodes job') -> builderRecorded job -> builderRecorded job'.
Proof.
  revert job. induction templates as [|entry rest IH]; intros job; simpl.
  - intros Heq. injection Heq as <-. auto.
  - destruct (templateStep algo job entry) as [job1|e] eqn:Hstep; simpl; [|discriminate].
    intros Hloop Hnd Hrec. apply (IH job1 Hloop Hnd).
    destruct (templateLoop_codes _ _ _ _ Hloop) as (more & Hmore).
    apply templateStep_heights in Hstep as (code & Hperm & Hstep).
    apply Hstep; [|exact Hrec].
    rewrite Hmore, Hperm in Hnd. apply NoDup_app in Hnd as (Hnd & _).
    apply NoDup_cons in Hnd as [Hfresh _]. exact Hfresh.
Qed.

(** A job that [NewJobFromTemplates] returns, with chains of pairwise
    distinct codes, records the height of each of its chains. *)
Lemma NewJobFromTemplates_heights (fuel : nat) (templates : list (TemplateKey * bytes))
    (algo : Algo.t) (job : Job) :
  NewJobFromTemplates fuel templates algo = Some (Done (Ok job)) ->
  NoDup (mainCode job :: (auxCode <$> auxChains job)) ->
  heightsRecorded job.
Proof.
  unfold NewJobFromTemplates.
  destruct (templateLoop algo emptyBuilder templates) as [built|e] eqn:Hloop; [|discriminate].
  destruct (bMain built) as [[mainChainJob mainJobTemplate]|] eqn:Hmain; [|discriminate].
  destruct (merkleLoop fuel 0 1 (bAuxChains built)) as [[[merkleSize merkleBase]|msg]|];
    [|discriminate|discriminate].
  set (base := toSlice merkleSize merkleBase).
  destruct (wrap _ _) as [[coinbase1 coinbase2]|e]; simpl; [|discriminate].
  intros Heq. injection Heq as <-. unfold heightsRecorded, mainCode. simpl.
  assert (Hcodes : auxCode <$> setBranches base (bAuxChains built)
                   = auxCode <$> bAuxChains built).
  { unfold setBranches. generalize (bAuxChains built). intros auxs.
    induction auxs as [|mj rest IH]; [reflexivity|].
    simpl. destruct (auxMerkleBranch base _). simpl. f_equal. apply IH. }
  rewrite Hcodes. intros Hnd.
  assert (Hrec : builderRecorded built).
  { apply (templateLoop_recorded _ _ _ _ Hloop).
    - unfold builderCodes. rewrite Hmain. exact Hnd.
    - split; [intros m t Hm; discriminate | constructor]. }
  destruct Hrec as [Hm Haux]. split; [exact (Hm _ _ Hmain)|].
  unfold setBranches. clear -Haux. induction Haux as [|mj rest Hmj _ IH]; [constructor|].
  simpl. destruct (auxMerkleBranch base _). constructor; [exact Hmj | exact IH].
Qed.

End Heights.

(** * Further properties *)

(** ** Digests and hex strings *)

Lemma round_length st kw : length (SHA256.round st kw) = length st.
Proof.
  destruct st as [|a [|b [|c [|d [|e [|f [|g [|h [|i rest]]]]]]]]]; reflexivity.
Qed.

Lemma rounds_length kws st : length (fold_left SHA256.round kws st) = length st.
Proof.
  revert st. induction kws as [|kw kws IH]; intros st; simpl; [reflexivity|].
  rewrite IH. apply round_length.
Qed.

Lemma compress_length h block : length (SHA256.compress h block) = length h.
Proof.
  unfold SHA256.compress. rewrite length_zip_with, rounds_length. lia.
Qed.

Lemma blocks_length n h bs : length (SHA256.blocks n h bs) = length h.
Proof.
  revert h bs. induction n as [|n IH]; intros h bs; simpl; [reflexivity|].
  rewrite IH. apply compress_length.
Qed.

(** A SHA-256 digest has 32 bytes. *)
Lemma sha256_length msg : length (SHA256.sha256 msg) = 32%nat.
Proof.
  unfold SHA256.sha256.
  pose proof (blocks_length (length (SHA256.pad msg) / 64) SHA256.H0 (SHA256.pad msg)) as Hl.
  change (length SHA256.H0) with 8%nat in Hl.
  destruct (SHA256.blocks _ _ _) as [|a [|b [|c [|d [|e [|f [|g [|h [|i rest]]]]]]]]];
    try discriminate Hl.
  reflexivity.
Qed.

Lemma sha256d_length msg : length (SHA256.sha256d msg) = 32%nat.
Proof. apply sha256_length. Qed.

Lemma NewHash_sha256d msg : NewHash (SHA256.sha256d msg) = Ok (SHA256.sha256d msg).
Proof. unfold NewHash. rewrite sha256d_length. reflexivity. Qed.

Lemma fromHexChar_hexdigit d : 0 <= d < 16 -> fromHexChar (hexdigit d) = Some d.
Proof.
  intros Hd.
  assert (Hcases : d = 0 \/ d = 1 \/ d = 2 \/ d = 3 \/ d = 4 \/ d = 5 \/ d = 6 \/ d = 7
                   \/ d = 8 \/ d = 9 \/ d = 10 \/ d = 11 \/ d = 12 \/ d = 13 \/ d = 14
                   \/ d = 15) by lia.
  repeat (destruct Hcases as [-> | Hcases]; [reflexivity|]). subst d. reflexivity.
Qed.

(** Decoding the hex of a byte string gives the byte string back. *)
Lemma DecodeString_EncodeToString bs :
  wfBytes bs -> DecodeString (EncodeToString bs) = Some bs.
Proof.
  induction 1 as [|b bs Hb _ IH]; [reflexivity|].
  cbn [EncodeToString DecodeString].
  rewrite !fromHexChar_hexdigit, IH.
  - f_equal. f_equal. pose proof (Z.div_mod b 16). lia.
  - apply Z.mod_pos_bound. lia.
  - split; [apply Z.div_pos; lia | apply Z.div_lt_upper_bound; lia].
Qed.

Lemma fromHexChar_range c d : fromHexChar c = Some d -> 0 <= d < 16.
Proof.
  unfold fromHexChar. intros Hd.
  repeat match type of Hd with
         | (if ?b then _ else _) = _ => destruct b eqn:?; [injection Hd as <-; lia|]
         end.
  discriminate.
Qed.

Lemma DecodeString_Some_aux s :
  (forall bs, DecodeString s = Some bs ->
     String.length s = (2 * length bs)%nat /\ wfBytes bs)
  /\ (forall c bs, DecodeString (String c s) = Some bs ->
       String.length (String c s) = (2 * length bs)%nat /\ wfBytes bs).
Proof.
  induction s as [|a s [IH1 IH2]].
  - split; [|discriminate]. intros bs Heq. injection Heq as <-.
    split; [reflexivity | constructor].
  - split; [exact (IH2 a)|]. intros c bs. cbn [DecodeString].
    destruct (fromHexChar c) as [h|] eqn:H1; [|discriminate].
    destruct (fromHexChar a) as [l|] eqn:H2; [|discriminate].
    destruct (DecodeString s) as [bs'|] eqn:Hrest; [|discriminate].
    intros Heq. injection Heq as <-.
    destruct (IH1 bs' eq_refl) as [Hlen Hwf].
    apply fromHexChar_range in H1, H2.
    split; [simpl in *; lia|]. constructor; [lia | exact Hwf].
Qed.

(** A hex string that decodes has two digits per byte, and decodes to
    byte values. *)
Lemma DecodeString_Some s bs :
  DecodeString s = Some bs ->
  String.length s = (2 * length bs)%nat /\ wfBytes bs.
Proof. apply DecodeString_Some_aux. Qed.

(** ** Construction of the chain jobs *)

Section ChainJobs.
Context `{Externals}.

Lemma decodeTransactions_Ok txs decoded :
  decodeTransactions txs = Ok decoded ->
  Forall2 (fun tx d => DecodeString tx = Some d) txs decoded.
Proof.
  revert decoded. induction txs as [|tx rest IH]; intros decoded; simpl.
  - intros Heq. injection Heq as <-. constructor.
  - unfold decodeHex. destruct (DecodeString tx) as [d|] eqn:Hd; simpl; [|discriminate].
    destruct (decodeTransactions rest) as [ds|e]; simpl; [|discriminate].
    intros Heq. injection Heq as <-. constructor; [exact Hd | apply IH; reflexivity].
Qed.

Lemma decodeTransactions_decodes txs :
  Forall (fun tx => is_Some (DecodeString tx)) txs ->
  exists decoded, decodeTransactions txs = Ok decoded.
Proof.
  induction 1 as [|tx rest [d Hd] _ [ds IH]]; simpl; [eauto|].
  unfold decodeHex. rewrite Hd. simpl. rewrite IH. simpl. eauto.
Qed.

Lemma decodeHex_Ok s msg bs : decodeHex s msg = Ok bs <-> DecodeString s = Some bs.
Proof.
  unfold decodeHex. destruct (DecodeString s); split; intros Heq;
    try discriminate; injection Heq as <-; reflexivity.
Qed.

Lemma wrap_Ok {A : Type} msg (c : result A) a : wrap msg c = Ok a <-> c = Ok a.
Proof. destruct c; simpl; split; intros Heq; try discriminate; exact Heq. Qed.

Lemma PutUint32_length v : length (PutUint32 v) = 4%nat.
Proof. reflexivity. Qed.

(** The bytes of [PutUint32] read back as the word, reduced to 32 bits. *)
Lemma le32_PutUint32 v : le32 (PutUint32 v) = v mod 2 ^ 32.
Proof.
  unfold le32, PutUint32, be_combine. simpl.
  change (2 ^ 8) with 256. change (2 ^ 16) with (256 * 256).
  change (2 ^ 24) with (256 * 256 * 256).
  change (2 ^ 32) with (256 * (256 * (256 * 256))).
  rewrite <- !Z.div_div by lia.
  rewrite (Z.rem_mul_r v 256 (256 * (256 * 256))) by lia.
  rewrite (Z.rem_mul_r (v / 256) 256 (256 * 256)) by lia.
  rewrite (Z.rem_mul_r (v / 256 / 256) 256 256) by lia.
  lia.
Qed.

Lemma bind_Ok_l {A B : Type} (c : result A) (f : A -> result B) (a : A) :
  c = Ok a -> c ≫= f = f a.
Proof. intros ->. reflexivity. Qed.

(** What a successful [NewMainChainJob] went through. *)
Lemma NewMainChainJob_built tmpl config algo job :
  NewMainChainJob tmpl config algo = Ok job ->
  exists target prev bits txs,
    getTarget tmpl = Ok target
    /\ DecodeString (BlockTemplate.PreviousBlockhash tmpl) = Some prev
    /\ DecodeString (BlockTemplate.Bits tmpl) = Some bits
    /\ decodeTransactions (BlockTemplate.Transactions tmpl) = Ok txs
    /\ job = MainChainJob.mk config (BlockTemplate.CoinbaseValue tmpl)
               (BlockTemplate.Height tmpl) (rev bits)
               (PutUint32 (uint32 (BlockTemplate.CurTime tmpl)))
               (PutUint32 (setAlgoVersion (uint32 (BlockTemplate.Version tmpl)) config algo))
               (rev prev) [] [] (tmplMerkleBranch tmpl) target txs true.
Proof.
  intros Hnew. unfold NewMainChainJob in Hnew. cbv zeta in Hnew.
  apply bind_Ok in Hnew as (target & Ht & Hnew). apply wrap_Ok in Ht.
  apply bind_Ok in Hnew as (prev & Hp & Hnew). apply decodeHex_Ok in Hp.
  apply bind_Ok in Hnew as (bits & Hb & Hnew). apply decodeHex_Ok in Hb.
  apply bind_Ok in Hnew as (txs & Htx & Hnew).
  injection Hnew as <-. unfold ReverseBytes. eauto 10.
Qed.

(** X1: [NewMainChainJob] returns a job exactly when the target can be
    derived and the previous block hash, the bits and every transaction
    of the template are hex strings; the job then has [cleanJobs] set,
    no coinbase yet, 4-byte version and time, and the previous block
    hash and bits of the template with their bytes reversed. *)
Theorem NewMainChainJob_succeeds (tmpl : BlockTemplate.t) (config : ChainConfig.t)
    (algo : Algo.t) :
  ((exists job, NewMainChainJob tmpl config algo = Ok job)
   <-> (exists target, getTarget tmpl = Ok target) /\ templateDecodes tmpl)
  /\ forall job,
       NewMainChainJob tmpl config algo = Ok job ->
       getTarget tmpl = Ok (MainChainJob.target job)
       /\ DecodeString (BlockTemplate.PreviousBlockhash tmpl)
          = Some (rev (MainChainJob.prevBlockHash job))
       /\ DecodeString (BlockTemplate.Bits tmpl) = Some (rev (MainChainJob.bits job))
       /\ Forall2 (fun tx d => DecodeString tx = Some d)
                  (BlockTemplate.Transactions tmpl) (MainChainJob.transactions job)
       /\ le32 (MainChainJob.version job)
          = setAlgoVersion (uint32 (BlockTemplate.Version tmpl)) config algo mod 2 ^ 32
       /\ length (MainChainJob.version job) = 4%nat
       /\ MainChainJob.time job = PutUint32 (uint32 (BlockTemplate.CurTime tmpl))
       /\ MainChainJob.height job = BlockTemplate.Height tmpl
       /\ MainChainJob.subsidy job = BlockTemplate.CoinbaseValue tmpl
       /\ MainChainJob.cleanJobs job = true
       /\ MainChainJob.coinbase1 job = [] /\ MainChainJob.coinbase2 job = [].
Proof.
  pose proof (NewMainChainJob_built tmpl config algo) as Hfields.
  split.
  - split.
    + intros [job Hnew].
      destruct (Hfields job Hnew) as (target & prev & bits & txs & Ht & Hp & Hb & Htx & _).
      split; [eauto|]. unfold templateDecodes. rewrite Hp, Hb. repeat split; eauto.
      apply decodeTransactions_Ok in Htx. clear -Htx.
      induction Htx; constructor; eauto.
    + intros [[target Ht] ([prev Hp] & [bits Hb] & Htx)].
      apply decodeTransactions_decodes in Htx as [txs Htx].
      unfold NewMainChainJob. rewrite Ht. cbn [wrap].
      erewrite bind_Ok_l by reflexivity. cbv zeta.
      erewrite (bind_Ok_l (decodeHex (BlockTemplate.PreviousBlockhash tmpl) _))
        by (apply decodeHex_Ok; exact Hp).
      erewrite (bind_Ok_l (decodeHex (BlockTemplate.Bits tmpl) _))
        by (apply decodeHex_Ok; exact Hb).
      rewrite Htx. erewrite bind_Ok_l by reflexivity. eauto.
  - intros job Hnew.
    destruct (Hfields job Hnew) as (target & prev & bits & txs & Ht & Hp & Hb & Htx & ->).
    cbn [MainChainJob.target MainChainJob.prevBlockHash MainChainJob.bits
         MainChainJob.transactions MainChainJob.version MainChainJob.time
         MainChainJob.height MainChainJob.subsidy MainChainJob.cleanJobs
         MainChainJob.coinbase1 MainChainJob.coinbase2].
    rewrite !rev_involutive.
    repeat split; try assumption; try reflexivity.
    + apply decodeTransactions_Ok. exact Htx.
    + apply le32_PutUint32.
Qed.

(** What a successful [NewAuxChainJob] went through. *)
Lemma NewAuxChainJob_fields tmpl config algo job :
  NewAuxChainJob tmpl config algo = Ok job ->
  exists target prev coinbase bits txs,
    getTarget tmpl = Ok target
    /\ DecodeString (BlockTemplate.PreviousBlockhash tmpl) = Some prev
    /\ createCoinbase tmpl config [] = Ok coinbase
    /\ DecodeString (BlockTemplate.Bits tmpl) = Some bits
    /\ decodeTransactions (BlockTemplate.Transactions tmpl) = Ok txs
    /\ BlockTemplate.ChainID tmpl <> 0
    /\ let blkHeader :=
         PutUint32 (setAlgoVersion (auxVersion tmpl) config algo) ++ rev prev
         ++ tmplMerkleRoot tmpl (SHA256.sha256d coinbase)
         ++ PutUint32 (uint32 (BlockTemplate.CurTime tmpl)) ++ rev bits ++ [0; 0; 0; 0] in
       job = AuxChainJob.mk config (BlockTemplate.CoinbaseValue tmpl)
               (BlockTemplate.Height tmpl) (SHA256.sha256d blkHeader) blkHeader
               (BlockTemplate.ChainID tmpl) [] 0 txs coinbase (SHA256.sha256d coinbase)
               target.
Proof.
  intros Hnew. unfold NewAuxChainJob in Hnew. cbv zeta in Hnew.
  apply bind_Ok in Hnew as (target & Ht & Hnew). apply wrap_Ok in Ht.
  apply bind_Ok in Hnew as (prev & Hp & Hnew). apply decodeHex_Ok in Hp.
  apply bind_Ok in Hnew as (coinbase & Hc & Hnew).
  apply bind_Ok in Hnew as (bits & Hb & Hnew). apply decodeHex_Ok in Hb.
  apply bind_Ok in Hnew as (hashObj & Hh & Hnew).
  apply bind_Ok in Hnew as (txs & Htx & Hnew).
  destruct (Z.eqb_spec (BlockTemplate.ChainID tmpl) 0) as [|Hid]; [discriminate|].
  injection Hnew as <-.
  unfold Hasher.sum, Hasher.reset, Hasher.write, Hasher.new in *.
  rewrite NewHash_sha256d in Hh. injection Hh as <-.
  exists target, prev, coinbase, bits, txs.
  repeat (split; [assumption|]).
  unfold ReverseBytes, auxVersion. cbn [app]. rewrite <- !app_assoc. reflexivity.
Qed.

(** X2: [NewAuxChainJob] returns a job exactly when the target can be
    derived, the hex fields of the template decode, the coinbase can be
    built and the chain id is not 0; the check of the hash length never
    fails. *)
Theorem NewAuxChainJob_succeeds (tmpl : BlockTemplate.t) (config : ChainConfig.t)
    (algo : Algo.t) :
  (exists job, NewAuxChainJob tmpl config algo = Ok job)
  <-> (exists target, getTarget tmpl = Ok target)
      /\ templateDecodes tmpl
      /\ (exists coinbase, createCoinbase tmpl config [] = Ok coinbase)
      /\ BlockTemplate.ChainID tmpl <> 0.
Proof.
  split.
  - intros [job Hnew].
    destruct (NewAuxChainJob_fields _ _ _ _ Hnew)
      as (target & prev & coinbase & bits & txs & Ht & Hp & Hc & Hb & Htx & Hid & _).
    split; [eauto|]. split; [|eauto].
    unfold templateDecodes. rewrite Hp, Hb. repeat split; eauto.
    apply decodeTransactions_Ok in Htx. clear -Htx. induction Htx; constructor; eauto.
  - intros ([target Ht] & ([prev Hp] & [bits Hb] & Htx) & [coinbase Hc] & Hid).
    apply decodeTransactions_decodes in Htx as [txs Htx].
    unfold NewAuxChainJob. rewrite Ht. cbn [wrap].
    erewrite bind_Ok_l by reflexivity. cbv zeta.
    erewrite (bind_Ok_l (decodeHex (BlockTemplate.PreviousBlockhash tmpl) _))
      by (apply decodeHex_Ok; exact Hp).
    rewrite Hc. erewrite bind_Ok_l by reflexivity.
    erewrite (bind_Ok_l (decodeHex (BlockTemplate.Bits tmpl) _))
      by (apply decodeHex_Ok; exact Hb).
    unfold Hasher.sum. rewrite NewHash_sha256d. erewrite bind_Ok_l by reflexivity.
    rewrite Htx. erewrite bind_Ok_l by reflexivity.
    destruct (Z.eqb_spec (BlockTemplate.ChainID tmpl) 0); [contradiction | eauto].
Qed.

Lemma lor_below a b n :
  0 <= n -> 0 <= a < 2 ^ n -> 0 <= b < 2 ^ n -> 0 <= Z.lor a b < 2 ^ n.
Proof.
  intros Hn Ha Hb.
  assert (Hnn : 0 <= Z.lor a b) by (apply Z.lor_nonneg; lia).
  split; [exact Hnn|].
  destruct (decide (Z.lor a b = 0)) as [->|Hne]; [lia|].
  apply Z.log2_lt_pow2; [lia|]. rewrite Z.log2_lor by lia.
  assert (Hlog : forall x, 0 <= x < 2 ^ n -> Z.lor a b <> 0 -> Z.log2 x < n).
  { intros x Hx _. destruct (decide (x = 0)) as [->|Hx0].
    - change (Z.log2 0) with 0. destruct (decide (n = 0)) as [->|]; [|lia].
      exfalso. apply Hne. change (2 ^ 0) with 1 in *.
      replace a with 0 by lia. replace b with 0 by lia. reflexivity.
    - apply Z.log2_lt_pow2; lia. }
  apply Z.max_lub_lt; apply Hlog; assumption.
Qed.

Lemma testbit_uint32' x i : 0 <= i -> Z.testbit (uint32 x) i = (i <? 32) && Z.testbit x i.
Proof. intros Hi. unfold uint32. apply Z.testbit_mod_pow2. lia. Qed.

(** X3: the aux chain job that [NewAuxChainJob] returns is consistent:
    its header hash is the double SHA-256 of its block header and has 32
    bytes, its coinbase hash that of its coinbase, its chain id is the
    template's and not 0, and it has no blockchain branch yet.  On a
    chain without multi-algo rewrite the version word at the head of the
    block header has the AuxPoW flag, bit 8, set and every bit of the
    chain id's low 16 bits set in bits 16 to 31. *)
Theorem NewAuxChainJob_consistent (tmpl : BlockTemplate.t) (config : ChainConfig.t)
    (algo : Algo.t) (job : AuxChainJob.t) :
  NewAuxChainJob tmpl config algo = Ok job ->
  AuxChainJob.headerHash job = SHA256.sha256d (AuxChainJob.blockHeader job)
  /\ length (AuxChainJob.headerHash job) = 32%nat
  /\ AuxChainJob.coinbaseHash job = SHA256.sha256d (AuxChainJob.coinbase job)
  /\ createCoinbase tmpl config [] = Ok (AuxChainJob.coinbase job)
  /\ AuxChainJob.chainID job = BlockTemplate.ChainID tmpl
  /\ AuxChainJob.chainID job <> 0
  /\ AuxChainJob.blockchainMerkleBranch job = []
  /\ AuxChainJob.blockchainMerkleMask job = 0
  /\ (ChainConfig.MultiAlgo config = false ->
      le32 (take 4 (AuxChainJob.blockHeader job)) = auxVersion tmpl
      /\ Z.testbit (le32 (take 4 (AuxChainJob.blockHeader job))) 8 = true
      /\ forall i, 0 <= i < 16 ->
           Z.testbit (BlockTemplate.ChainID tmpl) i = true ->
           Z.testbit (le32 (take 4 (AuxChainJob.blockHeader job))) (16 + i) = true).
Proof.
  intros Hnew.
  destruct (NewAuxChainJob_fields _ _ _ _ Hnew)
    as (target & prev & coinbase & bits & txs & Ht & Hp & Hc & Hb & Htx & Hid & Hjob).
  cbv zeta in Hjob. subst job.
  cbn [AuxChainJob.headerHash AuxChainJob.blockHeader AuxChainJob.coinbaseHash
       AuxChainJob.coinbase AuxChainJob.chainID AuxChainJob.blockchainMerkleBranch
       AuxChainJob.blockchainMerkleMask].
  split; [reflexivity|]. split; [apply sha256d_length|].
  split; [reflexivity|]. split; [exact Hc|]. split; [reflexivity|].
  split; [exact Hid|]. split; [reflexivity|]. split; [reflexivity|].
  intros Hmulti.
  assert (Hword : le32 (take 4 (PutUint32 (setAlgoVersion (auxVersion tmpl) config algo)
                                ++ rev prev
                                ++ tmplMerkleRoot tmpl (SHA256.sha256d coinbase)
                                ++ PutUint32 (uint32 (BlockTemplate.CurTime tmpl))
                                ++ rev bits ++ [0; 0; 0; 0]))
                  = auxVersion tmpl).
  { rewrite take_app_length' by reflexivity.
    rewrite le32_PutUint32. unfold setAlgoVersion. rewrite Hmulti.
    apply Z.mod_small. unfold auxVersion. change (Z.shiftl 1 8) with 256.
    assert (Hb32 : forall x, 0 <= uint32 x < 2 ^ 32)
      by (intros x; apply Z.mod_pos_bound; lia).
    apply lor_below; [lia | | apply Hb32].
    apply lor_below; [lia | apply Hb32 | lia]. }
  rewrite Hword. split; [reflexivity|]. unfold auxVersion. split.
  - rewrite !Z.lor_spec. change (Z.testbit (Z.shiftl 1 8) 8) with true.
    rewrite orb_true_r. reflexivity.
  - intros i Hi Hbit. rewrite Z.lor_spec. apply orb_true_iff. right.
    rewrite testbit_uint32' by lia. rewrite Z.shiftl_spec by lia.
    replace (16 + i - 16) with i by lia. rewrite testbit_uint32' by lia.
    rewrite Hbit. destruct (Z.ltb_spec (16 + i) 32); [|lia].
    destruct (Z.ltb_spec i 32); [|lia]. reflexivity.
Qed.

End ChainJobs.

Lemma NewAuxChainJob_consistent_witness :
  exists job,
    NewAuxChainJob (H := exampleExternals) tmplNMC cfgNMC algoSha = Ok job
    /\ AuxChainJob.headerHash job = SHA256.sha256d (AuxChainJob.blockHeader job)
    /\ Z.testbit (le32 (take 4 (AuxChainJob.blockHeader job))) 8 = true.
Proof.
  destruct (NewAuxChainJob (H := exampleExternals) tmplNMC cfgNMC algoSha)
    as [job|e] eqn:E; [|exfalso; vm_compute in E; discriminate E].
  exists job. split; [reflexivity|].
  destruct (NewAuxChainJob_consistent (H := exampleExternals) _ _ _ _ E)
    as (Hhash & _ & _ & _ & _ & _ & _ & _ & Hflag).
  split; [exact Hhash|]. apply Hflag. reflexivity.
Defined.

(** ** Headers and stratum parameters *)

Lemma merkleRootFrom_length rootHash branch :
  length rootHash = 32%nat -> length (merkleRootFrom rootHash branch) = 32%nat.
Proof.
  revert rootHash. induction branch as [|b rest IH]; intros r Hr; simpl; [exact Hr|].
  apply IH. apply sha256d_length.
Qed.

Lemma GetBlockHeader_length (j : MainChainJob.t) nonce coinbaseHash :
  headerWidths j -> length nonce = 4%nat -> length coinbaseHash = 32%nat ->
  length (GetBlockHeader j nonce coinbaseHash) = 80%nat.
Proof.
  intros (Hv & Hp & Ht & Hb) Hn Hc. rewrite GetBlockHeader_root.
  rewrite !length_app, Hv, Hp, Ht, Hb, Hn, merkleRootFrom_length by exact Hc.
  reflexivity.
Qed.

(** X4: for a main chain job built from a template whose previous block
    hash has 64 hex digits and whose bits have 8, whatever coinbase
    halves are put in later, the header assembled for a 4-byte nonce and
    a coinbase hash has exactly 80 bytes. *)
Theorem GetBlockHeader_80_bytes `{Externals} (tmpl : BlockTemplate.t)
    (config : ChainConfig.t) (algo : Algo.t) (job : MainChainJob.t)
    (coinbase1 coinbase2 nonce coinbase : bytes) :
  NewMainChainJob tmpl config algo = Ok job ->
  String.length (BlockTemplate.PreviousBlockhash tmpl) = 64%nat ->
  String.length (BlockTemplate.Bits tmpl) = 8%nat ->
  length nonce = 4%nat ->
  length (GetBlockHeader (MainChainJob.set_coinbase coinbase1 coinbase2 job) nonce
            (SHA256.sha256d coinbase)) = 80%nat.
Proof.
  intros Hnew Hprev Hbits Hnonce.
  destruct (NewMainChainJob_built _ _ _ _ Hnew)
    as (target & prev & bits & txs & _ & Hp & Hb & _ & ->).
  apply DecodeString_Some in Hp as [Hp _]. apply DecodeString_Some in Hb as [Hb _].
  apply GetBlockHeader_length; [|exact Hnonce | apply sha256d_length].
  unfold headerWidths. cbn [MainChainJob.set_coinbase MainChainJob.version
    MainChainJob.prevBlockHash MainChainJob.time MainChainJob.bits].
  rewrite !length_rev. repeat split; try reflexivity; lia.
Qed.

Lemma GetBlockHeader_80_bytes_witness :
  exists job,
    NewMainChainJob (H := exampleExternals) tmplNMC cfgBTC algoSha = Ok job
    /\ length (GetBlockHeader (MainChainJob.set_coinbase [1; 2] [3] job) [0; 0; 0; 42]
                 (SHA256.sha256d [1; 2; 0xaa; 3])) = 80%nat.
Proof.
  destruct (NewMainChainJob (H := exampleExternals) tmplNMC cfgBTC algoSha)
    as [job|e] eqn:E; [|exfalso; vm_compute in E; discriminate E].
  exists job. split; [reflexivity|].
  apply (GetBlockHeader_80_bytes (H := exampleExternals) tmplNMC cfgBTC algoSha job);
    [exact E | reflexivity | reflexivity | reflexivity].
Defined.

(** X5: for a job whose header fields have the block-header widths,
    [GetStratum2Params] returns the one entry "blob", the hex of version,
    previous block hash, merkle root, time and bits: the 76 bytes before
    the nonce of the very header that the extranonce check hashes for the
    same extranonce1 with a zero extranonce2, whatever the nonce. *)
Theorem GetStratum2Params_blob (j : Job) (extranonce1 : bytes) :
  headerWidths (main j) ->
  let coinbase :=
    MainChainJob.coinbase1 (main j) ++ extranonce1 ++ [0; 0; 0; 0]
    ++ MainChainJob.coinbase2 (main j) in
  let blob :=
    MainChainJob.version (main j) ++ MainChainJob.prevBlockHash (main j)
    ++ merkleRootFrom (SHA256.sha256d coinbase) (MainChainJob.merkleBranch (main j))
    ++ MainChainJob.time (main j) ++ MainChainJob.bits (main j) in
  GetStratum2Params j extranonce1 = Some (Ok {[ "blob" := EncodeToString blob ]})
  /\ length blob = 76%nat
  /\ forall nonce nTime,
       solveHeader j (SDExtranonce (ExtranonceSolve.mk nonce nTime [0; 0; 0; 0] extranonce1))
       = Some (blob ++ nonce).
Proof.
  intros (Hv & Hp & Ht & Hb) coinbase blob.
  assert (Hlen : length blob = 76%nat).
  { unfold blob. rewrite !length_app, Hv, Hp, Ht, Hb, merkleRootFrom_length
      by apply sha256d_length. reflexivity. }
  assert (Hheader : forall nonce,
    GetBlockHeader (main j) nonce (SHA256.sha256d coinbase) = blob ++ nonce).
  { intros nonce. rewrite GetBlockHeader_root. unfold blob.
    rewrite <- !app_assoc. reflexivity. }
  split; [|split; [exact Hlen|]].
  - unfold GetStratum2Params, Hasher.sum, Hasher.write, Hasher.new. cbn [app].
    replace (((MainChainJob.coinbase1 (main j) ++ extranonce1) ++ [0; 0; 0; 0])
             ++ MainChainJob.coinbase2 (main j)) with coinbase
      by (unfold coinbase; rewrite <- !app_assoc; reflexivity).
    rewrite Hheader. unfold slicePrefix.
    rewrite length_app, Hlen. cbn [length Nat.add Nat.leb].
    rewrite take_app_length' by (symmetry; exact Hlen). reflexivity.
  - intros nonce nTime. unfold solveHeader.
    cbn [ExtranonceSolve.extraNonce1 ExtranonceSolve.extraNonce2 ExtranonceSolve.nonce].
    fold coinbase. rewrite Hheader. reflexivity.
Qed.

Lemma GetStratum2Params_blob_witness :
  headerWidths (main jobZEC)
  /\ exists blob,
       GetStratum2Params jobZEC [0xaa; 0; 0; 1] = Some (Ok {[ "blob" := blob ]})
       /\ String.length blob = 152%nat.
Proof.
  assert (Hw : headerWidths (main jobZEC)) by (repeat split).
  split; [exact Hw|].
  destruct (GetStratum2Params_blob jobZEC [0xaa; 0; 0; 1] Hw) as (Hblob & _ & _).
  eexists. split; [exact Hblob|]. vm_compute. reflexivity.
Defined.

Lemma mapM_DecodeString_EncodeToString (l : list bytes) :
  Forall wfBytes l -> mapM DecodeString (map EncodeToString l) = Some l.
Proof.
  induction 1 as [|bs l Hbs _ IH]; [reflexivity|].
  cbn [map mapM]. rewrite DecodeString_EncodeToString by exact Hbs.
  simpl. rewrite IH. reflexivity.
Qed.

(** X6: the strings of [GetStratumParams] decode back to the job's
    fields: previous block hash, coinbase halves, each merkle branch
    element, version, bits and time, in this order, followed by the
    [cleanJobs] flag. *)
Theorem GetStratumParams_decode (j : Job) :
  Forall wfBytes
    (MainChainJob.prevBlockHash (main j) :: MainChainJob.coinbase1 (main j)
     :: MainChainJob.coinbase2 (main j) :: MainChainJob.version (main j)
     :: MainChainJob.bits (main j) :: MainChainJob.time (main j)
     :: MainChainJob.merkleBranch (main j)) ->
  exists params,
    GetStratumParams j = Ok params
    /\ decodeNotify <$> params
       = [ Some [MainChainJob.prevBlockHash (main j)];
           Some [MainChainJob.coinbase1 (main j)];
           Some [MainChainJob.coinbase2 (main j)];
           Some (MainChainJob.merkleBranch (main j));
           Some [MainChainJob.version (main j)];
           Some [MainChainJob.bits (main j)];
           Some [MainChainJob.time (main j)];
           None ]
    /\ params !! 7%nat = Some (NBool (MainChainJob.cleanJobs (main j))).
Proof.
  intros Hwf.
  apply Forall_cons in Hwf as [Hp Hwf]. apply Forall_cons in Hwf as [Hc1 Hwf].
  apply Forall_cons in Hwf as [Hc2 Hwf]. apply Forall_cons in Hwf as [Hv Hwf].
  apply Forall_cons in Hwf as [Hb Hwf]. apply Forall_cons in Hwf as [Ht Hbr].
  eexists. split; [reflexivity|]. split; [|reflexivity].
  cbn [fmap list_fmap decodeNotify].
  rewrite !DecodeString_EncodeToString by assumption.
  rewrite mapM_DecodeString_EncodeToString by exact Hbr. reflexivity.
Qed.

Lemma GetStratumParams_decode_witness :
  exists params,
    GetStratumParams jobZEC = Ok params
    /\ decodeNotify <$> params !! 3%nat = Some (Some [repeat 0xab 32])
    /\ params !! 7%nat = Some (NBool true).
Proof.
  destruct (GetStratumParams_decode jobZEC) as (params & Hparams & Hdec & Hflag).
  - repeat constructor; lia.
  - exists params. split; [exact Hparams|]. split; [|exact Hflag].
    rewrite <- list_lookup_fmap, Hdec. reflexivity.
Defined.

(** ** Solve verification, continued *)

Section MoreSolves.
Context `{Externals}.

(** [CheckSolves] as one expression of the header, the coinbase and the
    algorithm of the submission. *)
Lemma CheckSolves_unfold (j : Job) (sd : solveData) (shareTarget : option Z) :
  CheckSolves j sd shareTarget
  = match solveHeader j sd with
    | None => Err (New "Unrecognized solve data")
    | Some header =>
        headerHsh ← Algo.PoWHash (solveAlgo j sd) header;
        hashObj ← NewHash headerHsh;
        Ok (compareTargets j (solveCoinbase j sd) (SHA256.sha256d (solveCoinbase j sd))
              header headerHsh (HashToBig hashObj) shareTarget)
    end.
Proof.
  destruct sd as [v|v|]; [| |reflexivity].
  - unfold CheckSolves, checkExtranonceSolve, solveHeader, solveCoinbase, solveAlgo.
    unfold Hasher.sum, Hasher.write, Hasher.new. cbn [app].
    rewrite <- !app_assoc. reflexivity.
  - unfold CheckSolves, checkSolSolve, solveHeader, solveCoinbase, solveAlgo.
    unfold Hasher.reset. rewrite walkBranch_fresh.
    unfold Hasher.sum, Hasher.write, Hasher.new, zcashCoinbase. cbn [app].
    rewrite <- !app_assoc. reflexivity.
Qed.

Lemma NewHash_Ok bs hashObj : NewHash bs = Ok hashObj <-> length bs = 32%nat /\ hashObj = bs.
Proof.
  unfold NewHash. destruct (Nat.eqb_spec (length bs) 32); split.
  - intros Heq. injection Heq as <-. auto.
  - intros [_ ->]. reflexivity.
  - discriminate.
  - intros [Hl _]. contradiction.
Qed.

(** X7: [CheckSolves] returns an error exactly when the solve data is of
    neither known type, or the proof-of-work hash of the header fails or
    is not 32 bytes long.  For an [ExtranonceSolve] that header is built
    from the job's own time: the submitted [nTime] is never read. *)
Theorem CheckSolves_errors (j : Job) (sd : solveData) (shareTarget : option Z) :
  ((exists e, CheckSolves j sd shareTarget = Err e)
   <-> match solveHeader j sd with
       | None => True
       | Some header =>
           match Algo.PoWHash (solveAlgo j sd) header with
           | Err _ => True
           | Ok headerHsh => length headerHsh <> 32%nat
           end
       end)
  /\ (solveHeader j sd = None <-> sd = SDOther)
  /\ forall v,
       sd = SDExtranonce v ->
       solveHeader j sd
       = Some (MainChainJob.version (main j) ++ MainChainJob.prevBlockHash (main j)
               ++ merkleRootFrom (SHA256.sha256d (solveCoinbase j sd))
                                 (MainChainJob.merkleBranch (main j))
               ++ MainChainJob.time (main j) ++ MainChainJob.bits (main j)
               ++ ExtranonceSolve.nonce v).
Proof.
  split; [|split].
  - rewrite CheckSolves_unfold. destruct (solveHeader j sd) as [header|].
    + destruct (Algo.PoWHash (solveAlgo j sd) header) as [headerHsh|e]; simpl.
      * unfold NewHash. destruct (Nat.eqb_spec (length headerHsh) 32); simpl.
        -- split; [intros [e' He]; discriminate | contradiction].
        -- split; [auto | eauto].
      * split; [auto | eauto].
    + split; [auto | eauto].
  - destruct sd; simpl; split; intros Heq; try discriminate; reflexivity.
  - intros v ->. unfold solveHeader, solveCoinbase. rewrite GetBlockHeader_root.
    reflexivity.
Qed.

Lemma compareTargets_share (j : Job) coinbase coinbaseHash header headerHsh
    (bigHsh : Z) (shareTarget shareTarget' : option Z) :
  (compareTargets j coinbase coinbaseHash header headerHsh bigHsh shareTarget).1.1
  = (compareTargets j coinbase coinbaseHash header headerHsh bigHsh shareTarget').1.1
  /\ (compareTargets j coinbase coinbaseHash header headerHsh bigHsh shareTarget).2
     = (compareTargets j coinbase coinbaseHash header headerHsh bigHsh shareTarget').2.
Proof.
  unfold compareTargets. destruct (auxSolves _ _ _ _ _ _ _ _). split; reflexivity.
Qed.

(** X8: the block solves and the chains touched do not depend on the
    share target: with any other share target [CheckSolves] returns the
    same solves and chains, and with no share target at all the
    submission is never a valid share. *)
Theorem CheckSolves_share_target (j : Job) (sd : solveData) (shareTarget : option Z)
    (ret : gmap string BlockSolve.t) (validShare : bool) (currencies : list string) :
  CheckSolves j sd shareTarget = Ok (ret, validShare, currencies) ->
  (forall shareTarget', exists validShare',
      CheckSolves j sd shareTarget' = Ok (ret, validShare', currencies))
  /\ (shareTarget = None -> validShare = false)
  /\ CheckSolves j sd None = Ok (ret, false, currencies).
Proof.
  intros Hcheck. rewrite CheckSolves_unfold in Hcheck.
  destruct (solveHeader j sd) as [header|] eqn:Hheader; [|discriminate].
  destruct (Algo.PoWHash (solveAlgo j sd) header) as [headerHsh|e] eqn:Hpow;
    simpl in Hcheck; [|discriminate].
  destruct (NewHash headerHsh) as [hashObj|e] eqn:Hhash; simpl in Hcheck; [|discriminate].
  injection Hcheck as Heq.
  assert (Hother : forall shareTarget', exists validShare',
    compareTargets j (solveCoinbase j sd) (SHA256.sha256d (solveCoinbase j sd)) header
      headerHsh (HashToBig hashObj) shareTarget' = (ret, validShare', currencies)).
  { intros shareTarget'.
    destruct (compareTargets_share j (solveCoinbase j sd)
                (SHA256.sha256d (solveCoinbase j sd)) header headerHsh (HashToBig hashObj)
                shareTarget shareTarget') as [Hret Hcur].
    rewrite Heq in Hret, Hcur. simpl in Hret, Hcur.
    destruct (compareTargets _ _ _ _ _ _ shareTarget') as [[ret' vs'] cur'].
    simpl in Hret, Hcur. subst ret' cur'. eauto. }
  assert (Hrun : forall shareTarget',
    CheckSolves j sd shareTarget'
    = Ok (compareTargets j (solveCoinbase j sd) (SHA256.sha256d (solveCoinbase j sd))
            header headerHsh (HashToBig hashObj) shareTarget')).
  { intros shareTarget'. rewrite CheckSolves_unfold, Hheader, Hpow. simpl.
    rewrite Hhash. reflexivity. }
  split; [|split].
  - intros shareTarget'. destruct (Hother shareTarget') as [vs' Hvs].
    exists vs'. rewrite Hrun, Hvs. reflexivity.
  - intros ->. apply compareTargets_spec in Heq as (Hshare & _).
    destruct validShare; [|reflexivity].
    destruct (proj1 Hshare eq_refl) as (t & Ht & _). discriminate.
  - destruct (Hother None) as [vs' Hnone]. rewrite Hrun, Hnone.
    apply compareTargets_spec in Hnone as (Hshare & _).
    destruct vs'; [|reflexivity].
    destruct (proj1 Hshare eq_refl) as (t & Ht & _). discriminate.
Qed.

(** X9: the third result of [CheckSolves] lists every chain code of the
    job, the main chain first and the aux chains in their order, whether
    solved or not, and every chain with a block solve is among them. *)
Theorem CheckSolves_currencies (j : Job) (sd : solveData) (shareTarget : option Z)
    (ret : gmap string BlockSolve.t) (validShare : bool) (currencies : list string) :
  CheckSolves j sd shareTarget = Ok (ret, validShare, currencies) ->
  currencies = chainCodes j
  /\ length currencies = S (length (auxChains j))
  /\ forall code, is_Some (ret !! code) -> code ∈ currencies.
Proof.
  intros Hcheck.
  apply CheckSolves_powInt in Hcheck
    as (bigHsh & coinbase & coinbaseHash & header & headerHsh & _ & Hr).
  symmetry in Hr. apply compareTargets_spec in Hr as (_ & Hsolved & _ & Hcur).
  assert (Hcodes : currencies = chainCodes j).
  { rewrite Hcur. unfold chainTargets, chainCodes.
    rewrite fmap_cons, <- list_fmap_compose. reflexivity. }
  split; [exact Hcodes|]. split.
  - rewrite Hcodes. unfold chainCodes. simpl. rewrite length_fmap. reflexivity.
  - intros code Hsome. apply Hsolved in Hsome as (c & Hin & <- & _).
    rewrite Hcur. apply list_elem_of_fmap_2. exact Hin.
Qed.

Lemma auxSolves_other (j : Job) coinbase headerHsh header (bigHsh : Z) auxs
    (ret : gmap string BlockSolve.t) currencies code :
  code ∉ auxCode <$> auxs ->
  (auxSolves j coinbase headerHsh header bigHsh auxs ret currencies).1 !! code
  = ret !! code.
Proof.
  revert ret currencies. induction auxs as [|mj rest IH]; intros ret currencies Hnotin;
    [reflexivity|].
  rewrite fmap_cons in Hnotin. apply not_elem_of_cons in Hnotin as [Hne Hnotin].
  simpl. rewrite IH by exact Hnotin. fold (auxCode mj).
  destruct (bigHsh <=? AuxChainJob.target mj); [|reflexivity].
  apply lookup_insert_ne. congruence.
Qed.

Lemma auxSolves_value (j : Job) coinbase headerHsh header (bigHsh : Z) auxs
    (ret : gmap string BlockSolve.t) currencies mj :
  NoDup (auxCode <$> auxs) -> mj ∈ auxs -> bigHsh <= AuxChainJob.target mj ->
  (auxSolves j coinbase headerHsh header bigHsh auxs ret currencies).1 !! auxCode mj
  = Some {| BlockSolve.data :=
              AuxGetBlock mj coinbase headerHsh (MainChainJob.merkleBranch (main j)) header;
            BlockSolve.subsidy := AuxChainJob.subsidy mj;
            BlockSolve.height := AuxChainJob.height mj;
            BlockSolve.coinbaseHash := AuxChainJob.coinbaseHash mj;
            BlockSolve.subsidyAddress :=
              ChainConfig.BlockSubsidyAddress (AuxChainJob.currencyConfig mj);
            BlockSolve.powalgo := "";
            BlockSolve.powhash := bigHsh;
            BlockSolve.target := AuxChainJob.target mj |}.
Proof.
  revert ret currencies. induction auxs as [|mj' rest IH]; intros ret currencies Hnd Hin Hle.
  - inversion Hin.
  - rewrite fmap_cons in Hnd. apply NoDup_cons in Hnd as [Hnotin Hnd].
    apply elem_of_cons in Hin as [<-|Hin].
    + simpl. rewrite auxSolves_other by exact Hnotin. fold (auxCode mj).
      destruct (Z.leb_spec bigHsh (AuxChainJob.target mj)); [|lia].
      apply lookup_insert_eq.
    + simpl. apply IH; assumption.
Qed.

(** X10: in a job whose chains have pairwise distinct codes, every chain
    whose target the PoW value meets gets its own block solve.  The main
    chain's block is the header that was hashed, the count of its
    transactions plus one, the coinbase that was hashed and the
    transactions; an aux chain's block starts with that chain's own block
    header, and its solve carries the aux chain's height, subsidy, target
    and coinbase hash and no algorithm name. *)
Theorem CheckSolves_block_solves (j : Job) (sd : solveData) (shareTarget : option Z)
    (ret : gmap string BlockSolve.t) (validShare : bool) (currencies : list string) :
  CheckSolves j sd shareTarget = Ok (ret, validShare, currencies) ->
  NoDup (chainCodes j) ->
  exists header headerHsh,
    solveHeader j sd = Some header
    /\ Algo.PoWHash (solveAlgo j sd) header = Ok headerHsh
    /\ (HashToBig headerHsh <= MainChainJob.target (main j) ->
        exists solve,
          ret !! mainCode j = Some solve
          /\ BlockSolve.data solve
             = header
               ++ WriteVarInt (Z.of_nat (length (MainChainJob.transactions (main j))) + 1)
               ++ solveCoinbase j sd ++ concat (MainChainJob.transactions (main j))
          /\ BlockSolve.coinbaseHash solve = SHA256.sha256d (solveCoinbase j sd)
          /\ BlockSolve.height solve = MainChainJob.height (main j)
          /\ BlockSolve.subsidy solve = MainChainJob.subsidy (main j)
          /\ BlockSolve.target solve = MainChainJob.target (main j)
          /\ BlockSolve.powalgo solve = Algo.Name (algo j))
    /\ (forall mj,
          mj ∈ auxChains j -> HashToBig headerHsh <= AuxChainJob.target mj ->
          exists solve,
            ret !! auxCode mj = Some solve
            /\ BlockSolve.data solve
               = AuxGetBlock mj (solveCoinbase j sd) headerHsh
                   (MainChainJob.merkleBranch (main j)) header
            /\ AuxChainJob.blockHeader mj `prefix_of` BlockSolve.data solve
            /\ BlockSolve.coinbaseHash solve = AuxChainJob.coinbaseHash mj
            /\ BlockSolve.height solve = AuxChainJob.height mj
            /\ BlockSolve.subsidy solve = AuxChainJob.subsidy mj
            /\ BlockSolve.target solve = AuxChainJob.target mj
            /\ BlockSolve.powalgo solve = "").
Proof.
  intros Hcheck Hnd. rewrite CheckSolves_unfold in Hcheck.
  destruct (solveHeader j sd) as [header|]; [|discriminate].
  destruct (Algo.PoWHash (solveAlgo j sd) header) as [headerHsh|e] eqn:Hpow;
    simpl in Hcheck; [|discriminate].
  destruct (NewHash headerHsh) as [hashObj|e] eqn:Hhash; simpl in Hcheck; [|discriminate].
  apply NewHash_Ok in Hhash as [_ ->].
  injection Hcheck as Heq. unfold compareTargets in Heq.
  destruct (auxSolves _ _ _ _ _ _ _ _) as [ret' cur'] eqn:Haux.
  injection Heq as <- _ _.
  pose proof (f_equal fst Haux) as Hret. simpl in Hret. subst ret'.
  unfold chainCodes in Hnd. apply NoDup_cons in Hnd as [Hmain Hnd].
  exists header, headerHsh. split; [reflexivity|]. split; [exact Hpow|]. split.
  - intros Hle. rewrite auxSolves_other by exact Hmain. fold (mainCode j).
    destruct (Z.leb_spec (HashToBig headerHsh) (MainChainJob.target (main j))); [|lia].
    eexists. split; [apply lookup_insert_eq|]. repeat split; reflexivity.
  - intros mj Hin Hle. eexists.
    split; [apply auxSolves_value; assumption|].
    cbn [BlockSolve.data BlockSolve.coinbaseHash BlockSolve.height BlockSolve.subsidy
         BlockSolve.target BlockSolve.powalgo].
    repeat split; try reflexivity. unfold AuxGetBlock. eexists. reflexivity.
Qed.

End MoreSolves.

Lemma CheckSolves_share_target_witness :
  exists ret currencies,
    CheckSolves (H := exampleExternals) jobAuxOnly solveE (Some 1)
    = Ok (ret, true, currencies)
    /\ CheckSolves (H := exampleExternals) jobAuxOnly solveE None
       = Ok (ret, false, currencies).
Proof.
  assert (Hvalid : match CheckSolves (H := exampleExternals) jobAuxOnly solveE (Some 1) with
                   | Ok (_, validShare, _) => validShare
                   | Err _ => false
                   end = true) by (vm_compute; reflexivity).
  destruct (CheckSolves (H := exampleExternals) jobAuxOnly solveE (Some 1))
    as [[[ret validShare] currencies]|e] eqn:E; [|discriminate Hvalid].
  subst validShare. exists ret, currencies. split; [reflexivity|].
  exact (proj2 (proj2 (CheckSolves_share_target (H := exampleExternals) _ _ _ _ _ _ E))).
Defined.

Lemma CheckSolves_currencies_witness :
  exists ret validShare,
    CheckSolves (H := exampleExternals) jobAuxOnly solveE (Some 1)
    = Ok (ret, validShare, ["BTC"; "NMC"]).
Proof.
  destruct (CheckSolves (H := exampleExternals) jobAuxOnly solveE (Some 1))
    as [[[ret validShare] currencies]|e] eqn:E; [|exfalso; vm_compute in E; discriminate E].
  exists ret, validShare.
  rewrite (proj1 (CheckSolves_currencies (H := exampleExternals) _ _ _ _ _ _ E)).
  reflexivity.
Defined.

Lemma CheckSolves_block_solves_witness :
  exists ret validShare currencies solve,
    CheckSolves (H := exampleExternals) jobAuxOnly solveE (Some 1)
    = Ok (ret, validShare, currencies)
    /\ ret !! "NMC" = Some solve
    /\ repeat 1 80 `prefix_of` BlockSolve.data solve
    /\ BlockSolve.height solve = 5.
Proof.
  destruct (CheckSolves (H := exampleExternals) jobAuxOnly solveE (Some 1))
    as [[[ret validShare] currencies]|e] eqn:E; [|exfalso; vm_compute in E; discriminate E].
  destruct (CheckSolves_block_solves (H := exampleExternals) _ _ _ _ _ _ E)
    as (header & headerHsh & Hheader & Hpow & _ & Haux).
  { vm_compute. repeat constructor; intros Hin; inversion Hin as [|? ? ? Hin']; subst.
    inversion Hin'. }
  destruct (Haux (auxChain cfgNMC 1 5 (2 ^ 256) (repeat 0x11 32)))
    as (solve & Hsolve & _ & Hprefix & _ & Hheight & _).
  { apply elem_of_cons. left. reflexivity. }
  { vm_compute in Hheader. injection Hheader as <-.
    vm_compute in Hpow. injection Hpow as <-. vm_compute. discriminate. }
  exists ret, validShare, currencies, solve. auto.
Defined.

(** ** The blockchain-merkle packer, continued *)

Lemma placed_size merkleSize auxs (merkleBase : gmap Z bytes) :
  fits merkleSize auxs merkleBase ->
  size (placed merkleSize auxs merkleBase) = (length auxs + size merkleBase)%nat.
Proof.
  revert merkleBase. induction auxs as [|mj rest IH]; intros base [Hnd Hfree];
    [reflexivity|].
  rewrite fmap_cons in Hnd. apply NoDup_cons in Hnd as [Hnotin Hnd].
  apply Forall_cons in Hfree as [Hhead Hfree].
  rewrite placed_cons, IH.
  - rewrite map_size_insert_None by exact Hhead. simpl. lia.
  - split; [exact Hnd|]. apply Forall_forall. intros mj' Hin.
    rewrite lookup_insert_ne.
    + rewrite Forall_forall in Hfree. apply Hfree. exact Hin.
    + intros Heq. apply Hnotin. rewrite Heq. apply list_elem_of_fmap_2. exact Hin.
Qed.

(** Pairwise distinct slots of a table of [m] entries are at most [m]. *)
Lemma slots_pigeonhole (m : Z) auxs :
  0 < m -> NoDup (slotIndex m <$> auxs) -> (length auxs <= Z.to_nat m)%nat.
Proof.
  intros Hm Hnd.
  rewrite <- (length_fmap (slotIndex m)), <- (length_seqZ 0 m).
  apply submseteq_length, NoDup_submseteq; [exact Hnd|].
  intros i Hin. apply list_elem_of_fmap in Hin as (mj & -> & _).
  apply elem_of_seqZ. unfold slotIndex.
  pose proof (Z.mod_pos_bound (slotFormula (AuxChainJob.chainID mj)) m Hm). lia.
Qed.

Lemma toSlice_lookup merkleSize (merkleBase : gmap Z bytes) (i : Z) :
  0 <= i < merkleSize ->
  toSlice merkleSize merkleBase !! Z.to_nat i = Some (merkleBase !! i).
Proof.
  intros Hi. unfold toSlice.
  change (map (fun i => merkleBase !! i) (seqZ 0 merkleSize))
    with ((fun i => merkleBase !! i) <$> seqZ 0 merkleSize).
  rewrite list_lookup_fmap, lookup_seqZ_lt by lia.
  simpl. f_equal. f_equal. lia.
Qed.

(** X11: when the packing loop completes, the slot table handed to the
    merkle helpers has exactly [merkleSize] entries, at least one per aux
    chain; each aux chain's header hash sits at the index of its slot and
    exactly as many slots are occupied as there are aux chains.  With at
    most one aux chain the table has the single slot 0. *)
Theorem packer_table_shape (fuel : nat) (auxs : list AuxChainJob.t)
    (merkleSize : Z) (merkleBase : gmap Z bytes) :
  merkleLoop fuel 0 1 auxs = Some (Done (merkleSize, merkleBase)) ->
  length (toSlice merkleSize merkleBase) = Z.to_nat merkleSize
  /\ (length auxs <= Z.to_nat merkleSize)%nat
  /\ size merkleBase = length auxs
  /\ (forall mj, mj ∈ auxs ->
        toSlice merkleSize merkleBase !! Z.to_nat (slotIndex merkleSize mj)
        = Some (Some (AuxChainJob.headerHash mj)))
  /\ ((length auxs <= 1)%nat -> merkleSize = 1).
Proof.
  intros Hrun.
  destruct (merkleLoop_done _ _ _ _ Hrun) as (k & Hk & Hsize & Hbase & Hd & Hmin).
  pose proof (pow2_bounds k Hk) as Hpow. rewrite <- Hsize in Hpow.
  unfold distinctAt in Hd. rewrite <- Hsize in Hd.
  split; [|split; [|split; [|split]]].
  - unfold toSlice. rewrite length_map, length_seqZ. reflexivity.
  - apply slots_pigeonhole; [lia | exact Hd].
  - rewrite Hbase, placed_size, map_size_empty; [lia|].
    split; [exact Hd|]. apply Forall_forall. intros mj _. apply lookup_empty.
  - intros mj Hin. rewrite toSlice_lookup.
    + f_equal. rewrite Hbase. apply placed_lookup; assumption.
    + unfold slotIndex. apply Z.mod_pos_bound. lia.
  - intros Hfew. destruct k as [|k]; [exact Hsize|].
    exfalso. apply (Hmin O); [lia|]. unfold distinctAt.
    destruct auxs as [|mj [|mj' rest]]; [constructor | | simpl in Hfew; lia].
    apply NoDup_singleton.
Qed.

Lemma packer_table_shape_witness :
  merkleLoop 33 0 1 [auxID1; auxID42]
  = Some (Done (2, {[ 1 := repeat 0x11 32; 0 := repeat 0x42 32 ]}))
  /\ toSlice 2 {[ 1 := repeat 0x11 32; 0 := repeat 0x42 32 ]}
       !! Z.to_nat (slotIndex 2 auxID42)
     = Some (Some (repeat 0x42 32)).
Proof.
  assert (Hrun : merkleLoop 33 0 1 [auxID1; auxID42]
                 = Some (Done (2, {[ 1 := repeat 0x11 32; 0 := repeat 0x42 32 ]}))).
  { vm_compute. reflexivity. }
  split; [exact Hrun|].
  apply (proj1 (proj2 (proj2 (proj2 (packer_table_shape 33 _ _ _ Hrun)))) auxID42).
  apply elem_of_cons. right. apply elem_of_cons. left. reflexivity.
Defined.

Lemma placed_Permutation merkleSize auxs auxs' (merkleBase : gmap Z bytes) :
  NoDup (slotIndex merkleSize <$> auxs) -> auxs ≡ₚ auxs' ->
  placed merkleSize auxs merkleBase = placed merkleSize auxs' merkleBase.
Proof.
  intros Hnd Hperm. apply map_eq. intros i.
  assert (Hnd' : NoDup (slotIndex merkleSize <$> auxs')) by (rewrite <- Hperm; exact Hnd).
  destruct (decide (i ∈ slotIndex merkleSize <$> auxs)) as [Hin|Hnotin].
  - apply list_elem_of_fmap in Hin as (mj & -> & Hin).
    rewrite !placed_lookup; try assumption; [reflexivity|].
    rewrite <- Hperm. exact Hin.
  - rewrite !placed_lookup_other; [reflexivity | | exact Hnotin].
    rewrite <- Hperm. exact Hnotin.
Qed.

Lemma fits_Permutation merkleSize auxs auxs' (merkleBase : gmap Z bytes) :
  auxs ≡ₚ auxs' -> fits merkleSize auxs merkleBase -> fits merkleSize auxs' merkleBase.
Proof.
  intros Hperm [Hnd Hfree]. split; rewrite <- Hperm; assumption.
Qed.

Lemma fillSlots_Permutation merkleSize auxs auxs' (merkleBase : gmap Z bytes) :
  auxs ≡ₚ auxs' ->
  fillSlots 0 merkleSize auxs merkleBase = fillSlots 0 merkleSize auxs' merkleBase.
Proof.
  intros Hperm. destruct (decide (uint32 merkleSize = 0)) as [Hzero|Hnz].
  - destruct auxs as [|mj rest].
    + apply Permutation_nil_l in Hperm. subst auxs'. reflexivity.
    + rewrite !fillSlots_zero; try assumption; try discriminate; [reflexivity|].
      intros ->. apply Permutation_nil_r in Hperm. discriminate.
  - destruct (decide (fits (uint32 merkleSize) auxs merkleBase)) as [Hfit|Hno].
    + rewrite !fillSlots_fits; try assumption.
      * f_equal. apply placed_Permutation; [apply Hfit | exact Hperm].
      * apply (fits_Permutation _ auxs); assumption.
    + rewrite !fillSlots_not_fits; try assumption; [reflexivity|].
      intros Hfit. apply Hno. apply (fits_Permutation _ auxs'); [symmetry|]; assumption.
Qed.

Lemma merkleLoop_Permutation (fuel : nat) (merkleSize : Z)
    (auxs auxs' : list AuxChainJob.t) :
  auxs ≡ₚ auxs' ->
  merkleLoop fuel 0 merkleSize auxs = merkleLoop fuel 0 merkleSize auxs'.
Proof.
  intros Hperm. revert merkleSize.
  induction fuel as [|fuel IH]; intros merkleSize; [reflexivity|].
  simpl. rewrite (fillSlots_Permutation _ auxs auxs') by exact Hperm.
  destruct (merkleSize <? 0); [reflexivity|].
  destruct (fillSlots 0 merkleSize auxs' ∅); [reflexivity | apply IH | reflexivity].
Qed.

Section JobOrder.
Context `{Externals}.

Lemma setBranches_Permutation merkleBase auxs auxs' :
  auxs ≡ₚ auxs' -> setBranches merkleBase auxs ≡ₚ setBranches merkleBase auxs'.
Proof. intros Hperm. unfold setBranches. apply Permutation_map. exact Hperm. Qed.

Lemma mmCoinbase_Permutation auxs auxs' merkleSize merkleNonce merkleBase :
  auxs ≡ₚ auxs' ->
  mmCoinbase auxs merkleSize merkleNonce merkleBase
  = mmCoinbase auxs' merkleSize merkleNonce merkleBase.
Proof.
  intros Hperm. unfold mmCoinbase. rewrite <- (Permutation_length Hperm).
  destruct auxs as [|mj [|mj' rest]].
  - reflexivity.
  - apply Permutation_singleton_l in Hperm. subst auxs'. reflexivity.
  - reflexivity.
Qed.

(** X12: the packer does not depend on the order in which the aux chains
    were gathered: on a permutation of the list the packing loop ends the
    same way, with the same table size and the same table, and the
    merged-mining blob written into the coinbase is the same. *)
Theorem packer_order_independent (fuel : nat) (auxs auxs' : list AuxChainJob.t) :
  auxs ≡ₚ auxs' ->
  merkleLoop fuel 0 1 auxs = merkleLoop fuel 0 1 auxs'
  /\ forall merkleSize merkleBase,
       merkleLoop fuel 0 1 auxs = Some (Done (merkleSize, merkleBase)) ->
       let table := toSlice merkleSize merkleBase in
       mmCoinbase (setBranches table auxs) merkleSize 0 table
       = mmCoinbase (setBranches table auxs') merkleSize 0 table.
Proof.
  intros Hperm. split; [apply merkleLoop_Permutation; exact Hperm|].
  intros merkleSize merkleBase _ table.
  apply mmCoinbase_Permutation, setBranches_Permutation. exact Hperm.
Qed.

End JobOrder.

Lemma packer_order_independent_witness :
  merkleLoop 33 0 1 [auxID42; auxID1]
  = Some (Done (2, {[ 1 := repeat 0x11 32; 0 := repeat 0x42 32 ]})).
Proof.
  rewrite (proj1 (packer_order_independent (H := exampleExternals) 33
                    [auxID42; auxID1] [auxID1; auxID42] (perm_swap _ _ _))).
  vm_compute. reflexivity.
Defined.

(** ** The template loop in another order *)

Section TemplateOrder.
Context `{Externals}.

Lemma templateStep_inv algo job entry job' :
  templateStep algo job entry = Ok job' ->
  exists tmpl chainConfig,
    Unmarshal entry.2 = Ok tmpl
    /\ CurrencyConfig !! Currency entry.1 = Some chainConfig
    /\ ((isAux entry /\ exists auxChainJob,
           NewAuxChainJob tmpl chainConfig algo = Ok auxChainJob
           /\ job' = {| bMain := bMain job;
                        bHeights := <[ChainConfig.Code chainConfig
                                       := AuxChainJob.height auxChainJob]> (bHeights job);
                        bAuxChains := bAuxChains job ++ [auxChainJob] |})
        \/ (~ isAux entry /\ isMain entry /\ bMain job = None
            /\ exists mainChainJob,
                 NewMainChainJob tmpl chainConfig algo = Ok mainChainJob
                 /\ job' = {| bMain := Some (mainChainJob, tmpl);
                              bHeights := <[ChainConfig.Code chainConfig
                                             := MainChainJob.height mainChainJob]>
                                            (bHeights job);
                              bAuxChains := bAuxChains job |})).
Proof.
  destruct entry as [tmplKey tmplRaw]. unfold templateStep, isMain, isAux. simpl.
  destruct (Unmarshal tmplRaw) as [tmpl|e]; simpl; [|discriminate].
  destruct (CurrencyConfig !! Currency tmplKey) as [chainConfig|]; [|discriminate].
  destruct (String.eqb_spec (TemplateType tmplKey) "getblocktemplate_aux") as [Haux|Haux].
  - destruct (NewAuxChainJob tmpl chainConfig algo) as [auxChainJob|e] eqn:Hnew;
      simpl; [|discriminate].
    intros Heq. injection Heq as <-. exists tmpl, chainConfig.
    split; [reflexivity|]. split; [reflexivity|]. left. eauto.
  - destruct (String.eqb_spec (TemplateType tmplKey) "getblocktemplate") as [Hmain|Hmain];
      [|discriminate].
    case_bool_decide as Hset; [discriminate|].
    destruct (NewMainChainJob tmpl chainConfig algo) as [mainChainJob|e] eqn:Hnew;
      simpl; [|discriminate].
    intros Heq. injection Heq as <-. exists tmpl, chainConfig.
    split; [reflexivity|]. split; [reflexivity|]. right.
    split; [exact Haux|]. split; [exact Hmain|]. split; [|eauto].
    destruct (bMain job); [exfalso; apply Hset; eauto | reflexivity].
Qed.

Lemma templateStep_aux algo job entry tmpl chainConfig auxChainJob :
  Unmarshal entry.2 = Ok tmpl ->
  CurrencyConfig !! Currency entry.1 = Some chainConfig ->
  isAux entry ->
  NewAuxChainJob tmpl chainConfig algo = Ok auxChainJob ->
  templateStep algo job entry
  = Ok {| bMain := bMain job;
          bHeights := <[ChainConfig.Code chainConfig := AuxChainJob.height auxChainJob]>
                        (bHeights job);
          bAuxChains := bAuxChains job ++ [auxChainJob] |}.
Proof.
  destruct entry as [tmplKey tmplRaw]. unfold templateStep, isAux. simpl.
  intros Hu Hc Haux Hnew. rewrite Hu. simpl. rewrite Hc, Haux. simpl.
  rewrite Hnew. reflexivity.
Qed.

Lemma templateStep_main algo job entry tmpl chainConfig mainChainJob :
  Unmarshal entry.2 = Ok tmpl ->
  CurrencyConfig !! Currency entry.1 = Some chainConfig ->
  ~ isAux entry -> isMain entry -> bMain job = None ->
  NewMainChainJob tmpl chainConfig algo = Ok mainChainJob ->
  templateStep algo job entry
  = Ok {| bMain := Some (mainChainJob, tmpl);
          bHeights := <[ChainConfig.Code chainConfig := MainChainJob.height mainChainJob]>
                        (bHeights job);
          bAuxChains := bAuxChains job |}.
Proof.
  destruct entry as [tmplKey tmplRaw]. unfold templateStep, isAux, isMain. simpl.
  intros Hu Hc Haux Hmain Hnone Hnew. rewrite Hu. simpl. rewrite Hc.
  destruct (String.eqb_spec (TemplateType tmplKey) "getblocktemplate_aux") as [|_];
    [contradiction|].
  rewrite Hmain, Hnone. simpl. rewrite Hnew. reflexivity.
Qed.

Lemma sameChains_refl withHeights job : sameChains withHeights job job.
Proof. split; [reflexivity|]. split; reflexivity. Qed.

Lemma sameChains_trans withHeights job1 job2 job3 :
  sameChains withHeights job1 job2 -> sameChains withHeights job2 job3 ->
  sameChains withHeights job1 job3.
Proof.
  intros (Hm & Ha & Hh) (Hm' & Ha' & Hh'). split; [congruence|]. split.
  - etransitivity; eassumption.
  - intros Hw. rewrite Hh, Hh'; tauto.
Qed.

(** A step of the loop takes states with the same chains to states with
    the same chains. *)
Lemma templateStep_sameChains withHeights algo job1 job2 entry job1' :
  sameChains withHeights job1 job2 ->
  templateStep algo job1 entry = Ok job1' ->
  exists job2', templateStep algo job2 entry = Ok job2'
                /\ sameChains withHeights job1' job2'.
Proof.
  intros (Hm & Ha & Hh) Hstep.
  apply templateStep_inv in Hstep
    as (tmpl & chainConfig & Hu & Hc
        & [(Haux & a & Hnew & ->) | (Hnaux & Hmain & Hnone & m & Hnew & ->)]).
  - eexists. split; [eapply templateStep_aux; eassumption|].
    split; [exact Hm|]. split; simpl.
    + rewrite Ha. reflexivity.
    + intros Hw. rewrite (Hh Hw). reflexivity.
  - eexists. split; [eapply templateStep_main; try eassumption; congruence|].
    split; [reflexivity|]. split; simpl; [exact Ha|].
    intros Hw. rewrite (Hh Hw). reflexivity.
Qed.

Lemma templateLoop_sameChains withHeights algo templates job1 job2 job1' :
  sameChains withHeights job1 job2 ->
  templateLoop algo job1 templates = Ok job1' ->
  exists job2', templateLoop algo job2 templates = Ok job2'
                /\ sameChains withHeights job1' job2'.
Proof.
  revert job1 job2. induction templates as [|entry rest IH]; intros job1 job2 Hsame Hloop.
  - injection Hloop as <-. exists job2. split; [reflexivity | exact Hsame].
  - simpl in Hloop. apply bind_Ok in Hloop as (mid & Hstep & Hloop).
    destruct (templateStep_sameChains _ _ _ _ _ _ Hsame Hstep) as (mid' & Hstep' & Hsame').
    destruct (IH _ _ Hsame' Hloop) as (job2' & Hloop' & Hsame'').
    exists job2'. split; [|exact Hsame'']. simpl. rewrite Hstep'. exact Hloop'.
Qed.

(** Two consecutive entries can be visited in the other order. *)
Lemma templateStep_swap (withHeights : Prop) algo job x y job1 job2 :
  (withHeights -> templateCode x <> templateCode y) ->
  templateStep algo job y = Ok job1 ->
  templateStep algo job1 x = Ok job2 ->
  exists job1' job2',
    templateStep algo job x = Ok job1'
    /\ templateStep algo job1' y = Ok job2'
    /\ sameChains withHeights job2 job2'.
Proof.
  intros Hcodes Hy Hx.
  apply templateStep_inv in Hy
    as (ty & cy & Huy & Hcy
        & [(Hay & ay & Hny & ->) | (Hnay & Hmy & Hnone & my & Hny & ->)]);
  apply templateStep_inv in Hx
    as (tx & cx & Hux & Hcx
        & [(Hax & ax & Hnx & ->) | (Hnax & Hmx & Hnone' & mx & Hnx & ->)]);
  simpl in *; try discriminate.
  - eexists _, _. split; [eapply templateStep_aux; eassumption|].
    split; [eapply templateStep_aux; eassumption|].
    split; [reflexivity|]. split; simpl.
    + rewrite <- !app_assoc. apply Permutation_app_head. apply perm_swap.
    + intros Hw. apply insert_insert_ne.
      intros Heq. apply (Hcodes Hw). unfold templateCode. rewrite Hcx, Hcy. simpl.
      f_equal. exact Heq.
  - eexists _, _. split; [eapply templateStep_main; eassumption|].
    split; [eapply templateStep_aux; eassumption|].
    split; [reflexivity|]. split; simpl; [reflexivity|].
    intros Hw. apply insert_insert_ne.
    intros Heq. apply (Hcodes Hw). unfold templateCode. rewrite Hcx, Hcy. simpl.
    f_equal. exact Heq.
  - eexists _, _. split; [eapply templateStep_aux; eassumption|].
    split; [eapply templateStep_main; eassumption|].
    split; [reflexivity|]. split; simpl; [reflexivity|].
    intros Hw. apply insert_insert_ne.
    intros Heq. apply (Hcodes Hw). unfold templateCode. rewrite Hcx, Hcy. simpl.
    f_equal. exact Heq.
Qed.

Lemma templateLoop_Permutation (withHeights : Prop) algo templates templates' :
  templates ≡ₚ templates' ->
  (withHeights -> NoDup (templateCode <$> templates)) ->
  forall job1 job2 job1',
    sameChains withHeights job1 job2 ->
    templateLoop algo job1 templates = Ok job1' ->
    exists job2', templateLoop algo job2 templates' = Ok job2'
                  /\ sameChains withHeights job1' job2'.
Proof.
  induction 1 as [|x l l' Hperm IH|x y l|l l' l'' Hperm IH Hperm' IH'];
    intros Hnd job1 job2 job1' Hsame Hloop.
  - injection Hloop as <-. exists job2. split; [reflexivity | exact Hsame].
  - simpl in Hloop. apply bind_Ok in Hloop as (mid & Hstep & Hloop).
    destruct (templateStep_sameChains _ _ _ _ _ _ Hsame Hstep) as (mid' & Hstep' & Hsame').
    destruct (IH (fun Hw => proj2 (proj1 (NoDup_cons _ _) (Hnd Hw))) _ _ _ Hsame' Hloop)
      as (job2' & Hloop' & Hsame'').
    exists job2'. split; [|exact Hsame'']. simpl. rewrite Hstep'. exact Hloop'.
  - simpl in Hloop. apply bind_Ok in Hloop as (mid1 & Hy & Hloop).
    apply bind_Ok in Hloop as (mid2 & Hx & Hloop).
    assert (Hcodes : withHeights -> templateCode x <> templateCode y).
    { intros Hw Heq. specialize (Hnd Hw). rewrite !fmap_cons in Hnd.
      apply NoDup_cons in Hnd as [Hnotin _]. apply Hnotin.
      rewrite Heq. apply elem_of_cons. left. reflexivity. }
    destruct (templateStep_swap _ _ _ _ _ _ _ Hcodes Hy Hx)
      as (m1 & m2 & Hx' & Hy' & Hsame').
    destruct (templateStep_sameChains _ _ _ _ _ _ Hsame Hx') as (n1 & Hx'' & Hs1).
    destruct (templateStep_sameChains _ _ _ _ _ _ Hs1 Hy') as (n2 & Hy'' & Hs2).
    destruct (templateLoop_sameChains _ _ _ _ _ _
                (sameChains_trans _ _ _ _ Hsame' Hs2) Hloop) as (job2' & Hloop' & Hs3).
    exists job2'. split; [|exact Hs3]. simpl. rewrite Hx''. simpl. rewrite Hy''. exact Hloop'.
  - destruct (IH Hnd _ _ _ (sameChains_refl _ job1) Hloop) as (mid & Hmid & Hs1).
    assert (Hnd' : withHeights -> NoDup (templateCode <$> l')).
    { intros Hw. rewrite <- Hperm. apply Hnd. exact Hw. }
    destruct (IH' Hnd' _ _ _ Hsame Hmid) as (job2' & Hloop' & Hs2).
    exists job2'. split; [exact Hloop'|].
    eapply sameChains_trans; eassumption.
Qed.

(** X13: the order in which [range] visits the templates does not change
    the job.  If the templates give a job in one order, they give a job in
    every order: with the same main chain job (so the same coinbase and
    merged-mining blob), the same aux chain jobs up to their order, each
    with the same branch and mask, and, when the templates' chain codes are
    pairwise distinct, the same heights map. *)
Theorem NewJobFromTemplates_order_independent (fuel : nat)
    (templates templates' : list (TemplateKey * bytes)) (algo : Algo.t) (job : Job) :
  templates ≡ₚ templates' ->
  NewJobFromTemplates fuel templates algo = Some (Done (Ok job)) ->
  exists job',
    NewJobFromTemplates fuel templates' algo = Some (Done (Ok job'))
    /\ main job' = main job
    /\ auxChains job' ≡ₚ auxChains job
    /\ (NoDup (templateCode <$> templates) -> heights job' = heights job).
Proof.
  intros Hperm Hnew. unfold NewJobFromTemplates in *.
  destruct (templateLoop algo emptyBuilder templates) as [built|e] eqn:Hloop;
    [|discriminate].
  destruct (templateLoop_Permutation (NoDup (templateCode <$> templates)) algo _ _ Hperm
              (fun Hw => Hw) _ _ _ (sameChains_refl _ emptyBuilder) Hloop)
    as (built' & Hloop' & Hm & Ha & Hh).
  rewrite Hloop'. rewrite <- Hm.
  destruct (bMain built) as [[mainChainJob mainJobTemplate]|]; [|discriminate].
  rewrite <- (merkleLoop_Permutation fuel 1 _ _ Ha).
  destruct (merkleLoop fuel 0 1 (bAuxChains built)) as [[[merkleSize merkleBase]|msg]|];
    try discriminate.
  cbv zeta in *.
  rewrite <- (mmCoinbase_Permutation _ _ _ _ _
                (setBranches_Permutation (toSlice merkleSize merkleBase) _ _ Ha)).
  injection Hnew as Hnew.
  apply bind_Ok in Hnew as ([coinbase1 coinbase2] & Hsplit & Hjob).
  rewrite Hsplit. injection Hjob as <-.
  eexists. split; [reflexivity|]. simpl.
  split; [reflexivity|]. split.
  - symmetry. apply setBranches_Permutation. exact Ha.
  - intros Hw. symmetry. apply Hh. exact Hw.
Qed.

End TemplateOrder.

Lemma NewJobFromTemplates_order_independent_witness :
  exists job job',
    NewJobFromTemplates (H := exampleExternals) 33 templatesMerged algoSha
    = Some (Done (Ok job))
    /\ NewJobFromTemplates (H := exampleExternals) 33 (rev templatesMerged) algoSha
       = Some (Done (Ok job'))
    /\ main job' = main job
    /\ heights job' = heights job.
Proof.
  assert (Hlen : match NewJobFromTemplates (H := exampleExternals) 33 templatesMerged algoSha
                 with
                 | Some (Done (Ok job)) => length (auxChains job)
                 | _ => O
                 end = 2%nat).
  { vm_compute. reflexivity. }
  destruct (NewJobFromTemplates (H := exampleExternals) 33 templatesMerged algoSha)
    as [[[job|e]|msg]|] eqn:E; try discriminate Hlen.
  destruct (NewJobFromTemplates_order_independent (H := exampleExternals) 33
              templatesMerged (rev templatesMerged) algoSha job
              (Permutation_rev _) E) as (job' & Hnew & Hmain & _ & Hheights).
  exists job, job'. split; [reflexivity|]. split; [exact Hnew|]. split; [exact Hmain|].
  apply Hheights.
  apply (proj1 (bool_decide_eq_true
                  (NoDup (templateCode (H := exampleExternals) <$> templatesMerged)))).
  vm_compute. reflexivity.
Defined.

(** ** What a constructed job looks like *)

Section BuiltJob.
Context `{Externals}.

Lemma NewJobFromTemplates_inv fuel templates algo job :
  NewJobFromTemplates fuel templates algo = Some (Done (Ok job)) ->
  exists built mainChainJob mainJobTemplate merkleSize merkleBase coinbase1 coinbase2,
    templateLoop algo emptyBuilder templates = Ok built
    /\ bMain built = Some (mainChainJob, mainJobTemplate)
    /\ merkleLoop fuel 0 1 (bAuxChains built) = Some (Done (merkleSize, merkleBase))
    /\ job = {| main := MainChainJob.set_coinbase coinbase1 coinbase2 mainChainJob;
                heights := bHeights built;
                auxChains := setBranches (toSlice merkleSize merkleBase) (bAuxChains built);
                algo := algo |}.
Proof.
  unfold NewJobFromTemplates.
  destruct (templateLoop algo emptyBuilder templates) as [built|e]; [|discriminate].
  destruct (bMain built) as [[mainChainJob mainJobTemplate]|] eqn:Hmain; [|discriminate].
  destruct (merkleLoop fuel 0 1 (bAuxChains built)) as [[[merkleSize merkleBase]|msg]|]
    eqn:Hpack; [|discriminate|discriminate].
  cbv zeta. intros Hnew. injection Hnew as Hnew.
  apply bind_Ok in Hnew as ([coinbase1 coinbase2] & _ & Hjob). injection Hjob as <-.
  exists built, mainChainJob, mainJobTemplate, merkleSize, merkleBase, coinbase1, coinbase2.
  split; [reflexivity|]. split; [exact Hmain|]. split; [exact Hpack | reflexivity].
Qed.

Lemma setBranches_packKey merkleBase auxs :
  packKey <$> setBranches merkleBase auxs = packKey <$> auxs.
Proof.
  unfold setBranches. induction auxs as [|mj rest IH]; [reflexivity|].
  simpl. destruct (auxMerkleBranch merkleBase _). simpl. f_equal. apply IH.
Qed.

Lemma Forall_packKey (P : Z * bytes -> Prop) auxs auxs' :
  packKey <$> auxs' = packKey <$> auxs ->
  Forall (fun mj => P (packKey mj)) auxs -> Forall (fun mj => P (packKey mj)) auxs'.
Proof.
  intros Hkeys Hall.
  change (Forall (P ∘ packKey) auxs'). change (Forall (P ∘ packKey) auxs) in Hall.
  rewrite <- Forall_fmap in *. rewrite Hkeys. exact Hall.
Qed.

(** The main slot counts for one chain. *)
Lemma templateLoop_built algo job templates job' :
  templateLoop algo job templates = Ok job' ->
  length (builderCodes job') = (length (builderCodes job) + length templates)%nat
  /\ (Forall (fun mj => AuxChainJob.chainID mj <> 0) (bAuxChains job) ->
      Forall (fun mj => AuxChainJob.chainID mj <> 0) (bAuxChains job'))
  /\ (forall mainChainJob tmpl,
        bMain job' = Some (mainChainJob, tmpl) ->
        bMain job = Some (mainChainJob, tmpl)
        \/ MainChainJob.cleanJobs mainChainJob = true
           /\ MainChainJob.coinbase1 mainChainJob = []
           /\ MainChainJob.coinbase2 mainChainJob = []).
Proof.
  revert job. induction templates as [|entry rest IH]; intros job Hloop.
  - injection Hloop as <-. split; [simpl; lia|]. split; [tauto|].
    intros m t Hm. left. exact Hm.
  - simpl in Hloop. apply bind_Ok in Hloop as (mid & Hstep & Hloop).
    destruct (IH _ Hloop) as (Hlen & Hids & Hmain). clear IH Hloop.
    apply templateStep_inv in Hstep
      as (tmpl & chainConfig & Hu & Hc
          & [(Haux & a & Hnew & ->) | (Hnaux & Hismain & Hnone & m & Hnew & ->)]).
    + unfold builderCodes in *. simpl in *.
      rewrite Hlen, !length_app, !length_fmap, length_app. simpl.
      split; [lia|]. split; [|exact Hmain].
      intros Hall. apply Hids, Forall_app. split; [exact Hall|].
      constructor; [|constructor].
      apply NewAuxChainJob_chainID in Hnew as (Hid & -> & _). exact Hid.
    + unfold builderCodes in *. simpl in *. rewrite Hnone.
      rewrite Hlen. simpl. split; [lia|]. split; [exact Hids|].
      intros m' t' Hm'. right. destruct (Hmain _ _ Hm') as [Heq | Hclean]; [|exact Hclean].
      injection Heq as <- <-.
      apply NewMainChainJob_built in Hnew as (? & ? & ? & ? & _ & _ & _ & _ & ->).
      split; [reflexivity|]. split; reflexivity.
Qed.

(** X14: a job that [NewJobFromTemplates] returns came from exactly one
    "getblocktemplate" template and no rejected one; it has one aux chain
    per remaining template, the algorithm it was given and [cleanJobs]
    set; the ids of its aux chains are non-zero and pairwise distinct
    modulo 2^31. *)
Theorem NewJobFromTemplates_job (fuel : nat) (templates : list (TemplateKey * bytes))
    (powAlgo : Algo.t) (job : Job) :
  NewJobFromTemplates fuel templates powAlgo = Some (Done (Ok job)) ->
  mainCount templates = 1%nat
  /\ Forall (fun entry => ~ rejected entry) templates
  /\ S (length (auxChains job)) = length templates
  /\ algo job = powAlgo
  /\ MainChainJob.cleanJobs (main job) = true
  /\ Forall (fun mj => AuxChainJob.chainID mj <> 0) (auxChains job)
  /\ idsDistinct 31 (auxChains job).
Proof.
  intros Hnew.
  apply NewJobFromTemplates_inv in Hnew
    as (built & m & t & merkleSize & merkleBase & c1 & c2 & Hloop & Hmain & Hpack & ->).
  simpl.
  destruct (templateLoop_Ok _ _ _ _ Hloop) as (Hrej & _ & Hcount).
  destruct (templateLoop_built _ _ _ _ Hloop) as (Hlen & Hids & Hclean).
  split; [apply Hcount; [reflexivity | rewrite Hmain; eauto]|].
  split; [exact Hrej|].
  split.
  { unfold builderCodes in Hlen. rewrite Hmain in Hlen. simpl in Hlen.
    rewrite length_fmap in Hlen. unfold setBranches. rewrite length_map. exact Hlen. }
  split; [reflexivity|].
  split.
  { destruct (Hclean _ _ Hmain) as [Habs | (Hc & _)]; [discriminate | exact Hc]. }
  split.
  - apply (Forall_packKey (fun key => key.1 <> 0) (bAuxChains built));
      [apply setBranches_packKey | apply Hids; constructor].
  - destruct (merkleLoop_done _ _ _ _ Hpack) as (k & Hk & _ & _ & Hd & _).
    apply (distinctAt_mono k 31) in Hd; [|exact Hk].
    apply distinctAt_ids in Hd; [|lia].
    unfold idsDistinct in *.
    assert (Hkeys := setBranches_packKey (toSlice merkleSize merkleBase) (bAuxChains built)).
    apply (f_equal (fmap (fun key : Z * bytes => key.1 mod 2 ^ Z.of_nat 31))) in Hkeys.
    rewrite <- !list_fmap_compose in Hkeys. unfold compose, packKey in Hkeys. simpl in Hkeys.
    rewrite Hkeys. exact Hd.
Qed.

End BuiltJob.

Lemma NewJobFromTemplates_job_witness :
  exists job,
    NewJobFromTemplates (H := exampleExternals) 33 templatesMerged algoSha
    = Some (Done (Ok job))
    /\ length (auxChains job) = 2%nat
    /\ MainChainJob.cleanJobs (main job) = true.
Proof.
  assert (Hlen : match NewJobFromTemplates (H := exampleExternals) 33 templatesMerged algoSha
                 with
                 | Some (Done (Ok job)) => length (auxChains job)
                 | _ => O
                 end = 2%nat).
  { vm_compute. reflexivity. }
  destruct (NewJobFromTemplates (H := exampleExternals) 33 templatesMerged algoSha)
    as [[[job|e]|msg]|] eqn:E; try discriminate Hlen.
  destruct (NewJobFromTemplates_job (H := exampleExternals) _ _ _ _ E)
    as (_ & _ & Hcount & _ & Hclean & _).
  exists job. split; [reflexivity|]. split; [|exact Hclean].
  simpl in Hcount. injection Hcount as Hcount. exact Hcount.
Defined.

(** ** Flush evaluation, continued *)

Section FlushMore.
Context `{Externals}.

Lemma set_cleanJobs_same (j : Job) :
  MainChainJob.cleanJobs (main j) = true -> set_cleanJobs true j = j.
Proof.
  destruct j as [m hs auxs a]. destruct m. simpl. intros ->. reflexivity.
Qed.

Lemma SetFlush_job (j : Job) (lastJobSetFlush : iface) :
  (SetFlush j lastJobSetFlush).1.1 = j
  \/ (SetFlush j lastJobSetFlush).1.1 = set_cleanJobs true j.
Proof.
  unfold SetFlush. destruct lastJobSetFlush as [| |prev|]; try (left; reflexivity).
  repeat match goal with |- context [if ?b then _ else _] => destruct b end;
    simpl; tauto.
Qed.

(** X15: [NewMainChainJob] sets [cleanJobs], so on a job that
    [NewJobFromTemplates] returned [SetFlush] changes nothing, whatever
    the previous value; and when the chain codes of the job are pairwise
    distinct, evaluating the job against its own heights map neither
    drops nor flushes. *)
Theorem SetFlush_constructed_job (fuel : nat) (templates : list (TemplateKey * bytes))
    (powAlgo : Algo.t) (job : Job) :
  NewJobFromTemplates fuel templates powAlgo = Some (Done (Ok job)) ->
  (forall lastJobSetFlush, (SetFlush job lastJobSetFlush).1.1 = job)
  /\ (NoDup (chainCodes job) ->
      SetFlush job (IHeights (heights job)) = (job, false, IHeights (heights job))).
Proof.
  intros Hnew. split.
  - intros lastJobSetFlush.
    destruct (SetFlush_job job lastJobSetFlush) as [Hsame | Hset]; [exact Hsame|].
    rewrite Hset. apply set_cleanJobs_same.
    apply NewJobFromTemplates_inv in Hnew
      as (built & m & t & merkleSize & merkleBase & c1 & c2 & Hloop & Hmain & _ & ->).
    simpl. destruct (templateLoop_built _ _ _ _ Hloop) as (_ & _ & Hclean).
    destruct (Hclean _ _ Hmain) as [Habs | (Hc & _)]; [discriminate | exact Hc].
  - intros Hnd.
    destruct (NewJobFromTemplates_heights _ _ _ _ Hnew Hnd) as [Hmain Haux].
    unfold SetFlush. unfold mainCode in Hmain.
    rewrite Hmain. simpl. rewrite Z.ltb_irrefl.
    rewrite (auxAdvanced_own_heights _ _ Haux). reflexivity.
Qed.

(** X16: when the main chain's height differs from its previous entry,
    [SetFlush] hands back a value that is not a heights map (the height
    on an advance, nil on a drop), so the call for the next job compares
    nothing: that job is neither dropped nor flagged, whatever its
    heights, and its heights map is the value handed on. *)
Theorem SetFlush_after_height_change (j : Job) (prev : gmap string Z) (next : Job) :
  MainChainJob.height (main j) <> prevHeight prev (mainCode j) ->
  (forall hs, (SetFlush j (IHeights prev)).2 <> IHeights hs)
  /\ SetFlush next (SetFlush j (IHeights prev)).2
     = (next, false, IHeights (heights next)).
Proof.
  intros Hne. unfold prevHeight, mainCode in Hne.
  assert (Hr : (SetFlush j (IHeights prev)).2 = IInt64 (MainChainJob.height (main j))
               \/ (SetFlush j (IHeights prev)).2 = INil).
  { unfold SetFlush.
    destruct (Z.ltb_spec (default 0 (prev !! ChainConfig.Code
                                        (MainChainJob.currencyConfig (main j))))
                         (MainChainJob.height (main j))) as [Hup|Hle].
    - left. reflexivity.
    - destruct (Z.ltb_spec (MainChainJob.height (main j))
                  (default 0 (prev !! ChainConfig.Code
                                        (MainChainJob.currencyConfig (main j)))))
        as [Hdown|Hge]; [right; reflexivity | lia]. }
  destruct Hr as [-> | ->]; (split; [discriminate | reflexivity]).
Qed.

End FlushMore.

Lemma SetFlush_constructed_job_witness :
  exists job,
    NewJobFromTemplates (H := exampleExternals) 33 templatesMerged algoSha
    = Some (Done (Ok job))
    /\ (SetFlush job (IHeights {[ "BTC" := 99 ]})).1.1 = job.
Proof.
  assert (Hlen : match NewJobFromTemplates (H := exampleExternals) 33 templatesMerged algoSha
                 with
                 | Some (Done (Ok job)) => length (auxChains job)
                 | _ => O
                 end = 2%nat).
  { vm_compute. reflexivity. }
  destruct (NewJobFromTemplates (H := exampleExternals) 33 templatesMerged algoSha)
    as [[[job|e]|msg]|] eqn:E; try discriminate Hlen.
  exists job. split; [reflexivity|].
  apply (proj1 (SetFlush_constructed_job (H := exampleExternals) _ _ _ _ E)).
Defined.

Lemma SetFlush_after_height_change_witness :
  SetFlush jobBTC (IHeights {[ "BTC" := 99 ]})
  = (set_cleanJobs true jobBTC, false, IInt64 100)
  /\ SetFlush jobAuxOnly (SetFlush jobBTC (IHeights {[ "BTC" := 99 ]})).2
     = (jobAuxOnly, false, IHeights (heights jobAuxOnly)).
Proof.
  split; [reflexivity|].
  apply (SetFlush_after_height_change jobBTC {[ "BTC" := 99 ]} jobAuxOnly).
  vm_compute. discriminate.
Defined.

(** ** The service registry *)

Module ServiceFacts.
Import Service.

Lemma lastIndexFrom_absent (s : string) (c : ascii) (i last : Z) :
  hasByte c s = false -> lastIndexFrom s c i last = last.
Proof.
  revert i last. induction s as [|a rest IH]; intros i last Hno; [reflexivity|].
  simpl in *. apply orb_false_iff in Hno as [Ha Hrest].
  rewrite Ha. apply IH. exact Hrest.
Qed.

Lemma lastIndexFrom_last (pre post : string) (c : ascii) (i last : Z) :
  hasByte c post = false ->
  lastIndexFrom (pre +:+ String c post) c i last = i + Z.of_nat (String.length pre).
Proof.
  intros Hno. revert i last. induction pre as [|a rest IH]; intros i last.
  - simpl. rewrite Ascii.eqb_refl. rewrite lastIndexFrom_absent by exact Hno. lia.
  - change ((String a rest) +:+ String c post) with (String a (rest +:+ String c post)).
    simpl lastIndexFrom. rewrite IH. simpl String.length. lia.
Qed.

Lemma sliceFrom_app (pre s : string) : sliceFrom (String.length pre) (pre +:+ s) = s.
Proof. induction pre as [|a rest IH]; [reflexivity | exact IH]. Qed.

Lemma split_last (c : ascii) (s : string) :
  hasByte c s = true ->
  exists pre post, s = pre +:+ String c post /\ hasByte c post = false.
Proof.
  induction s as [|a rest IH]; [discriminate|]. simpl. intros Hhas.
  destruct (hasByte c rest) eqn:Hrest.
  - destruct (IH eq_refl) as (pre & post & -> & Hno).
    exists (String a pre), post. split; [reflexivity | exact Hno].
  - rewrite orb_false_r in Hhas. apply Ascii.eqb_eq in Hhas. subst a.
    exists EmptyString, rest. split; [reflexivity | exact Hrest].
Qed.

Lemma append_cons (a : ascii) (s t : string) : String a s +:+ t = String a (s +:+ t).
Proof. reflexivity. Qed.

Lemma append_assoc (a b c : string) : a +:+ (b +:+ c) = (a +:+ b) +:+ c.
Proof.
  induction a as [|x rest IH]; [reflexivity|]. rewrite !append_cons. f_equal. exact IH.
Qed.

Lemma append_length (a b : string) :
  String.length (a +:+ b) = (String.length a + String.length b)%nat.
Proof.
  induction a as [|x rest IH]; [reflexivity|]. rewrite append_cons. simpl. f_equal. exact IH.
Qed.

Lemma serviceIDOfKey_cut (pre id : string) :
  hasByte "/" id = false -> serviceIDOfKey (pre +:+ String "/" id) = id.
Proof.
  intros Hno. unfold serviceIDOfKey, LastIndexByte. cbv zeta.
  rewrite lastIndexFrom_last by exact Hno.
  replace (Z.to_nat (0 + Z.of_nat (String.length pre) + 1))
    with (String.length (pre +:+ "/")).
  - change (String "/" id) with ("/" +:+ id). rewrite append_assoc.
    apply sliceFrom_app.
  - rewrite append_length. simpl. lia.
Qed.

(** X17: the service id cut from a node key is what follows the last
    slash of the key: it holds no slash, the key is a prefix followed by
    it, and the prefix is empty (then the key holds no slash at all) or
    ends in a slash. *)
Theorem serviceIDOfKey_after_last_slash (key : string) :
  hasByte "/" (serviceIDOfKey key) = false
  /\ exists prefix,
       key = prefix +:+ serviceIDOfKey key
       /\ (prefix = EmptyString /\ hasByte "/" key = false
           \/ exists dir, prefix = dir +:+ "/").
Proof.
  destruct (hasByte "/" key) eqn:Hhas.
  - destruct (split_last _ _ Hhas) as (pre & post & -> & Hno).
    rewrite serviceIDOfKey_cut by exact Hno.
    split; [exact Hno|]. exists (pre +:+ "/"). split.
    + rewrite <- append_assoc. reflexivity.
    + right. exists pre. reflexivity.
  - assert (Hid : serviceIDOfKey key = key).
    { unfold serviceIDOfKey, LastIndexByte. cbv zeta.
      rewrite lastIndexFrom_absent by exact Hhas. reflexivity. }
    rewrite Hid. split; [exact Hhas|].
    exists EmptyString. split; [reflexivity|]. left. split; reflexivity.
Qed.

(** X18: the id a service registers under is the id read back from its
    keys: for an id without a slash, [parseNode] and the [ls] command cut
    the id set by [SetServiceID] out of the status key and out of the
    config key, whatever the namespace. *)
Theorem SetServiceID_round_trip (s : Service.t) (id : string) :
  hasByte "/" id = false ->
  serviceID (SetServiceID s id) = id
  /\ serviceIDOfKey (statusKeyPath (SetServiceID s id)) = id
  /\ serviceIDOfKey (configKeyPath (SetServiceID s id)) = id.
Proof.
  intros Hno. split; [reflexivity|]. unfold SetServiceID. simpl statusKeyPath.
  simpl configKeyPath.
  change ("/status/" +:+ namespace s +:+ "/" +:+ id)
    with ("/status/" +:+ (namespace s +:+ String "/" id)).
  change ("/config/" +:+ namespace s +:+ "/" +:+ id)
    with ("/config/" +:+ (namespace s +:+ String "/" id)).
  rewrite !append_assoc. split; apply serviceIDOfKey_cut; exact Hno.
Qed.

Lemma SetServiceID_round_trip_witness :
  serviceIDOfKey (statusKeyPath (SetServiceID (Service.mk "" "coinserver" "" "") "btc_1"))
  = "btc_1".
Proof.
  apply (SetServiceID_round_trip (Service.mk "" "coinserver" "" "") "btc_1").
  reflexivity.
Defined.

Section WatcherFacts.
Context {ServiceStatus : Type} (decodeStatus : string -> ServiceStatus).

Lemma watchStep_replay watchNamespace (services : gmap string ServiceStatus) res :
  let '(services', update) := watchStep decodeStatus watchNamespace services res in
  match update with
  | Some u => replay (Some services) u = Some services'
              /\ ServiceType u = watchNamespace
              /\ ServiceID u = serviceIDOfKey res.1.2
  | None => services' = services
  end.
Proof.
  destruct res as [[resAction key] value]. unfold watchStep, parseNode. cbv zeta. simpl.
  destruct (String.eqb resAction "expire").
  - case_bool_decide as Hex; simpl; [|reflexivity].
    rewrite lookup_delete_eq. unfold replay. simpl.
    rewrite bool_decide_true by exact Hex. simpl. auto.
  - destruct (String.eqb resAction "set" || String.eqb resAction "update"); [|reflexivity].
    case_bool_decide as Hex; simpl; unfold replay; simpl.
    + rewrite bool_decide_true by exact Hex. simpl. auto.
    + rewrite bool_decide_false by exact Hex. simpl. auto.
Qed.

(** X19: the updates the watcher goroutine sends tell its table.  A
    listener that starts from a copy of the table and applies the updates
    in order (an "added" id is new to the copy, an "updated" or "removed"
    id is in it, and a "removed" update carries a nil status, the entry
    being read after it is deleted) ends with the watcher's table; every
    update names the watched namespace. *)
Theorem watchRun_replay (watchNamespace : string)
    (services : gmap string ServiceStatus) (events : list (string * string * string)) :
  foldl replay (Some services) (watchRun decodeStatus watchNamespace services events).2
  = Some (watchRun decodeStatus watchNamespace services events).1
  /\ Forall (fun u => ServiceType u = watchNamespace
                      /\ (Action u = "removed" <-> Status u = None))
            (watchRun decodeStatus watchNamespace services events).2.
Proof.
  revert services. induction events as [|res rest IH]; intros services.
  - split; [reflexivity | constructor].
  - simpl. pose proof (watchStep_replay watchNamespace services res) as Hstep.
    destruct (watchStep decodeStatus watchNamespace services res) as [mid update].
    specialize (IH mid).
    destruct (watchRun decodeStatus watchNamespace mid rest) as [final updates].
    simpl in *. destruct IH as [IHrun IHall].
    destruct update as [u|].
    + destruct Hstep as (Hreplay & Htype & _). simpl. rewrite Hreplay.
      split; [exact IHrun|]. constructor; [|exact IHall].
      split; [exact Htype|].
      unfold replay in Hreplay. simpl in Hreplay.
      destruct (Status u) as [status|].
      * split; [|discriminate]. intros Hact. rewrite Hact in Hreplay.
        simpl in Hreplay. discriminate.
      * split; [reflexivity|]. intros _.
        destruct (String.eqb_spec (Action u) "removed") as [Hact|_];
          [exact Hact | discriminate].
    + subst mid. split; [exact IHrun | exact IHall].
Qed.

End WatcherFacts.

End ServiceFacts.

(** ** Duplicate-share keys, continued *)

(** X20: among submissions whose fields have the same widths, the key of
    an [ExtranonceSolve] identifies the submission: two of them have the
    same key exactly when they are the same submission. *)
Theorem ExtranonceSolve_GetKey_same_submission (a b : ExtranonceSolve.t) :
  sameWidthsE a b ->
  ExtranonceSolve_GetKey a = ExtranonceSolve_GetKey b <-> a = b.
Proof.
  intros Hwidths. split.
  - apply ExtranonceSolve_GetKey_inj. exact Hwidths.
  - intros ->. reflexivity.
Qed.

Lemma ExtranonceSolve_GetKey_same_submission_witness :
  ExtranonceSolve_GetKey (ExtranonceSolve.mk [0; 0; 0; 1] [0x29; 0xab; 0x5f; 0x49] [7; 7] [9])
  <> ExtranonceSolve_GetKey (ExtranonceSolve.mk [0; 0; 0; 1] [0x29; 0xab; 0x5f; 0x49] [7; 7] [8]).
Proof.
  intros Hkey.
  apply (ExtranonceSolve_GetKey_same_submission
           (ExtranonceSolve.mk [0; 0; 0; 1] [0x29; 0xab; 0x5f; 0x49] [7; 7] [9])
           (ExtranonceSolve.mk [0; 0; 0; 1] [0x29; 0xab; 0x5f; 0x49] [7; 7] [8])) in Hkey.
  - discriminate Hkey.
  - repeat split.
Defined.
